(** * Murdock dispatch core (murdock/murdock.py)

    A shallow embedding of the [Murdock] class: the push and pull-request
    event handlers, the scheduler, the queue manager, the worker's
    [_process_job], the job lifecycle and the observer fan-out.

    Conventions of the embedding.
    - Python objects that are shared and mutated (the [MurdockJob]s held by
      the waiting list, the running pool and both asyncio queues, and the
      [JobQueryModel] handed to [remove_finished_jobs]) live in a store; the
      containers hold references (indices into the store).
    - A coroutine is a computation in a state-and-exception monad over the
      [World]; an exception leaves the mutations done so far in place, as
      in Python.
    - Every call that leaves the class (hosting, execution, persistence and
      observer adapters) is appended to the world's [trace].
    - Each coroutine is run to completion: no other task is interleaved at
      its [await]s. *)

From stdpp Require Import base option list strings.
From Stdlib Require Import ZArith Ascii String Lia.

Open Scope string_scope.
Open Scope Z_scope.

(** ** Python built-ins used by the module *)

Module Py.

(** [sep.join(parts)] *)
Definition join (sep : string) (parts : list string) : string :=
  String.concat sep parts.

(** [s.split(c)] for a one-character separator: the pieces between the
    occurrences of [c]; always at least one piece. *)
Fixpoint split_chars (c : ascii) (s : list ascii) : list (list ascii) :=
  match s with
  | [] => [[]]
  | x :: s' =>
      if Ascii.eqb x c then [] :: split_chars c s'
      else match split_chars c s' with
           | [] => [[x]]
           | p :: ps => (x :: p) :: ps
           end
  end.

Definition split (c : ascii) (s : string) : list string :=
  map String.string_of_list_ascii
      (split_chars c (String.list_ascii_of_string s)).

(** [l[-2:]] *)
Definition last_two {A} (l : list A) : list A :=
  drop (List.length l - 2)%nat l.

(** [x in l] on lists of strings *)
Definition str_in (x : string) (l : list string) : bool :=
  existsb (String.eqb x) l.

(** [sorted(l)] on strings (code-point order); insertion sort, stable. *)
Fixpoint insert_sorted (x : string) (l : list string) : list string :=
  match l with
  | [] => [x]
  | y :: l' => if String.leb x y then x :: l else y :: insert_sorted x l'
  end.

Definition sorted (l : list string) : list string :=
  foldr insert_sorted [] l.

(** The double-quote character, and a string between double quotes. *)
Definition dquote : string := String "034"%char EmptyString.
Definition quoted (s : string) : string := dquote +:+ s +:+ dquote.

End Py.

(** ** A reference engine for [re.match]

    [handle_ref] and [handle_skip_job] hand their patterns to Python's
    [re.match].  The operations below take the matcher as a component of
    the adapters; this module gives an executable matcher for a fragment
    of the pattern language, used to run the model on concrete inputs.

    Fragment: ordinary characters, [.], the anchors [^] and [$], escaped
    punctuation, groups [( )], alternation [|] and the repeats [*], [+],
    [?] (greedy or lazy).  [compile] tells apart the patterns Python
    rejects with [re.error] from those that are merely outside the
    fragment. *)

Module Re.

Inductive regex : Type :=
| Void                        (* matches nothing *)
| Eps                         (* the empty string *)
| Chr (c : ascii)
| AnyChr                      (* [.]: any character but a newline *)
| Bol                         (* [^]: start of the subject *)
| Eol                         (* [$]: end, or before a final newline *)
| Alt (r1 r2 : regex)
| Cat (r1 r2 : regex)
| Star (r : regex).

Inductive compiled : Type :=
| Compiled (r : regex)
| ReError                     (* Python raises re.error *)
| NotModelled.                (* valid or not, outside the fragment *)

Inductive parsed : Type :=
| POk (r : regex) (rest : list ascii)
| PError
| POther.

Definition newline : ascii := "010"%char.

Definition is_alnum (c : ascii) : bool :=
  let n := nat_of_ascii c in
  ((48 <=? n) && (n <=? 57) || (65 <=? n) && (n <=? 90)
   || (97 <=? n) && (n <=? 122) || (n =? 95) || (128 <=? n))%nat.

Definition is_repeat (c : ascii) : bool :=
  Ascii.eqb c "*" || Ascii.eqb c "+" || Ascii.eqb c "?".

(** Characters that open syntax outside the fragment. *)
Definition is_unmodelled (c : ascii) : bool :=
  Ascii.eqb c "[" || Ascii.eqb c "]" || Ascii.eqb c "{" || Ascii.eqb c "}".

(** An optional repeat after atom [a]; a second repeat operator after a
    complete one is left outside the fragment. *)
Definition parse_repeat (a : regex) (is_anchor : bool) (s : list ascii)
  : parsed :=
  match s with
  | q :: s' =>
      if is_repeat q then
        if is_anchor then PError            (* nothing to repeat *)
        else
          let r := if Ascii.eqb q "*" then Star a
                   else if Ascii.eqb q "+" then Cat a (Star a)
                   else Alt a Eps in
          let s1 := match s' with
                    | l :: s2 => if Ascii.eqb l "?" then s2 else s'
                    | [] => s'
                    end in
          match s1 with
          | q2 :: _ => if is_repeat q2 then POther else POk r s1
          | [] => POk r s1
          end
      else POk a s
  | [] => POk a s
  end.

(** Recursive descent; [fuel] bounds the nesting of calls. *)
Fixpoint parse_alt (fuel : nat) (s : list ascii) : parsed :=
  match fuel with
  | O => POther
  | S fuel =>
      let parse_atom (s : list ascii) : parsed :=
        match s with
        | [] => POk Eps []
        | c :: s' =>
            if Ascii.eqb c "(" then
              match s' with
              | q :: _ =>
                  if Ascii.eqb q "?" then POther
                  else match parse_alt fuel s' with
                       | POk r (d :: s2) =>
                           if Ascii.eqb d ")" then parse_repeat r false s2
                           else PError
                       | POk _ [] => PError     (* missing ) *)
                       | e => e
                       end
              | [] => PError                    (* missing ) *)
              end
            else if is_repeat c then PError     (* nothing to repeat *)
            else if is_unmodelled c then POther
            else if Ascii.eqb c "\" then
              match s' with
              | e :: s2 => if is_alnum e then POther
                           else parse_repeat (Chr e) false s2
              | [] => PError                    (* bad escape *)
              end
            else if Ascii.eqb c "." then parse_repeat AnyChr false s'
            else if Ascii.eqb c "^" then parse_repeat Bol true s'
            else if Ascii.eqb c "$" then parse_repeat Eol true s'
            else parse_repeat (Chr c) false s'
        end in
      let fix parse_seq (n : nat) (s : list ascii) : parsed :=
        match n with
        | O => POther
        | S n =>
            match s with
            | [] => POk Eps []
            | c :: _ =>
                if Ascii.eqb c "|" || Ascii.eqb c ")" then POk Eps s
                else match parse_atom s with
                     | POk a s1 =>
                         match parse_seq n s1 with
                         | POk r s2 => POk (Cat a r) s2
                         | e => e
                         end
                     | e => e
                     end
            end
        end in
      match parse_seq (S (List.length s)) s with
      | POk r (c :: s1) =>
          if Ascii.eqb c "|" then
            match parse_alt fuel s1 with
            | POk r2 s2 => POk (Alt r r2) s2
            | e => e
            end
          else POk r (c :: s1)
      | e => e
      end
  end.

Definition is_ascii (s : list ascii) : bool :=
  forallb (fun c => (nat_of_ascii c <? 128)%nat) s.

(** Strings are byte strings here; patterns with bytes outside ASCII are
    left outside the fragment. *)
Definition compile (pattern : string) : compiled :=
  let s := String.list_ascii_of_string pattern in
  if negb (is_ascii s) then NotModelled
  else
    match parse_alt (S (List.length s)) s with
    | POk r [] => Compiled r
    | POk _ (_ :: _) => ReError             (* unbalanced parenthesis *)
    | PError => ReError
    | POther => NotModelled
    end.

(** Matching by derivatives.  [first] tells whether the position is the
    start of the subject, [rest] is the unread part of the subject. *)
Fixpoint nullable (first : bool) (rest : list ascii) (r : regex) : bool :=
  match r with
  | Void | Chr _ | AnyChr => false
  | Eps | Star _ => true
  | Bol => first
  | Eol => match rest with
           | [] => true
           | [c] => Ascii.eqb c newline
           | _ => false
           end
  | Alt r1 r2 => nullable first rest r1 || nullable first rest r2
  | Cat r1 r2 => nullable first rest r1 && nullable first rest r2
  end.

Fixpoint deriv (first : bool) (rest : list ascii) (c : ascii) (r : regex)
  : regex :=
  match r with
  | Void | Eps | Bol | Eol => Void
  | Chr d => if Ascii.eqb c d then Eps else Void
  | AnyChr => if Ascii.eqb c newline then Void else Eps
  | Alt r1 r2 => Alt (deriv first rest c r1) (deriv first rest c r2)
  | Cat r1 r2 =>
      if nullable first rest r1
      then Alt (Cat (deriv first rest c r1) r2) (deriv first rest c r2)
      else Cat (deriv first rest c r1) r2
  | Star r1 => Cat (deriv first rest c r1) (Star r1)
  end.

(** Does [r] match some prefix of the subject? *)
Fixpoint prefix_match (first : bool) (r : regex) (s : list ascii) : bool :=
  nullable first s r ||
  match s with
  | [] => false
  | c :: s' => prefix_match false (deriv first s c r) s'
  end.

(** [re.match(pattern, subject) is not None]; [None] when the pattern is
    rejected.  This engine also rejects what it does not model: patterns
    outside the fragment and subjects outside ASCII. *)
Definition re_match (pattern subject : string) : option bool :=
  let s := String.list_ascii_of_string subject in
  match compile pattern with
  | Compiled r => if is_ascii s then Some (prefix_match true r s) else None
  | ReError | NotModelled => None
  end.

End Re.

(** ** Literal rules

    A rule made of ordinary characters only, none of which [re] reads as
    syntax, is compiled to the sequence of its characters. The two local
    functions of [Re.parse_alt] are named here so that the parser can be
    followed on such rules. *)

Module ReLit.

(** An ordinary character of a pattern: ASCII, and none of
    [( ) | * + ? [ ] { } \ . ^ $]. *)
Definition is_plain (c : ascii) : bool :=
  (nat_of_ascii c <? 128)%nat
  && negb (Ascii.eqb c "(" || Ascii.eqb c ")" || Ascii.eqb c "|"
           || Re.is_repeat c || Re.is_unmodelled c || Ascii.eqb c "\"
           || Ascii.eqb c "." || Ascii.eqb c "^" || Ascii.eqb c "$").

Definition plain (rule : string) : bool :=
  forallb is_plain (String.list_ascii_of_string rule).

Definition ascii_only (s : string) : bool :=
  Re.is_ascii (String.list_ascii_of_string s).

(** The expression for a sequence of ordinary characters. *)
Fixpoint lit (s : list ascii) : Re.regex :=
  match s with
  | [] => Re.Eps
  | c :: s' => Re.Cat (Re.Chr c) (lit s')
  end.

(** [parse_atom] of [Re.parse_alt (S fuel)]. *)
Definition parse_atom (fuel : nat) (s : list ascii) : Re.parsed :=
  match s with
  | [] => Re.POk Re.Eps []
  | c :: s' =>
      if Ascii.eqb c "(" then
        match s' with
        | q :: _ =>
            if Ascii.eqb q "?" then Re.POther
            else match Re.parse_alt fuel s' with
                 | Re.POk r (d :: s2) =>
                     if Ascii.eqb d ")" then Re.parse_repeat r false s2
                     else Re.PError
                 | Re.POk _ [] => Re.PError
                 | e => e
                 end
        | [] => Re.PError
        end
      else if Re.is_repeat c then Re.PError
      else if Re.is_unmodelled c then Re.POther
      else if Ascii.eqb c "\" then
        match s' with
        | e :: s2 => if Re.is_alnum e then Re.POther
                     else Re.parse_repeat (Re.Chr e) false s2
        | [] => Re.PError
        end
      else if Ascii.eqb c "." then Re.parse_repeat Re.AnyChr false s'
      else if Ascii.eqb c "^" then Re.parse_repeat Re.Bol true s'
      else if Ascii.eqb c "$" then Re.parse_repeat Re.Eol true s'
      else Re.parse_repeat (Re.Chr c) false s'
  end.

(** [parse_seq] of [Re.parse_alt (S fuel)]. *)
Definition parse_seq (fuel : nat) : nat → list ascii → Re.parsed :=
  fix parse_seq (n : nat) (s : list ascii) : Re.parsed :=
    match n with
    | O => Re.POther
    | S n =>
        match s with
        | [] => Re.POk Re.Eps []
        | c :: _ =>
            if Ascii.eqb c "|" || Ascii.eqb c ")" then Re.POk Re.Eps s
            else match parse_atom fuel s with
                 | Re.POk a s1 =>
                     match parse_seq n s1 with
                     | Re.POk r s2 => Re.POk (Re.Cat a r) s2
                     | e => e
                     end
                 | e => e
                 end
        end
    end.

End ReLit.

(** ** Data model *)

(** References into the object store, and observer connections. *)
Abbreviation loc := nat (only parsing).
Abbreviation WebSocket := nat (only parsing).

(** Modelled from the spec: [CommitModel] (murdock/models.py is missing);
    the commit snapshot "{sha, message, author, ...}". *)
Record CommitModel : Type := {
  sha : string;
  message : string;
  author : string;
}.

(** Modelled from the spec: [PullRequestInfo] (murdock/models.py is
    missing); the fields are those murdock.py fills in. *)
Record PullRequestInfo : Type := {
  title : string;
  number : Z;
  merge_commit : option string;
  user : string;
  url : string;
  base_repo : string;
  base_branch : string;
  base_commit : string;
  base_full_name : string;
  mergeable : bool;
  labels : list string;
}.

(** Modelled from the spec: the per-commit build configuration
    (murdock/config.py is missing), as far as the dispatcher reads it:
    [config.commit.skip_keywords],
    [config.push.branches], [config.push.tags],
    [config.pr.enable_comments]. *)
Record MurdockSettings : Type := {
  commit_skip_keywords : list string;
  push_branches : list string;
  push_tags : list string;
  pr_enable_comments : bool;
}.

(** Modelled from the spec: [MurdockJob] (murdock/job.py is missing), with
    the attributes murdock.py reads or writes. The object is a plain
    Python object: [canceled] and [cancelled] are two attribute names,
    hence two attributes: [cancelled] does not exist ([None]) until something
    assigns it. [result] is [None] until the build sets it. Of the
    [status] dictionary only the ["status"] entry is kept. *)
Record MurdockJob : Type := {
  uid : string;
  commit : CommitModel;
  pr : option PullRequestInfo;
  ref : option string;
  config : MurdockSettings;
  fasttracked : bool;
  status : string;
  result : option string;
  canceled : bool;
  cancelled : option bool;
  start_time : Z;
  stop_time : Z;
}.

(** Modelled from the spec: [JobQueryModel] (murdock/models.py is
    missing). murdock.py only touches [limit]; the filter fields are kept
    as the predicate on finished jobs they denote. *)
Record JobQueryModel : Type := {
  limit : Z;
  selects : MurdockJob → bool;
}.

(** The status dictionary handed to [set_commit_status]. *)
Record CommitStatus : Type := {
  state : string;
  context : string;
  description : string;
  target_url : option string;
}.

(** Calls that leave the dispatcher. *)
Inductive Event : Type :=
| SetCommitStatus (commit_sha : string) (st : CommitStatus)
| CommentOnPr (job : loc)
| SendText (ws : WebSocket) (msg : string)
| WsClose (ws : WebSocket)
| DbClose
| JobExecute (job : loc)
| JobStop (job : loc)
| RemoveDir (path : string).

(** The [Murdock] instance, the object store and the database. *)
Record World : Type := {
  cancel_on_update : bool;
  clients : list WebSocket;
  num_workers : nat;
  queued : list loc;                 (* MurdockJobList *)
  running : list (option loc);       (* MurdockJobPool: one entry per slot *)
  queue : list loc;                  (* asyncio.Queue, head first *)
  fasttrack_queue : list loc;
  db : list MurdockJob;              (* finished jobs in the database *)
  heap : list MurdockJob;            (* job objects, by reference *)
  queries : list JobQueryModel;      (* query objects, by reference *)
  clock : Z;                         (* what time.time() reads *)
  trace : list Event;
}.

(** What the dispatcher takes from its surroundings: the two
    configuration objects, [re.match], and the adapters' answers. *)
Record Adapters : Type := {
  base_url : string;                            (* GLOBAL_CONFIG.base_url *)
  work_dir : string;                            (* GLOBAL_CONFIG.work_dir *)
  ready_label : option string;                  (* CI_CONFIG.ready_label *)
  (** [re.match(pattern, s) is not None]; [None]: raises [re.error] *)
  re_match : string → string → option bool;
  fetch_commit_info : string → option CommitModel;
  fetch_murdock_config : string → MurdockSettings;
  (** [ws.send_text(msg)]: [false] when the send raises *)
  send_text : WebSocket → string → bool;
  (** [job.execute(...)]: the job as the build leaves it, and [false]
      when the build raises *)
  execute : MurdockJob → MurdockJob * bool;
  (** what [MurdockJob.__init__] derives: uid and fast-track flag *)
  new_uid : nat → string;
  is_fasttracked : option PullRequestInfo → MurdockSettings → bool;
  runtime_human : MurdockJob → string;
}.

(** *** Field updates *)

Definition set_canceled (b : bool) (j : MurdockJob) : MurdockJob :=
  {| uid := uid j; commit := commit j; pr := pr j; ref := ref j;
     config := config j; fasttracked := fasttracked j; status := status j;
     result := result j; canceled := b; cancelled := cancelled j;
     start_time := start_time j; stop_time := stop_time j |}.

Definition set_cancelled (b : bool) (j : MurdockJob) : MurdockJob :=
  {| uid := uid j; commit := commit j; pr := pr j; ref := ref j;
     config := config j; fasttracked := fasttracked j; status := status j;
     result := result j; canceled := canceled j; cancelled := Some b;
     start_time := start_time j; stop_time := stop_time j |}.

Definition set_result (r : string) (j : MurdockJob) : MurdockJob :=
  {| uid := uid j; commit := commit j; pr := pr j; ref := ref j;
     config := config j; fasttracked := fasttracked j; status := status j;
     result := Some r; canceled := canceled j; cancelled := cancelled j;
     start_time := start_time j; stop_time := stop_time j |}.

Definition set_status (s : string) (j : MurdockJob) : MurdockJob :=
  {| uid := uid j; commit := commit j; pr := pr j; ref := ref j;
     config := config j; fasttracked := fasttracked j; status := s;
     result := result j; canceled := canceled j; cancelled := cancelled j;
     start_time := start_time j; stop_time := stop_time j |}.

Definition set_start_time (t : Z) (j : MurdockJob) : MurdockJob :=
  {| uid := uid j; commit := commit j; pr := pr j; ref := ref j;
     config := config j; fasttracked := fasttracked j; status := status j;
     result := result j; canceled := canceled j; cancelled := cancelled j;
     start_time := t; stop_time := stop_time j |}.

Definition set_stop_time (t : Z) (j : MurdockJob) : MurdockJob :=
  {| uid := uid j; commit := commit j; pr := pr j; ref := ref j;
     config := config j; fasttracked := fasttracked j; status := status j;
     result := result j; canceled := canceled j; cancelled := cancelled j;
     start_time := start_time j; stop_time := t |}.

Definition set_labels (ls : list string) (p : PullRequestInfo)
  : PullRequestInfo :=
  {| title := title p; number := number p; merge_commit := merge_commit p;
     user := user p; url := url p; base_repo := base_repo p;
     base_branch := base_branch p; base_commit := base_commit p;
     base_full_name := base_full_name p; mergeable := mergeable p;
     labels := ls |}.

Definition set_pr (p : option PullRequestInfo) (j : MurdockJob)
  : MurdockJob :=
  {| uid := uid j; commit := commit j; pr := p; ref := ref j;
     config := config j; fasttracked := fasttracked j; status := status j;
     result := result j; canceled := canceled j; cancelled := cancelled j;
     start_time := start_time j; stop_time := stop_time j |}.

Definition set_limit (n : Z) (q : JobQueryModel) : JobQueryModel :=
  {| limit := n; selects := selects q |}.

Definition set_queued (x : list loc) (w : World) : World :=
  {| cancel_on_update := cancel_on_update w; clients := clients w;
     num_workers := num_workers w; queued := x; running := running w;
     queue := queue w; fasttrack_queue := fasttrack_queue w; db := db w;
     heap := heap w; queries := queries w; clock := clock w;
     trace := trace w |}.

Definition set_running (x : list (option loc)) (w : World) : World :=
  {| cancel_on_update := cancel_on_update w; clients := clients w;
     num_workers := num_workers w; queued := queued w; running := x;
     queue := queue w; fasttrack_queue := fasttrack_queue w; db := db w;
     heap := heap w; queries := queries w; clock := clock w;
     trace := trace w |}.

Definition set_queue (x : list loc) (w : World) : World :=
  {| cancel_on_update := cancel_on_update w; clients := clients w;
     num_workers := num_workers w; queued := queued w; running := running w;
     queue := x; fasttrack_queue := fasttrack_queue w; db := db w;
     heap := heap w; queries := queries w; clock := clock w;
     trace := trace w |}.

Definition set_fasttrack_queue (x : list loc) (w : World) : World :=
  {| cancel_on_update := cancel_on_update w; clients := clients w;
     num_workers := num_workers w; queued := queued w; running := running w;
     queue := queue w; fasttrack_queue := x; db := db w;
     heap := heap w; queries := queries w; clock := clock w;
     trace := trace w |}.

Definition set_db (x : list MurdockJob) (w : World) : World :=
  {| cancel_on_update := cancel_on_update w; clients := clients w;
     num_workers := num_workers w; queued := queued w; running := running w;
     queue := queue w; fasttrack_queue := fasttrack_queue w; db := x;
     heap := heap w; queries := queries w; clock := clock w;
     trace := trace w |}.

Definition set_heap (x : list MurdockJob) (w : World) : World :=
  {| cancel_on_update := cancel_on_update w; clients := clients w;
     num_workers := num_workers w; queued := queued w; running := running w;
     queue := queue w; fasttrack_queue := fasttrack_queue w; db := db w;
     heap := x; queries := queries w; clock := clock w;
     trace := trace w |}.

Definition set_queries (x : list JobQueryModel) (w : World) : World :=
  {| cancel_on_update := cancel_on_update w; clients := clients w;
     num_workers := num_workers w; queued := queued w; running := running w;
     queue := queue w; fasttrack_queue := fasttrack_queue w; db := db w;
     heap := heap w; queries := x; clock := clock w;
     trace := trace w |}.

Definition set_trace (x : list Event) (w : World) : World :=
  {| cancel_on_update := cancel_on_update w; clients := clients w;
     num_workers := num_workers w; queued := queued w; running := running w;
     queue := queue w; fasttrack_queue := fasttrack_queue w; db := db w;
     heap := heap w; queries := queries w; clock := clock w;
     trace := x |}.

(** ** The coroutine monad: state and exceptions *)

Inductive Exn : Type :=
| ReErrorExn                          (* re.error *)
| ValueError
| KeyError
| SendFailed (ws : WebSocket)         (* raised by ws.send_text *)
| NoSuchObject.                       (* a reference outside the store *)

Inductive Res (A : Type) : Type :=
| Ok (a : A)
| Raise (e : Exn).
Arguments Ok {A} a.
Arguments Raise {A} e.

Definition M (A : Type) : Type := World → Res A * World.

Definition ret {A} (a : A) : M A := fun w => (Ok a, w).

Definition raise {A} (e : Exn) : M A := fun w => (Raise e, w).

Definition bind {A B} (m : M A) (k : A → M B) : M B :=
  fun w => match m w with
           | (Ok a, w') => k a w'
           | (Raise e, w') => (Raise e, w')
           end.

Notation "'let*' x ':=' m 'in' k" := (bind m (fun x => k))
  (at level 10, x name, m at level 100, k at level 200).
Notation "m '>>' k" := (bind m (fun _ => k))
  (at level 100, k at level 200, right associativity).

Definition gets {A} (f : World → A) : M A := fun w => (Ok (f w), w).
Definition modify (f : World → World) : M unit := fun w => (Ok tt, f w).

(** [for x in l: body(x)] *)
Fixpoint for_each {A} (l : list A) (body : A → M unit) : M unit :=
  match l with
  | [] => ret tt
  | x :: l' => body x >> for_each l' body
  end.

(** Resulting world and result of running a coroutine. *)
Definition exec {A} (m : M A) (w : World) : World := snd (m w).
Definition eval {A} (m : M A) (w : World) : Res A := fst (m w).

Definition emit (e : Event) : M unit :=
  modify (fun w => set_trace (trace w ++ [e]) w).

(** Reading and updating a job object through its reference. *)
Definition get_job (j : loc) : M MurdockJob :=
  fun w => match heap w !! j with
           | Some job => (Ok job, w)
           | None => (Raise NoSuchObject, w)
           end.

Definition update_job (j : loc) (f : MurdockJob → MurdockJob) : M unit :=
  let* job := get_job j in
  modify (fun w => set_heap (<[j := f job]> (heap w)) w).

Definition get_query (q : loc) : M JobQueryModel :=
  fun w => match queries w !! q with
           | Some query => (Ok query, w)
           | None => (Raise NoSuchObject, w)
           end.

Definition update_query (q : loc) (f : JobQueryModel → JobQueryModel)
  : M unit :=
  let* query := get_query q in
  modify (fun w => set_queries (<[q := f query]> (queries w)) w).

(** ** Job containers and database

    murdock/job_containers.py and murdock/database.py are not part of the
    sources at hand; the operations murdock.py calls on them follow the
    specification's data model. *)

Module MurdockJobList.

(** Modelled from the spec: [MurdockJobList.add] (job_containers.py is
    missing); "insert into WaitingSet", an ordered collection. *)
Definition add (job : loc) (jobs : list loc) : list loc := jobs ++ [job].

(** Modelled from the spec: [MurdockJobList.remove] (job_containers.py is
    missing); "remove from WaitingSet"; removing an absent job changes
    nothing. *)
Definition remove (job : loc) (jobs : list loc) : list loc :=
  List.filter (fun k => negb (Nat.eqb k job)) jobs.

(** Modelled from the spec: [search_by_pr_number] (job_containers.py is
    missing); "lookup by PR number": the jobs, in order, whose [pr] is set
    and carries that number. *)
Definition search_by_pr_number (store : list MurdockJob) (prnum : Z)
    (jobs : list loc) : list loc :=
  List.filter
    (fun k => match store !! k with
              | Some job => match pr job with
                            | Some p => Z.eqb (number p) prnum
                            | None => false
                            end
              | None => false
              end) jobs.

(** Modelled from the spec: [search_by_ref] (job_containers.py is
    missing); "lookup by ref": the jobs, in order, whose [ref] is set and
    equal to the given one. *)
Definition search_by_ref (store : list MurdockJob) (r : string)
    (jobs : list loc) : list loc :=
  List.filter
    (fun k => match store !! k with
              | Some job => match ref job with
                            | Some r' => String.eqb r' r
                            | None => false
                            end
              | None => false
              end) jobs.

End MurdockJobList.

Module MurdockJobPool.

(** Modelled from the spec: the jobs held by a [MurdockJobPool]
    (job_containers.py is missing): the occupied slots, in slot order. *)
Definition occupied (slots : list (option loc)) : list loc :=
  omap id slots.

(** Modelled from the spec: [MurdockJobPool.add] (job_containers.py is
    missing); "insert into RunningSet (occupy one slot)": the first free
    slot takes the job; the capacity never changes. *)
Fixpoint add (job : loc) (slots : list (option loc)) : list (option loc) :=
  match slots with
  | [] => []
  | None :: rest => Some job :: rest
  | Some k :: rest => Some k :: add job rest
  end.

(** Modelled from the spec: [MurdockJobPool.remove] (job_containers.py is
    missing); "remove from RunningSet": the slot of the job is freed. *)
Definition remove (job : loc) (slots : list (option loc))
  : list (option loc) :=
  map (fun s => match s with
                | Some k => if Nat.eqb k job then None else Some k
                | None => None
                end) slots.

(** Modelled from the spec: [search_by_pr_number] on the pool
    (job_containers.py is missing). *)
Definition search_by_pr_number (store : list MurdockJob) (prnum : Z)
    (slots : list (option loc)) : list loc :=
  MurdockJobList.search_by_pr_number store prnum (occupied slots).

(** Modelled from the spec: [search_by_ref] on the pool
    (job_containers.py is missing). *)
Definition search_by_ref (store : list MurdockJob) (r : string)
    (slots : list (option loc)) : list loc :=
  MurdockJobList.search_by_ref store r (occupied slots).

End MurdockJobPool.

Module Database.

(** Modelled from the spec: [Database.count_jobs] (database.py is
    missing); "countJobs(query) -> int": how many stored jobs the query
    selects. *)
Definition count_jobs (query : JobQueryModel) (jobs : list MurdockJob)
  : Z :=
  Z.of_nat (List.length (List.filter (selects query) jobs)).

(** Modelled from the spec: [Database.find_jobs] (database.py is
    missing); "findJobs(query) -> [Job]": the selected jobs, at most
    [limit] of them when [limit] is not negative. *)
Definition find_jobs (query : JobQueryModel) (jobs : list MurdockJob)
  : list MurdockJob :=
  let found := List.filter (selects query) jobs in
  if limit query <? 0 then found else take (Z.to_nat (limit query)) found.

(** Modelled from the spec: [Database.delete_jobs] (database.py is
    missing); "deleteJobs(query)": the selected jobs are dropped. *)
Definition delete_jobs (query : JobQueryModel) (jobs : list MurdockJob)
  : list MurdockJob :=
  List.filter (fun job => negb (selects query job)) jobs.

(** Modelled from the spec: [Database.insert_job] (database.py is
    missing); "insertJob(job)": the job, as it is now, is stored. *)
Definition insert_job (job : MurdockJob) (jobs : list MurdockJob)
  : list MurdockJob :=
  jobs ++ [job].

End Database.

(** ** The [Murdock] class *)

Definition ALLOWED_ACTIONS : list string :=
  ["labeled"; "unlabeled"; "synchronize"; "created";
   "closed"; "opened"; "reopened"].

Definition ZERO_SHA : string := "0000000000000000000000000000000000000000".

(** The payload of a pull-request event, as far as the handler reads it.
    [action] and [label] may be missing from the dictionary. *)
Record PullRequestData : Type := {
  pr_title : string;
  pr_number : Z;
  pr_merge_commit_sha : option string;
  pr_head_sha : string;
  pr_head_user_login : string;
  pr_html_href : string;
  pr_base_clone_url : string;
  pr_base_ref : string;
  pr_base_sha : string;
  pr_base_full_name : string;
  pr_mergeable : option bool;
  pr_labels : list string;
}.

Record PullRequestEvent : Type := {
  action : option string;
  pull_request : PullRequestData;
  label_name : option string;        (* event["label"]["name"] *)
}.

Record PushEvent : Type := {
  push_ref : string;                 (* event["ref"] *)
  after : string;                    (* event["after"] *)
}.

(** [result == s] for a result that may still be [None]. *)
Definition result_is (job : MurdockJob) (s : string) : bool :=
  match result job with
  | Some r => String.eqb r s
  | None => false
  end.

(** [str(x)] for an optional string. *)
Definition str_of_option (x : option string) : string :=
  match x with
  | Some s => s
  | None => "None"
  end.

(** [x in l] for an optional string and a list of strings. *)
Definition option_in (x : option string) (l : list string) : bool :=
  match x with
  | Some s => Py.str_in s l
  | None => false
  end.

(** [l.remove(x)] when [x] occurs in [l]: the first occurrence goes. *)
Fixpoint remove_first (x : string) (l : list string) : list string :=
  match l with
  | [] => []
  | y :: l' => if String.eqb y x then l' else y :: remove_first x l'
  end.

(** [os.path.join(a, b)] *)
Definition path_join (a b : string) : string :=
  match b with
  | String "/" _ => b
  | _ => if String.eqb a "" then b
         else match String.get (String.length a - 1) a with
              | Some "/"%char => a +:+ b
              | _ => a +:+ "/" +:+ b
              end
  end.

(** [json.dumps({"cmd": "reload"})] *)
Definition reload_message : string :=
  "{" +:+ Py.quoted "cmd" +:+ ": " +:+ Py.quoted "reload" +:+ "}".

Section Murdock.

Variable A : Adapters.

Definition set_commit_status (commit_sha : string) (st : CommitStatus)
  : M unit :=
  emit (SetCommitStatus commit_sha st).

(** Modelled from the spec: [MurdockJob.__init__] (murdock/job.py is
    missing), called as [MurdockJob(commit, pr=..., ref=..., config=...)]:
    a new object in the store, queued, its result unset, not canceled; the
    uid and the fast-track flag are the adapters'. *)
Definition new_job (c : CommitModel) (p : option PullRequestInfo)
    (r : option string) (cfg : MurdockSettings) : M loc :=
  fun w =>
    let l := List.length (heap w) in
    (Ok l,
     set_heap (heap w ++
       [{| uid := new_uid A l; commit := c; pr := p; ref := r;
           config := cfg; fasttracked := is_fasttracked A p cfg;
           status := "queued"; result := None; canceled := false;
           cancelled := None; start_time := 0; stop_time := 0 |}]) w).

(** [asyncio.gather] over [client.send_text(msg)] for every client:
    every send is started; the first failure (here: in list order) is
    raised to the caller, the other sends are not cancelled. *)
Definition notify_message_to_clients (msg : string) : M unit :=
  let* cs := gets clients in
  for_each cs (fun client => emit (SendText client msg)) >>
  match List.find (fun client => negb (send_text A client msg)) cs with
  | Some client => raise (SendFailed client)
  | None => ret tt
  end.

Definition reload_jobs : M unit :=
  notify_message_to_clients reload_message.

(** [ws.close()] is called without [await] in the source. *)
Definition shutdown : M unit :=
  emit DbClose >>
  let* cs := gets clients in
  for_each cs (fun ws => emit (WsClose ws)) >>
  let* qs := gets queued in
  for_each qs (fun job => update_job job (set_cancelled true)) >>
  let* rs := gets running in
  for_each rs (fun slot => match slot with
                           | Some job => emit (JobStop job)
                           | None => ret tt
                           end).

Definition job_prepare (job : loc) : M unit :=
  modify (fun w => set_queued (MurdockJobList.remove job (queued w)) w) >>
  modify (fun w => set_running (MurdockJobPool.add job (running w)) w) >>
  let* now := gets clock in
  update_job job (set_start_time now) >>
  let* j := get_job job in
  set_commit_status (sha (commit j))
    {| state := "pending"; context := "Murdock";
       description := "The build has started";
       target_url := Some (base_url A) |} >>
  reload_jobs.

Definition job_finalize (job : loc) : M unit :=
  let* now := gets clock in
  update_job job (set_stop_time now) >>
  let* j := get_job job in
  (if String.eqb (status j) "working"
   then update_job job (set_status "finished") else ret tt) >>
  modify (fun w => set_running (MurdockJobPool.remove job (running w)) w) >>
  let* j := get_job job in
  (if negb (result_is j "stopped") then
     let job_state := if result_is j "passed" then "success"
                      else "failure" in
     let job_status_desc := if result_is j "passed" then "succeeded"
                            else "failed" in
     set_commit_status (sha (commit j))
       {| state := job_state; context := "Murdock";
          description := "The build " +:+ job_status_desc +:+ ". "
                         +:+ "runtime: " +:+ runtime_human A j;
          target_url := None |} >>
     (if bool_decide (pr j ≠ None) && pr_enable_comments (config j)
      then emit (CommentOnPr job) else ret tt) >>
     modify (fun w => set_db (Database.insert_job j (db w)) w)
   else ret tt) >>
  reload_jobs.

(** The progress messages the build sends through [notify] while it runs
    are part of [execute] and are not traced. *)
Definition _process_job (job : loc) : M unit :=
  let* j := get_job job in
  if canceled j then ret tt
  else
    job_prepare job >>
    let* j := get_job job in
    emit (JobExecute job) >>
    update_job job (fun _ => fst (execute A j)) >>
    (if snd (execute A j) then ret tt
     else update_job job (set_result "errored")) >>
    job_finalize job.

Definition add_job_to_queue (job : loc) : M unit :=
  let* slots := gets running in
  let all_busy := forallb (fun s => bool_decide (s ≠ None)) slots in
  modify (fun w => set_queued (MurdockJobList.add job (queued w)) w) >>
  let* j := get_job job in
  (if all_busy && fasttracked j
   then modify (fun w => set_fasttrack_queue (fasttrack_queue w ++ [job]) w)
   else modify (fun w => set_queue (queue w ++ [job]) w)) >>
  set_commit_status (sha (commit j))
    {| state := "pending"; context := "Murdock";
       description := "The build has been queued";
       target_url := Some (base_url A) |} >>
  reload_jobs.

Definition cancel_queued_job (reload : bool) (job : loc) : M unit :=
  update_job job (set_canceled true) >>
  modify (fun w => set_queued (MurdockJobList.remove job (queued w)) w) >>
  let* j := get_job job in
  set_commit_status (sha (commit j))
    {| state := "pending"; context := "Murdock";
       description := "Canceled";
       target_url := Some (base_url A) |} >>
  if reload then reload_jobs else ret tt.

Definition cancel_queued_jobs_matching (job : loc) : M (list loc) :=
  let* j := get_job job in
  let* by_pr := gets (fun w =>
    match pr j with
    | Some p => MurdockJobList.search_by_pr_number (heap w) (number p)
                  (queued w)
    | None => []
    end) in
  let* by_ref := gets (fun w =>
    match ref j with
    | Some r => MurdockJobList.search_by_ref (heap w) r (queued w)
    | None => []
    end) in
  let jobs_to_cancel := (by_pr ++ by_ref)%list in
  for_each jobs_to_cancel (cancel_queued_job false) >>
  ret jobs_to_cancel.

Definition stop_running_job (reload : bool) (job : loc) : M loc :=
  emit (JobStop job) >>
  let* j := get_job job in
  set_commit_status (sha (commit j))
    {| state := "pending"; context := "Murdock";
       description := "Stopped";
       target_url := Some (base_url A) |} >>
  (if reload then reload_jobs else ret tt) >>
  ret job.

Definition stop_running_jobs_matching (job : loc) : M (list loc) :=
  let* j := get_job job in
  let* by_pr := gets (fun w =>
    match pr j with
    | Some p => MurdockJobPool.search_by_pr_number (heap w) (number p)
                  (running w)
    | None => []
    end) in
  let* by_ref := gets (fun w =>
    match ref j with
    | Some r => MurdockJobPool.search_by_ref (heap w) r (running w)
    | None => []
    end) in
  let jobs_to_stop := (by_pr ++ by_ref)%list in
  for_each jobs_to_stop (fun k => stop_running_job false k >> ret tt) >>
  ret jobs_to_stop.

Definition disable_jobs_matching (job : loc) : M (list loc) :=
  let* canceled_jobs := cancel_queued_jobs_matching job in
  let* stopped_jobs := stop_running_jobs_matching job in
  let disabled_jobs := (canceled_jobs ++ stopped_jobs)%list in
  (match disabled_jobs with
   | [] => ret tt
   | _ :: _ => reload_jobs
   end) >>
  ret disabled_jobs.

Definition schedule_job (job : loc) : M loc :=
  let* cancel := gets cancel_on_update in
  (if cancel then disable_jobs_matching job >> ret tt else ret tt) >>
  add_job_to_queue job >>
  ret job.

(** [any(line and re.match(pattern, line) for line in lines)] *)
Fixpoint any_line_matches (pattern : string) (lines : list string)
  : M bool :=
  match lines with
  | [] => ret false
  | line :: rest =>
      if String.eqb line "" then any_line_matches pattern rest
      else match re_match A pattern line with
           | None => raise ReErrorExn
           | Some true => ret true
           | Some false => any_line_matches pattern rest
           end
  end.

Definition handle_skip_job (job : loc) : M bool :=
  let* j := get_job job in
  let pattern :=
    "^(" +:+ Py.join "|" (commit_skip_keywords (config j)) +:+ ")$" in
  let* skip := any_line_matches pattern
                 (Py.split Re.newline (message (commit j))) in
  if skip then
    set_commit_status (sha (commit j))
      {| state := "pending"; context := "Murdock";
         description := "The build was skipped.";
         target_url := None |} >>
    ret true
  else ret false.

(** [any(re.match(expr, ref) is not None for expr in rules)] *)
Fixpoint any_rule_matches (r : string) (rules : list string) : Res bool :=
  match rules with
  | [] => Ok false
  | expr :: rest =>
      match re_match A expr r with
      | None => Raise ReErrorExn
      | Some true => Ok true
      | Some false => any_rule_matches r rest
      end
  end.

Definition handle_ref (r : string) (rules : list string) : Res bool :=
  if Py.str_in "*" rules || Py.str_in r rules then Ok true
  else any_rule_matches r rules.

Definition lift {X} (x : Res X) : M X := fun w => (x, w).

(** The tail of [handle_pull_request_event], from the test of the action
    against ["labeled"] on. *)
Definition pull_request_policy (act : string) (event : PullRequestEvent)
    (pull_request : PullRequestInfo) (job : loc) : M (option string) :=
  let not_ready := negb (option_in (ready_label A) (labels pull_request)) in
  let go_on : M (option string) :=
    if not_ready then
      disable_jobs_matching job >>
      let* j := get_job job in
      set_commit_status (sha (commit j))
        {| state := "pending"; context := "Murdock";
           description := Py.quoted (str_of_option (ready_label A))
                          +:+ " label not set";
           target_url := Some (base_url A) |} >>
      ret None
    else
      (if String.eqb act "unlabeled" then
         let* found := gets (fun w =>
           MurdockJobList.search_by_pr_number (heap w) (number pull_request)
             (queued w)) in
         for_each found (fun queued_job =>
           match label_name event with
           | None => raise KeyError
           | Some label =>
               let* qj := get_job queued_job in
               match pr qj with
               | Some p =>
                   if Py.str_in label (labels p)
                   then update_job queued_job
                          (set_pr (Some (set_labels
                                           (remove_first label (labels p)) p)))
                   else raise ValueError
               | None => ret tt
               end
           end)
       else ret tt) >>
      schedule_job job >>
      ret None in
  if String.eqb act "labeled" then
    match label_name event with
    | None => raise KeyError
    | Some label =>
        if bool_decide (ready_label A ≠ None) && not_ready then ret None
        else if negb (bool_decide (Some label = ready_label A)) then
          let* found := gets (fun w =>
            MurdockJobList.search_by_pr_number (heap w)
              (number pull_request) (queued w)) in
          for_each found (fun queued_job =>
            let* qj := get_job queued_job in
            match pr qj with
            | Some p => update_job queued_job
                          (set_pr (Some (set_labels (labels p ++ [label]) p)))
            | None => ret tt
            end) >>
          ret None
        else go_on
    end
  else go_on.

Definition handle_pull_request_event (event : PullRequestEvent)
  : M (option string) :=
  match action event with
  | None => ret (Some "Unsupported event")
  | Some act =>
      if negb (Py.str_in act ALLOWED_ACTIONS)
      then ret (Some ("Unsupported action '" +:+ act +:+ "'"))
      else
        let pr_data := pull_request event in
        match fetch_commit_info A (pr_head_sha pr_data) with
        | None => ret None
        | Some c =>
            let cfg := fetch_murdock_config A (sha c) in
            let pull_request :=
              {| title := pr_title pr_data;
                 number := pr_number pr_data;
                 merge_commit := pr_merge_commit_sha pr_data;
                 user := pr_head_user_login pr_data;
                 url := pr_html_href pr_data;
                 base_repo := pr_base_clone_url pr_data;
                 base_branch := pr_base_ref pr_data;
                 base_commit := pr_base_sha pr_data;
                 base_full_name := pr_base_full_name pr_data;
                 mergeable := match pr_mergeable pr_data with
                              | Some false => false
                              | _ => true
                              end;
                 labels := Py.sorted (pr_labels pr_data) |} in
            let* job := new_job c (Some pull_request) None cfg in
            if String.eqb act "closed" then
              disable_jobs_matching job >> ret None
            else
              let* skip := handle_skip_job job in
              if skip then ret None
              else pull_request_policy act event pull_request job
        end
  end.

Definition handle_push_event (event : PushEvent) : M unit :=
  let r := push_ref event in
  match Py.last_two (Py.split "/" r) with
  | [ref_type; ref_name] =>
      if String.eqb (after event) ZERO_SHA then
        let* found := gets (fun w =>
          MurdockJobPool.search_by_ref (heap w) r (running w)) in
        for_each found (cancel_queued_job true) >>
        let* found := gets (fun w =>
          MurdockJobList.search_by_ref (heap w) r (queued w)) in
        for_each found (fun job => stop_running_job true job >> ret tt)
      else
        match fetch_commit_info A (after event) with
        | None => ret tt
        | Some c =>
            let cfg := fetch_murdock_config A (sha c) in
            let* refused_head :=
              if String.eqb ref_type "heads"
              then let* ok := lift (handle_ref ref_name (push_branches cfg)) in
                   ret (negb ok)
              else ret false in
            let* refused :=
              if refused_head then ret true
              else if String.eqb ref_type "tags"
              then let* ok := lift (handle_ref ref_name (push_tags cfg)) in
                   ret (negb ok)
              else ret false in
            if refused then ret tt
            else
              let* job := new_job c None (Some r) cfg in
              let* skip := handle_skip_job job in
              if skip then ret tt
              else schedule_job job >> ret tt
        end
  | _ => raise ValueError             (* not enough values to unpack *)
  end.

Definition remove_finished_jobs (query : loc) : M (list MurdockJob) :=
  (* jobs_before and jobs_removed only feed the log line *)
  update_query query (set_limit (-1)) >>
  let* q := get_query query in
  let* jobs_count := gets (fun w => Database.count_jobs q (db w)) in
  update_query query (set_limit jobs_count) >>
  let* q := get_query query in
  let* jobs_to_remove := gets (fun w => Database.find_jobs q (db w)) in
  for_each jobs_to_remove
    (fun job => emit (RemoveDir (path_join (work_dir A) (uid job)))) >>
  modify (fun w => set_db (Database.delete_jobs q (db w)) w) >>
  reload_jobs >>
  ret jobs_to_remove.

End Murdock.

(** ** Predicates used in the statements *)

(** Every one of the [num_workers] slots of the pool holds a job. *)
Definition all_slots_occupied (w : World) : Prop :=
  ∀ i : nat, (i < num_workers w)%nat → ∃ k, running w !! i = Some (Some k).

(** The job as [job_finalize] leaves it: stop time set, and the status
    moved from working to finished. *)
Definition finalized (now : Z) (j : MurdockJob) : MurdockJob :=
  let j1 := set_stop_time now j in
  if String.eqb (status j1) "working" then set_status "finished" j1 else j1.

(** The final commit status [job_finalize] posts for a job. *)
Definition final_status (A : Adapters) (j : MurdockJob) : Event :=
  SetCommitStatus (sha (commit j))
    {| state := if result_is j "passed" then "success" else "failure";
       context := "Murdock";
       description := "The build "
                      +:+ (if result_is j "passed" then "succeeded"
                           else "failed")
                      +:+ ". " +:+ "runtime: " +:+ runtime_human A j;
       target_url := None |}.

Definition is_commit_status (e : Event) : bool :=
  match e with
  | SetCommitStatus _ _ => true
  | _ => false
  end.

(** The broadcast of [msg] to the clients of [w], as it shows in the
    trace. *)
Definition sends (msg : string) (w : World) : list Event :=
  map (fun client => SendText client msg) (clients w).

(** The outcome of a broadcast: the first client whose send fails, if
    any, decides. *)
Definition notify_outcome (A : Adapters) (msg : string)
    (cs : list WebSocket) : Res unit :=
  match List.find (fun client => negb (send_text A client msg)) cs with
  | Some client => Raise (SendFailed client)
  | None => Ok tt
  end.

(** The pending status with the given description and the base URL. *)
Definition pending_status (A : Adapters) (desc : string) : CommitStatus :=
  {| state := "pending"; context := "Murdock"; description := desc;
     target_url := Some (base_url A) |}.

(** What stopping job [k] adds to the trace. *)
Definition stop_events (A : Adapters) (store : list MurdockJob) (k : loc)
  : list Event :=
  match store !! k with
  | Some j => [JobStop k;
               SetCommitStatus (sha (commit j)) (pending_status A "Stopped")]
  | None => [JobStop k]
  end.

(** What a job was built for: the pull request or the ref the searches
    look at. *)
Definition trigger (j : MurdockJob)
  : option PullRequestInfo * option string :=
  (pr j, ref j).

(** The waiting jobs [cancel_queued_jobs_matching] collects for [j]. *)
Definition queued_matches (j : MurdockJob) (w : World) : list loc :=
  ((match pr j with
    | Some p => MurdockJobList.search_by_pr_number (heap w) (number p)
                  (queued w)
    | None => []
    end) ++
   (match ref j with
    | Some r => MurdockJobList.search_by_ref (heap w) r (queued w)
    | None => []
    end))%list.

(** The running jobs [stop_running_jobs_matching] collects for [j]. *)
Definition running_matches (j : MurdockJob) (w : World) : list loc :=
  ((match pr j with
    | Some p => MurdockJobPool.search_by_pr_number (heap w) (number p)
                  (running w)
    | None => []
    end) ++
   (match ref j with
    | Some r => MurdockJobPool.search_by_ref (heap w) r (running w)
    | None => []
    end))%list.

(** The status [handle_skip_job] posts. *)
Definition skipped_status : CommitStatus :=
  {| state := "pending"; context := "Murdock";
     description := "The build was skipped."; target_url := None |}.

(** The status posted when the ready label is missing. *)
Definition label_not_set_status (A : Adapters) : CommitStatus :=
  pending_status A
    (Py.quoted (str_of_option (ready_label A)) +:+ " label not set").

(** ** Concrete runs *)

Module Scenario.

Definition topic : string := "refs/heads/topic".

Definition settings : MurdockSettings :=
  {| commit_skip_keywords := ["ci: skip"; "ci: ignore"];
     push_branches := ["*-rc"; "dev"];
     push_tags := ["v.*"];
     pr_enable_comments := true |}.

Definition commit_of (s : string) : CommitModel :=
  {| sha := s; message := "Fix the build"; author := "alice" |}.

(** Client 2 has gone away: sending to it fails. Builds pass. *)
Definition adapters : Adapters :=
  {| base_url := "https://ci.example.org";
     work_dir := "/var/lib/murdock";
     ready_label := Some "CI: ready for build";
     re_match := Re.re_match;
     fetch_commit_info := fun s => Some (commit_of s);
     fetch_murdock_config := fun _ => settings;
     send_text := fun ws _ => negb (Nat.eqb ws 2);
     execute := fun j => (set_result "passed" (set_status "working" j), true);
     new_uid := fun n => "job";
     is_fasttracked := fun _ _ => false;
     runtime_human := fun _ => "1s" |}.

Definition pr7 : PullRequestInfo :=
  {| title := "Add a driver"; number := 7; merge_commit := None;
     user := "bob"; url := "https://example.org/pull/7";
     base_repo := "https://example.org/repo.git"; base_branch := "master";
     base_commit := "000a"; base_full_name := "org/repo";
     mergeable := true; labels := ["bug"] |}.

Definition job_on_ref (s r : string) : MurdockJob :=
  {| uid := s; commit := commit_of s; pr := None; ref := Some r;
     config := settings; fasttracked := false; status := "queued";
     result := None; canceled := false; cancelled := None;
     start_time := 0; stop_time := 0 |}.

Definition job_on_pr (s : string) : MurdockJob :=
  {| uid := s; commit := commit_of s; pr := Some pr7; ref := None;
     config := settings; fasttracked := false; status := "queued";
     result := None; canceled := false; cancelled := None;
     start_time := 0; stop_time := 0 |}.

Definition passed_only : JobQueryModel :=
  {| limit := 5; selects := fun j => result_is j "passed" |}.

(** Two workers, both busy. Jobs 0 and 2 wait, jobs 1 and 3 run; jobs 0
    and 1 are on the topic branch, jobs 2, 3 and 4 on pull request 7;
    job 4 is a candidate not yet scheduled. *)
Definition world : World :=
  {| cancel_on_update := true;
     clients := [1%nat];
     num_workers := 2;
     queued := [0%nat; 2%nat];
     running := [Some 1%nat; Some 3%nat];
     queue := [0%nat; 2%nat];
     fasttrack_queue := [];
     db := [set_result "passed" (job_on_ref "f01" topic);
            set_result "errored" (job_on_ref "f02" topic);
            set_result "passed" (job_on_pr "f03")];
     heap := [job_on_ref "aaa" topic; job_on_ref "bbb" topic;
              job_on_pr "ccc"; job_on_pr "ddd"; job_on_pr "eee"];
     queries := [passed_only];
     clock := 100;
     trace := [] |}.

(** The same with a second observer, the one that has gone away. *)
Definition world_lossy : World :=
  {| cancel_on_update := true;
     clients := [1%nat; 2%nat; 3%nat];
     num_workers := 2;
     queued := [0%nat; 2%nat];
     running := [Some 1%nat; Some 3%nat];
     queue := [0%nat; 2%nat];
     fasttrack_queue := [];
     db := db world;
     heap := heap world;
     queries := [passed_only];
     clock := 100;
     trace := [] |}.

(** One worker is idle: job 1 runs, jobs 0 and 2 have just been queued. *)
Definition world_idle : World :=
  {| cancel_on_update := true;
     clients := [1%nat];
     num_workers := 2;
     queued := [0%nat; 2%nat];
     running := [Some 1%nat; None];
     queue := [0%nat; 2%nat];
     fasttrack_queue := [];
     db := [];
     heap := [job_on_ref "aaa" topic; job_on_ref "bbb" topic;
              job_on_pr "ccc"];
     queries := [];
     clock := 100;
     trace := [] |}.

(** The topic branch was deleted upstream. *)
Definition topic_deleted : PushEvent :=
  {| push_ref := topic; after := ZERO_SHA |}.

(** Pull request 7 got the label "bug"; it does not carry the ready
    label. *)
Definition labeled_bug : PullRequestEvent :=
  {| action := Some "labeled";
     pull_request :=
       {| pr_title := "Add a driver"; pr_number := 7;
          pr_merge_commit_sha := None; pr_head_sha := "eee";
          pr_head_user_login := "bob";
          pr_html_href := "https://example.org/pull/7";
          pr_base_clone_url := "https://example.org/repo.git";
          pr_base_ref := "master"; pr_base_sha := "000a";
          pr_base_full_name := "org/repo"; pr_mergeable := Some true;
          pr_labels := ["bug"] |};
     label_name := Some "bug" |}.

End Scenario.

(** ** The rest of the class

    The observer registry, [restart_job], the worker loop and the listing
    of the waiting jobs. *)

Definition set_clients (x : list WebSocket) (w : World) : World :=
  {| cancel_on_update := cancel_on_update w; clients := x;
     num_workers := num_workers w; queued := queued w; running := running w;
     queue := queue w; fasttrack_queue := fasttrack_queue w; db := db w;
     heap := heap w; queries := queries w; clock := clock w;
     trace := trace w |}.

(** [l.remove(ws)] when [ws] occurs in [l]: the first occurrence goes. *)
Fixpoint remove_first_ws (ws : WebSocket) (l : list WebSocket)
  : list WebSocket :=
  match l with
  | [] => []
  | x :: l' => if Nat.eqb x ws then l' else x :: remove_first_ws ws l'
  end.

(** [ws in l] *)
Definition ws_in (ws : WebSocket) (l : list WebSocket) : bool :=
  existsb (Nat.eqb ws) l.

Definition add_ws_client (ws : WebSocket) : M unit :=
  modify (fun w => if negb (ws_in ws (clients w))
                   then set_clients (clients w ++ [ws]) w
                   else w).

Definition remove_ws_client (ws : WebSocket) : M unit :=
  modify (fun w => if ws_in ws (clients w)
                   then set_clients (remove_first_ws ws (clients w)) w
                   else w).

(** Modelled from the spec: [Database.find_job] (database.py is missing);
    "findJob(uid) -> Job|null": the first stored job with that uid. *)
Definition find_job (uid0 : string) (jobs : list MurdockJob)
  : option MurdockJob :=
  List.find (fun job => String.eqb (uid job) uid0) jobs.

(** [sorted(l, key=...)] for a boolean key ([False] before [True]); stable
    insertion sort. *)
Fixpoint insert_by_key {X} (key : X → bool) (x : X) (l : list X) : list X :=
  match l with
  | [] => [x]
  | y :: l' => if implb (key x) (key y) then x :: l
               else y :: insert_by_key key x l'
  end.

Definition sorted_by_key {X} (key : X → bool) (l : list X) : list X :=
  foldr (insert_by_key key) [] l.

(** How one turn of the worker loop ends: a job was taken and processed,
    the worker is suspended in [queue.get()] on an empty queue, or the
    loop was left through [break]. *)
Inductive LoopStep : Type :=
| Processed
| Waiting
| Exited.

Section MurdockRest.

Variable A : Adapters.

(** Which exceptions are instances of [RuntimeError]. *)
Variable runtime_error : Exn → bool.

Definition restart_job (uid0 : string) : M (option loc) :=
  let* found := gets (fun w => find_job uid0 (db w)) in
  match found with
  | None => ret None
  | Some job =>
      let cfg := fetch_murdock_config A (sha (commit job)) in
      let* new_one := new_job A (commit job) (pr job) (ref job) cfg in
      schedule_job A new_one >>
      ret (Some new_one)
  end.

(** One turn of the [while True] loop of [job_processing_task]. The
    fast-track branch has no handler; in the other branch a
    [RuntimeError], from [queue.get()] or from [_process_job], leaves the
    loop. [task_done()] only counts and is not modelled. *)
Definition job_processing_step : M LoopStep :=
  fun w =>
    match fasttrack_queue w with
    | job :: rest =>
        match _process_job A job (set_fasttrack_queue rest w) with
        | (Ok _, w') => (Ok Processed, w')
        | (Raise e, w') => (Raise e, w')
        end
    | [] =>
        match queue w with
        | job :: rest =>
            match _process_job A job (set_queue rest w) with
            | (Ok _, w') => (Ok Processed, w')
            | (Raise e, w') =>
                if runtime_error e then (Ok Exited, w') else (Raise e, w')
            end
        | [] => (Ok Waiting, w)
        end
    end.

(** The loop, for at most [turns] turns: it stops when the worker is
    suspended or has left the loop. *)
Fixpoint job_processing_task (turns : nat) : M LoopStep :=
  match turns with
  | O => ret Processed
  | S turns =>
      let* step := job_processing_step in
      match step with
      | Processed => job_processing_task turns
      | Waiting => ret Waiting
      | Exited => ret Exited
      end
  end.

End MurdockRest.

Section Listing.

(** [JobModel], [MurdockJob.queued_model] and
    [MurdockJobList.search_with_query] are missing with models.py, job.py
    and job_containers.py: they are taken as they come. *)
Variable JobModel : Type.
Variable queued_model : MurdockJob → JobModel.
Variable model_fasttracked : JobModel → bool.
Variable search_with_query :
  JobQueryModel → list MurdockJob → list loc → list loc.

Definition get_queued_jobs (query : JobQueryModel) (w : World)
  : list JobModel :=
  sorted_by_key model_fasttracked
    (omap (fun k => queued_model <$> heap w !! k)
          (search_with_query query (heap w) (queued w))).

End Listing.

(** ** Frames

    [preserves R m]: whatever [m] does and however it ends, the world
    after is related by [R] to the world before. *)

Definition preserves {X} (R : World → World → Prop) (m : M X) : Prop :=
  ∀ w, R w (exec m w).

(** The worlds agree on a component. *)
Definition keeps {B} (proj : World → B) : World → World → Prop :=
  fun w w' => proj w' = proj w.

(** No job has entered the waiting list. *)
Definition no_new_waiting : World → World → Prop :=
  fun w w' => ∀ k, In k (queued w') → In k (queued w).

(** The builds started in a trace, in order. *)
Definition executed (t : list Event) : list loc :=
  omap (fun e => match e with
                 | JobExecute k => Some k
                 | _ => None
                 end) t.

(** Every observer takes the reload message. *)
Definition observers_ok (A : Adapters) (w : World) : Prop :=
  ∀ c, c ∈ clients w → send_text A c reload_message = true.

(** ** More concrete runs *)

Module Cases.

Definition settings : MurdockSettings :=
  {| commit_skip_keywords := ["ci: skip"];
     push_branches := ["dev"; "release/.*"];
     push_tags := [];
     pr_enable_comments := false |}.

(** No ready label is configured, every observer is reachable, the commit
    "gone" cannot be fetched, and builds raise. *)
Definition adapters : Adapters :=
  {| base_url := "https://ci.example.org";
     work_dir := "/var/lib/murdock";
     ready_label := None;
     re_match := Re.re_match;
     fetch_commit_info := fun s =>
       if String.eqb s "gone" then None
       else Some {| sha := s; message := "Fix the build"; author := "alice" |};
     fetch_murdock_config := fun _ => settings;
     send_text := fun _ _ => true;
     execute := fun j => (set_status "working" j, false);
     new_uid := fun n => "job";
     is_fasttracked := fun _ _ => false;
     runtime_human := fun _ => "1s" |}.

(** As [Scenario.adapters], with the ready label on, but every observer
    reachable. *)
Definition steady : Adapters :=
  {| base_url := "https://ci.example.org";
     work_dir := "/var/lib/murdock";
     ready_label := Some "CI: ready for build";
     re_match := Re.re_match;
     fetch_commit_info := fun s => Some (Scenario.commit_of s);
     fetch_murdock_config := fun _ => settings;
     send_text := fun _ _ => true;
     execute := fun j => (set_result "passed" (set_status "working" j), true);
     new_uid := fun n => "job";
     is_fasttracked := fun _ _ => false;
     runtime_human := fun _ => "1s" |}.

(** As [steady], but every commit asks to be skipped: its message ends,
    after a blank line, with the line "ci: skip". *)
Definition skipping : Adapters :=
  {| base_url := "https://ci.example.org";
     work_dir := "/var/lib/murdock";
     ready_label := Some "CI: ready for build";
     re_match := Re.re_match;
     fetch_commit_info := fun s =>
       Some {| sha := s;
               message := "Fix the build"
                          +:+ String Re.newline (String Re.newline "ci: skip");
               author := "alice" |};
     fetch_murdock_config := fun _ => settings;
     send_text := fun _ _ => true;
     execute := fun j => (set_result "passed" (set_status "working" j), true);
     new_uid := fun n => "job";
     is_fasttracked := fun _ _ => false;
     runtime_human := fun _ => "1s" |}.

End Cases.

(** The job behind a reference is there and not canceled. *)
Definition runnable (store : list MurdockJob) (k : loc) : bool :=
  match store !! k with
  | Some j => negb (canceled j)
  | None => false
  end.


(** Job [k], once canceled, stays canceled, and no build of it is
    started. *)
Definition stays_canceled (k : loc) : World → World → Prop :=
  fun w w' =>
    (∃ jk, heap w !! k = Some jk ∧ canceled jk = true) →
    (∃ jk', heap w' !! k = Some jk' ∧ canceled jk' = true)
    ∧ (∃ t, trace w' = (trace w ++ t)%list ∧ ¬ In (JobExecute k) t).

(** No line of the commit message is one of the skip keywords of the
    configuration: [re.match] fails on every non-empty line. *)
Definition no_skip_line (A : Adapters) (c : CommitModel)
    (cfg : MurdockSettings) : Prop :=
  ∀ line, In line (Py.split Re.newline (message c)) → line ≠ "" →
    re_match A ("^(" +:+ Py.join "|" (commit_skip_keywords cfg) +:+ ")$")
      line = Some false.

(** The finished jobs, the running pool, the observers and the settings
    of the instance are as they were. *)
Definition untouched (w w' : World) : Prop :=
  db w' = db w ∧ running w' = running w ∧ clients w' = clients w
  ∧ num_workers w' = num_workers w
  ∧ cancel_on_update w' = cancel_on_update w.

(** The coroutine never returns a message. *)
Definition silent {X} (m : M (option X)) : Prop :=
  ∀ w x, eval m w ≠ Ok (Some x).

(** [job.pr.labels.append(label)] on a job object. *)
Definition add_label (label : string) (j : MurdockJob) : MurdockJob :=
  match pr j with
  | Some p => set_pr (Some (set_labels (labels p ++ [label]) p)) j
  | None => j
  end.

(** The pull request a job object was built for carries the label. *)
Definition carries (label : string) (j : MurdockJob) : bool :=
  match pr j with
  | Some p => Py.str_in label (labels p)
  | None => false
  end.

(** The [PullRequestInfo] the handler builds from the payload. *)
Definition info_of (pr_data : PullRequestData) : PullRequestInfo :=
  {| title := pr_title pr_data;
     number := pr_number pr_data;
     merge_commit := pr_merge_commit_sha pr_data;
     user := pr_head_user_login pr_data;
     url := pr_html_href pr_data;
     base_repo := pr_base_clone_url pr_data;
     base_branch := pr_base_ref pr_data;
     base_commit := pr_base_sha pr_data;
     base_full_name := pr_base_full_name pr_data;
     mergeable := match pr_mergeable pr_data with
                  | Some false => false
                  | _ => true
                  end;
     labels := Py.sorted (pr_labels pr_data) |}.

(** A line of the commit message is one of the skip keywords of the
    configuration, and [re.match] does not fail on a line before it. *)
Definition has_skip_line (A : Adapters) (c : CommitModel)
    (cfg : MurdockSettings) : Prop :=
  let pattern :=
    "^(" +:+ Py.join "|" (commit_skip_keywords cfg) +:+ ")$" in
  ∃ before line rest,
    Py.split Re.newline (message c) = (before ++ line :: rest)%list
    ∧ line ≠ "" ∧ re_match A pattern line = Some true
    ∧ ∀ x, In x before → x = "" ∨ re_match A pattern x = Some false.
(** * Properties *)

(** ** The reference engine and the built-ins on a few inputs *)

Example re_match_is_anchored_at_the_start_only :
  Re.re_match "dev" "development" = Some true
  ∧ Re.re_match "dev" "a-dev" = Some false
  ∧ Re.re_match "dev$" "development" = Some false.
Proof. by vm_compute. Qed.

Example re_compile_rejects_a_leading_repeat :
  Re.compile "*-rc" = Re.ReError ∧ Re.compile "a|*" = Re.ReError
  ∧ Re.compile "(dev" = Re.ReError.
Proof. by vm_compute. Qed.

Example re_compile_leaves_classes_aside :
  Re.compile "[0-9]+" = Re.NotModelled.
Proof. by vm_compute. Qed.

Example re_match_skip_pattern :
  Re.re_match "^(ci: skip|ci: ignore)$" "ci: ignore" = Some true
  ∧ Re.re_match "^(ci: skip|ci: ignore)$" "ci: ignored" = Some false
  ∧ Re.re_match "release/.*" "release/2021.04" = Some true.
Proof. by vm_compute. Qed.

Example split_ref_into_type_and_name :
  Py.last_two (Py.split "/" "refs/heads/topic") = ["heads"; "topic"]
  ∧ Py.last_two (Py.split "/" "topic") = ["topic"].
Proof. by vm_compute. Qed.

Example sorted_orders_by_code_point :
  Py.sorted ["bug"; "CI: ready for build"; "Area: doc"]
  = ["Area: doc"; "CI: ready for build"; "bug"].
Proof. by vm_compute. Qed.

(** ** Running coroutines symbolically *)

(** One step of a coroutine: the head read, write or adapter call of the
    enclosing [bind]. *)
Ltac step_gets := unfold bind at 1; unfold gets at 1.
Ltac step_modify := unfold bind at 1; unfold modify at 1.
Ltac step_emit := unfold bind at 1; unfold emit at 1, modify at 1.

Lemma set_trace_id (w : World) : set_trace (trace w) w = w.
Proof. by destruct w. Qed.

Lemma for_each_emit {X} (f : X → Event) (l : list X) (w : World) :
  for_each l (fun x => emit (f x)) w
  = (Ok tt, set_trace (trace w ++ map f l) w).
Proof.
  revert w; induction l as [|x l IH]; intros w; simpl.
  - by rewrite app_nil_r, set_trace_id.
  - unfold bind, emit, modify at 1. rewrite IH. simpl.
    by rewrite <- app_assoc.
Qed.

Lemma notify_run (A : Adapters) (msg : string) (w : World) :
  notify_message_to_clients A msg w
  = (notify_outcome A msg (clients w),
     set_trace (trace w ++ sends msg w) w).
Proof.
  unfold notify_message_to_clients, bind, gets.
  rewrite for_each_emit. unfold notify_outcome, sends.
  by destruct (List.find _ _).
Qed.

Lemma reload_run (A : Adapters) (w : World) :
  reload_jobs A w
  = (notify_outcome A reload_message (clients w),
     set_trace (trace w ++ sends reload_message w) w).
Proof. apply notify_run. Qed.

Lemma notify_outcome_ok (A : Adapters) (msg : string) (cs : list WebSocket) :
  notify_outcome A msg cs = Ok tt ↔ ∀ c, c ∈ cs → send_text A c msg = true.
Proof.
  unfold notify_outcome. induction cs as [|c cs IH]; simpl.
  - split; [intros _ c Hc; inversion Hc | done].
  - destruct (send_text A c msg) eqn:Hs; simpl.
    + rewrite IH. split.
      * intros H c' Hc'. apply elem_of_cons in Hc' as [->|Hc']; auto.
      * intros H c' Hc'. apply H. by right.
    + split; [done|]. intros H. specialize (H c (list_elem_of_here _ _)).
      congruence.
Qed.

(** ** The worker and canceled jobs *)

(** C8: a job whose [canceled] flag is set when the worker takes it is
    discarded: [_process_job] returns normally and leaves the whole world
    (waiting list, pool, queues, every job object, database and the trace
    of adapter calls) exactly as it was; neither [job_prepare], nor the
    build, nor [job_finalize] runs. *)
Theorem process_job_canceled_is_discarded
    (A : Adapters) (job : loc) (j : MurdockJob) (w : World) :
  heap w !! job = Some j →
  canceled j = true →
  _process_job A job w = (Ok tt, w).
Proof.
  intros Hj Hc. unfold _process_job, bind, get_job.
  by rewrite Hj, Hc.
Qed.

Lemma process_job_canceled_is_discarded_witness :
  let w := exec (cancel_queued_job Scenario.adapters false 0%nat)
             Scenario.world_idle in
  In 0%nat (queue w) ∧ _process_job Scenario.adapters 0%nat w = (Ok tt, w).
Proof.
  split; [by left|].
  apply (process_job_canceled_is_discarded Scenario.adapters 0%nat
           (set_canceled true (Scenario.job_on_ref "aaa" Scenario.topic)));
    reflexivity.
Defined.

(** ** Choice of the queue *)

Lemma all_busy_spec (w : World) :
  List.length (running w) = num_workers w →
  forallb (fun s : option loc => bool_decide (s ≠ None)) (running w) = true
  ↔ all_slots_occupied w.
Proof.
  intros Hlen. unfold all_slots_occupied. rewrite <- Hlen.
  rewrite forallb_forall. split.
  - intros H i Hi.
    destruct (lookup_lt_is_Some_2 (running w) i Hi) as [s Hs].
    assert (Hin : In s (running w)).
    { apply list_elem_of_In. eapply list_elem_of_lookup_2; eauto. }
    apply H in Hin. apply bool_decide_eq_true in Hin.
    destruct s as [k|]; [eauto | done].
  - intros H s Hin. apply list_elem_of_In in Hin.
    apply list_elem_of_lookup in Hin as [i Hi].
    destruct (H i) as [k Hk]; [by eapply lookup_lt_Some |].
    rewrite Hi in Hk. injection Hk as ->. by apply bool_decide_eq_true.
Qed.

Lemma add_job_to_queue_world (A : Adapters) (job : loc) (j : MurdockJob)
    (w : World) :
  heap w !! job = Some j →
  let fast := forallb (fun s : option loc => bool_decide (s ≠ None))
                (running w) && fasttracked j in
  let w' := exec (add_job_to_queue A job) w in
  queued w' = (queued w ++ [job])%list
  ∧ fasttrack_queue w'
    = (if fast then fasttrack_queue w ++ [job] else fasttrack_queue w)%list
  ∧ queue w' = (if fast then queue w else queue w ++ [job])%list
  ∧ running w' = running w ∧ heap w' = heap w.
Proof.
  intros Hj. unfold exec, add_job_to_queue, bind, gets, modify, get_job,
    set_commit_status, emit. simpl. rewrite Hj.
  destruct (forallb _ _ && fasttracked j); simpl; rewrite reload_run;
    simpl; auto.
Qed.

(** C6: [add_job_to_queue] inserts the job into the waiting list, and
    appends it to the fast-track queue if and only if every one of the
    [num_workers] slots of the running pool is occupied (the pool is read
    before the insertion) and the job is fast-tracked; in every other case
    the job is appended to the normal queue. *)
Theorem add_job_to_queue_lane
    (A : Adapters) (job : loc) (j : MurdockJob) (w : World) :
  heap w !! job = Some j →
  List.length (running w) = num_workers w →
  let w' := exec (add_job_to_queue A job) w in
  queued w' = MurdockJobList.add job (queued w)
  ∧ (fasttrack_queue w' = (fasttrack_queue w ++ [job])%list
     ↔ all_slots_occupied w ∧ fasttracked j = true)
  ∧ (all_slots_occupied w ∧ fasttracked j = true → queue w' = queue w)
  ∧ (¬ (all_slots_occupied w ∧ fasttracked j = true) →
     queue w' = (queue w ++ [job])%list
     ∧ fasttrack_queue w' = fasttrack_queue w).
Proof.
  intros Hj Hlen w'.
  destruct (add_job_to_queue_world A job j w Hj) as (Hq & Hf & Hn & _).
  fold w' in Hq, Hf, Hn. rewrite Hq, Hf, Hn.
  pose proof (all_busy_spec w Hlen) as Hbusy.
  destruct (forallb _ (running w)) eqn:Hall; simpl.
  - destruct (fasttracked j) eqn:Hft; simpl.
    + split; [done|]. split; [by intuition|]. split; [done|].
      intros Hn'. exfalso. apply Hn'. split; [by apply Hbusy | done].
    + split; [done|]. split.
      * split; [|by intros [_ ?]].
        intros Heq. apply (f_equal List.length) in Heq.
        rewrite length_app in Heq. simpl in Heq. lia.
      * split; [by intros [_ ?] | done].
  - assert (Hno : ¬ all_slots_occupied w).
    { intros Hocc. apply Hbusy in Hocc. congruence. }
    split; [done|]. split.
    + split; [|by intros [? _]].
      intros Heq. apply (f_equal List.length) in Heq.
      rewrite length_app in Heq. simpl in Heq. lia.
    + split; [by intros [? _] | done].
Qed.

Lemma add_job_to_queue_lane_witness :
  let w' := exec (add_job_to_queue Scenario.adapters 4%nat) Scenario.world in
  queued w' = MurdockJobList.add 4%nat (queued Scenario.world)
  ∧ (fasttrack_queue w' = (fasttrack_queue Scenario.world ++ [4%nat])%list
     ↔ all_slots_occupied Scenario.world
       ∧ fasttracked (Scenario.job_on_pr "eee") = true)
  ∧ (all_slots_occupied Scenario.world
     ∧ fasttracked (Scenario.job_on_pr "eee") = true →
     queue w' = queue Scenario.world)
  ∧ (¬ (all_slots_occupied Scenario.world
        ∧ fasttracked (Scenario.job_on_pr "eee") = true) →
     queue w' = (queue Scenario.world ++ [4%nat])%list
     ∧ fasttrack_queue w' = fasttrack_queue Scenario.world).
Proof.
  apply (add_job_to_queue_lane Scenario.adapters 4%nat
           (Scenario.job_on_pr "eee") Scenario.world); reflexivity.
Defined.

(** ** Observer fan-out *)

(** C4 (as the code has it): [notify_message_to_clients] starts a send to
    every client, whether or not some send fails, and changes nothing but
    the trace: in particular no client is dropped from [clients]. It
    returns normally exactly when every send succeeds; otherwise the
    failure of the first failing client is raised to the caller. *)
Theorem notify_attempts_all_and_propagates_failure
    (A : Adapters) (msg : string) (w : World) :
  let w' := exec (notify_message_to_clients A msg) w in
  trace w' = (trace w ++ map (fun c => SendText c msg) (clients w))%list
  ∧ w' = set_trace (trace w') w
  ∧ clients w' = clients w
  ∧ (eval (notify_message_to_clients A msg) w = Ok tt
     ↔ ∀ c, c ∈ clients w → send_text A c msg = true)
  ∧ (∀ c, List.find (fun c => negb (send_text A c msg)) (clients w) = Some c
          → eval (notify_message_to_clients A msg) w = Raise (SendFailed c)).
Proof.
  unfold exec, eval. rewrite notify_run. simpl.
  split; [done|]. split; [done|]. split; [done|]. split.
  - apply notify_outcome_ok.
  - intros c Hc. unfold notify_outcome. by rewrite Hc.
Qed.

(** C4, the claim as stated fails: with clients 1, 2, 3 of which client 2
    has gone away, the broadcast does not complete normally (the failure
    is raised), and client 2 is still subscribed afterwards. *)
Lemma notify_failure_aborts_and_keeps_client :
  eval (notify_message_to_clients Scenario.adapters reload_message)
    Scenario.world_lossy ≠ Ok tt
  ∧ clients (exec (notify_message_to_clients Scenario.adapters
                     reload_message) Scenario.world_lossy)
    ≠ [1%nat; 3%nat].
Proof. split; vm_compute; discriminate. Qed.

Lemma notify_attempts_all_and_propagates_failure_witness :
  eval (notify_message_to_clients Scenario.adapters reload_message)
    Scenario.world_lossy = Raise (SendFailed 2%nat).
Proof.
  apply (notify_attempts_all_and_propagates_failure Scenario.adapters
           reload_message Scenario.world_lossy).
  reflexivity.
Defined.

(** ** Reading and writing the store *)

Lemma get_job_run (job : loc) (j : MurdockJob) (w : World) :
  heap w !! job = Some j → get_job job w = (Ok j, w).
Proof. intros Hj. unfold get_job. by rewrite Hj. Qed.

Lemma update_job_run (job : loc) (j : MurdockJob)
    (f : MurdockJob → MurdockJob) (w : World) :
  heap w !! job = Some j →
  update_job job f w = (Ok tt, set_heap (<[job := f j]> (heap w)) w).
Proof. intros Hj. unfold update_job, bind, modify. by rewrite (get_job_run _ j). Qed.

Lemma lookup_updated (job : loc) (j x : MurdockJob) (store : list MurdockJob) :
  store !! job = Some j → <[job := x]> store !! job = Some x.
Proof. intros Hj. apply list_lookup_insert_eq. by eapply lookup_lt_Some. Qed.

(** ** Finalizing a job *)

Lemma job_finalize_run (A : Adapters) (job : loc) (j : MurdockJob)
    (w : World) :
  heap w !! job = Some j →
  let jf := finalized (clock w) j in
  let w1 := set_running (MurdockJobPool.remove job (running w))
              (set_heap (<[job := jf]> (heap w)) w) in
  exec (job_finalize A job) w
  = if result_is j "stopped"
    then set_trace (trace w ++ sends reload_message w) w1
    else set_trace
           (trace w
            ++ [final_status A jf]
            ++ (if bool_decide (pr j ≠ None) && pr_enable_comments (config j)
                then [CommentOnPr job] else [])
            ++ sends reload_message w)
           (set_db (Database.insert_job jf (db w)) w1).
Proof.
  intros Hj jf w1. unfold exec, job_finalize.
  step_gets.
  unfold bind at 1. rewrite (update_job_run job j _ w Hj).
  set (wa := set_heap _ w).
  assert (Ha : heap wa !! job = Some (set_stop_time (clock w) j)).
  { by apply lookup_updated with j. }
  unfold bind at 1. rewrite (get_job_run job _ wa Ha).
  assert (Hf : ∃ wb, heap wb !! job = Some jf ∧
     (if String.eqb (status (set_stop_time (clock w) j)) "working"
      then update_job job (set_status "finished") else ret tt) wa = (Ok tt, wb)
     ∧ wb = set_heap (<[job := jf]> (heap w)) w).
  { unfold jf, finalized.
    destruct (String.eqb (status (set_stop_time (clock w) j)) "working").
    - exists (set_heap (<[job := set_status "finished"
                                       (set_stop_time (clock w) j)]>
                            (heap wa)) wa).
      split; [|split; [by apply update_job_run|]].
      + eapply lookup_updated; exact Ha.
      + unfold wa. simpl. by rewrite list_insert_insert_eq.
    - by exists wa. }
  destruct Hf as (wb & Hb & Hrun & Hwb).
  unfold bind at 1. rewrite Hrun. subst wb.
  step_modify.
  change (set_running _ _) with w1.
  assert (Hc : heap w1 !! job = Some jf) by done.
  unfold bind at 1. rewrite (get_job_run job jf w1 Hc).
  assert (Hres : ∀ s, result_is jf s = result_is j s).
  { intros s. unfold jf, finalized.
    by destruct (String.eqb _ "working"). }
  assert (Hpr : pr jf = pr j ∧ config jf = config j).
  { unfold jf, finalized. by destruct (String.eqb _ "working"). }
  destruct Hpr as [Hpr Hcfg].
  rewrite Hres. destruct (result_is j "stopped"); simpl.
  - unfold bind, ret. by rewrite reload_run.
  - unfold bind, set_commit_status, emit, modify. rewrite Hpr, Hcfg.
    unfold final_status. rewrite !Hres.
    destruct (bool_decide (pr j ≠ None) && pr_enable_comments (config j));
      simpl; rewrite reload_run; simpl;
      unfold sends; simpl; by rewrite <- ?app_assoc.
Qed.

Lemma result_is_spec (j : MurdockJob) (s : string) :
  result_is j s = true ↔ result j = Some s.
Proof.
  unfold result_is. destruct (result j) as [r|]; [|done].
  rewrite String.eqb_eq. split; congruence.
Qed.

(** C3 (as the code has it): [job_finalize] stores the job in the
    database if and only if its result is not "stopped". A job whose
    result is "passed" or "errored" is stored, and so is a job with any
    other result, such as one still unset: it gets the final commit status
    too (success for "passed", failure otherwise). A stopped job is not
    stored and gets no commit status: the call only broadcasts the
    reload. *)
Theorem job_finalize_persists_unless_stopped
    (A : Adapters) (job : loc) (j : MurdockJob) (w : World) :
  heap w !! job = Some j →
  let w' := exec (job_finalize A job) w in
  let jf := finalized (clock w) j in
  (db w' = Database.insert_job jf (db w) ↔ result j ≠ Some "stopped")
  ∧ (result j = Some "passed" ∨ result j = Some "errored" →
     db w' = Database.insert_job jf (db w))
  ∧ (result j ≠ Some "stopped" →
     final_status A jf ∈ trace w'
     ∧ (result_is jf "passed" = true ↔ result j = Some "passed"))
  ∧ (result j = Some "stopped" →
     db w' = db w
     ∧ trace w' = (trace w ++ sends reload_message w)%list).
Proof.
  intros Hj w' jf. unfold w'. rewrite (job_finalize_run A job j w Hj).
  fold jf. pose proof (result_is_spec j "stopped") as Hst.
  assert (Hne : db w ≠ Database.insert_job jf (db w)).
  { intros Heq. apply (f_equal List.length) in Heq.
    unfold Database.insert_job in Heq. rewrite length_app in Heq.
    simpl in Heq. lia. }
  assert (Hres : result jf = result j).
  { unfold jf, finalized. by destruct (String.eqb _ "working"). }
  destruct (result_is j "stopped") eqn:Hs; simpl.
  - assert (Hr : result j = Some "stopped") by by apply Hst.
    split; [|split; [|split]].
    + split; [intros Heq; by destruct Hne | done].
    + intros [H|H]; rewrite Hr in H; discriminate H.
    + done.
    + done.
  - assert (Hr : result j ≠ Some "stopped").
    { intros Hr. apply Hst in Hr. congruence. }
    split; [|split; [|split]].
    + done.
    + done.
    + intros _. split.
      * apply elem_of_app. right. apply list_elem_of_here.
      * rewrite result_is_spec. by rewrite Hres.
    + done.
Qed.

Lemma job_finalize_persists_unless_stopped_witness :
  let w' := exec (job_finalize Scenario.adapters 1%nat) Scenario.world in
  let jf := finalized 100 (Scenario.job_on_ref "bbb" Scenario.topic) in
  (db w' = Database.insert_job jf (db Scenario.world)
   ↔ result (Scenario.job_on_ref "bbb" Scenario.topic) ≠ Some "stopped")
  ∧ (result (Scenario.job_on_ref "bbb" Scenario.topic) = Some "passed"
     ∨ result (Scenario.job_on_ref "bbb" Scenario.topic) = Some "errored" →
     db w' = Database.insert_job jf (db Scenario.world))
  ∧ (result (Scenario.job_on_ref "bbb" Scenario.topic) ≠ Some "stopped" →
     final_status Scenario.adapters jf ∈ trace w'
     ∧ (result_is jf "passed" = true
        ↔ result (Scenario.job_on_ref "bbb" Scenario.topic) = Some "passed"))
  ∧ (result (Scenario.job_on_ref "bbb" Scenario.topic) = Some "stopped" →
     db w' = db Scenario.world
     ∧ trace w' = (trace Scenario.world
                   ++ sends reload_message Scenario.world)%list).
Proof.
  apply (job_finalize_persists_unless_stopped Scenario.adapters 1%nat
           (Scenario.job_on_ref "bbb" Scenario.topic) Scenario.world).
  reflexivity.
Defined.

(** C3, the claim as stated fails: job 1 runs with its result still
    unset; [job_finalize] stores it in the database and posts a final
    commit status for it. *)
Lemma job_finalize_persists_unset_result :
  let w' := exec (job_finalize Scenario.adapters 1%nat) Scenario.world in
  (heap Scenario.world !! 1%nat) ≫= result = None
  ∧ db w' ≠ db Scenario.world
  ∧ existsb is_commit_status (trace w') = true.
Proof. vm_compute. repeat split; discriminate. Qed.

(** ** Removing finished jobs *)

Lemma get_query_run (query : loc) (q : JobQueryModel) (w : World) :
  queries w !! query = Some q → get_query query w = (Ok q, w).
Proof. intros Hq. unfold get_query. by rewrite Hq. Qed.

Lemma update_query_run (query : loc) (q : JobQueryModel)
    (f : JobQueryModel → JobQueryModel) (w : World) :
  queries w !! query = Some q →
  update_query query f w
  = (Ok tt, set_queries (<[query := f q]> (queries w)) w).
Proof.
  intros Hq. unfold update_query, bind, modify.
  by rewrite (get_query_run _ q).
Qed.

Lemma find_jobs_all (q : JobQueryModel) (jobs : list MurdockJob) :
  limit q = Database.count_jobs q jobs →
  Database.find_jobs q jobs = List.filter (selects q) jobs.
Proof.
  intros Hl. unfold Database.find_jobs. rewrite Hl.
  unfold Database.count_jobs.
  destruct (Z.ltb_spec (Z.of_nat (List.length (List.filter (selects q) jobs))) 0);
    [lia|].
  rewrite Nat2Z.id. apply take_ge. done.
Qed.

Lemma remove_finished_jobs_run
    (A : Adapters) (query : loc) (q0 : JobQueryModel) (w : World) :
  queries w !! query = Some q0 →
  let matched := Database.count_jobs (set_limit (-1) q0) (db w) in
  let found := List.filter (selects q0) (db w) in
  remove_finished_jobs A query w
  = (match notify_outcome A reload_message (clients w) with
     | Ok _ => Ok found
     | Raise e => Raise e
     end,
     set_trace
       (trace w
        ++ map (fun job => RemoveDir (path_join (work_dir A) (uid job))) found
        ++ sends reload_message w)
       (set_db (Database.delete_jobs q0 (db w))
          (set_queries (<[query := set_limit matched q0]> (queries w)) w))).
Proof.
  intros Hq matched found. unfold remove_finished_jobs.
  unfold bind at 1. rewrite (update_query_run query q0 _ w Hq).
  set (wa := set_queries _ w).
  assert (Ha : queries wa !! query = Some (set_limit (-1) q0)).
  { unfold wa. simpl. apply list_lookup_insert_eq.
    by eapply lookup_lt_Some. }
  unfold bind at 1. rewrite (get_query_run query _ wa Ha).
  step_gets.
  unfold bind at 1. rewrite (update_query_run query _ _ wa Ha).
  change (Database.count_jobs (set_limit (-1) q0) (db wa)) with matched.
  set (wb := set_queries _ wa).
  assert (Hb : queries wb !! query = Some (set_limit matched q0)).
  { unfold wb. simpl. rewrite list_insert_insert_eq.
    apply list_lookup_insert_eq. by eapply lookup_lt_Some. }
  unfold bind at 1. rewrite (get_query_run query _ wb Hb).
  step_gets.
  rewrite find_jobs_all by done.
  unfold bind at 1. rewrite for_each_emit.
  step_modify.
  unfold bind at 1. rewrite reload_run. unfold wb, wa, sends. simpl.
  fold found. rewrite list_insert_insert_eq, <- app_assoc.
  by destruct (notify_outcome A reload_message (clients w)).
Qed.

(** C10: [remove_finished_jobs] mutates the query object it is given.
    Whatever [limit] the caller had put there, once the call is over
    (normally or not) the object's [limit] is the number of finished jobs
    the query selected in the database at entry, counted without a limit;
    the caller's value is not put back. When every observer takes the
    reload message the call returns, with the selected jobs. *)
Theorem remove_finished_jobs_overwrites_limit
    (A : Adapters) (query : loc) (q0 : JobQueryModel) (w : World) :
  queries w !! query = Some q0 →
  let w' := exec (remove_finished_jobs A query) w in
  let matched := Database.count_jobs (set_limit (-1) q0) (db w) in
  matched = Z.of_nat (List.length (List.filter (selects q0) (db w)))
  ∧ queries w' !! query = Some (set_limit matched q0)
  ∧ (limit q0 ≠ matched → queries w' !! query ≠ Some q0)
  ∧ ((∀ c, c ∈ clients w → send_text A c reload_message = true) →
     eval (remove_finished_jobs A query) w
     = Ok (List.filter (selects q0) (db w))).
Proof.
  intros Hq w' matched.
  assert (Hlim : queries w' !! query = Some (set_limit matched q0)).
  { unfold w', exec. rewrite (remove_finished_jobs_run A query q0 w Hq).
    simpl. apply list_lookup_insert_eq. by eapply lookup_lt_Some. }
  split; [done|]. split; [exact Hlim|]. split.
  - rewrite Hlim. intros Hne Heq.
    injection Heq as Heq. apply (f_equal limit) in Heq. simpl in Heq.
    congruence.
  - intros Hall. unfold eval.
    rewrite (remove_finished_jobs_run A query q0 w Hq). simpl.
    apply notify_outcome_ok in Hall. by rewrite Hall.
Qed.

Lemma remove_finished_jobs_overwrites_limit_witness :
  limit <$> queries (exec (remove_finished_jobs Scenario.adapters 0%nat)
                       Scenario.world) !! 0%nat
  = Some 2.
Proof.
  pose proof (remove_finished_jobs_overwrites_limit Scenario.adapters 0%nat
                Scenario.passed_only Scenario.world eq_refl) as (_ & H & _).
  rewrite H. reflexivity.
Defined.

(** ** Ref rules *)

Lemma str_in_spec (x : string) (l : list string) :
  Py.str_in x l = true ↔ x ∈ l.
Proof.
  unfold Py.str_in. rewrite existsb_exists. split.
  - intros (y & Hin & Heq). apply String.eqb_eq in Heq as ->.
    by apply list_elem_of_In.
  - intros Hin. exists x. split; [by apply list_elem_of_In|].
    apply String.eqb_refl.
Qed.

Lemma any_rule_matches_true (A : Adapters) (r : string)
    (rules : list string) :
  any_rule_matches A r rules = Ok true
  ↔ ∃ l1 e l2, rules = (l1 ++ e :: l2)%list
                ∧ re_match A e r = Some true
                ∧ ∀ e', e' ∈ l1 → re_match A e' r ≠ None.
Proof.
  split.
  - induction rules as [|e rules IH]; simpl; [discriminate|].
    destruct (re_match A e r) as [[|]|] eqn:He; [| |discriminate].
    + intros _. exists [], e, rules. split; [done|]. split; [done|].
      intros e' He'. inversion He'.
    + intros H. destruct (IH H) as (l1 & e0 & l2 & -> & Hm & Hv).
      exists (e :: l1), e0, l2. split; [done|]. split; [done|].
      intros e' He'. apply elem_of_cons in He' as [->|He'];
        [congruence | by apply Hv].
  - intros (l1 & e & l2 & -> & Hm & Hv).
    induction l1 as [|e' l1 IH]; simpl.
    + by rewrite Hm.
    + destruct (re_match A e' r) as [[|]|] eqn:He'; [done| |].
      * apply IH. intros e'' He''. apply Hv. by right.
      * exfalso. apply (Hv e'); [by left | done].
Qed.

Lemma any_rule_matches_valid (A : Adapters) (r : string)
    (rules : list string) :
  (∀ e, e ∈ rules → re_match A e r ≠ None) →
  any_rule_matches A r rules
  = Ok (existsb (fun e => bool_decide (re_match A e r = Some true)) rules).
Proof.
  induction rules as [|e rules IH]; intros Hv; simpl; [done|].
  destruct (re_match A e r) as [[|]|] eqn:He.
  - done.
  - rewrite IH; [done|]. intros e' He'. apply Hv. by right.
  - exfalso. apply (Hv e); [by left | done].
Qed.

Lemma any_rule_matches_raise (A : Adapters) (r : string)
    (rules : list string) (ex : Exn) :
  any_rule_matches A r rules = Raise ex
  ↔ ex = ReErrorExn
    ∧ ∃ l1 e l2, rules = (l1 ++ e :: l2)%list
                 ∧ re_match A e r = None
                 ∧ ∀ e', e' ∈ l1 → re_match A e' r = Some false.
Proof.
  split.
  - induction rules as [|e rules IH]; simpl; [discriminate|].
    destruct (re_match A e r) as [[|]|] eqn:He; [discriminate| |].
    + intros H. destruct (IH H) as (Hex & l1 & e0 & l2 & -> & Hm & Hv).
      split; [done|]. exists (e :: l1), e0, l2.
      split; [done|]. split; [done|].
      intros e' He'. apply elem_of_cons in He' as [->|He'];
        [done | by apply Hv].
    + intros H. injection H as <-. split; [done|].
      exists [], e, rules. split; [done|]. split; [done|].
      intros e' He'. inversion He'.
  - intros (-> & l1 & e & l2 & -> & Hm & Hv).
    induction l1 as [|e' l1 IH]; simpl.
    + by rewrite Hm.
    + rewrite (Hv e') by by left.
      apply IH. intros e'' He''. apply Hv. by right.
Qed.

(** *** Literal rules under the reference engine *)
Lemma parse_alt_unfold (fuel : nat) (s : list ascii) :
  Re.parse_alt (S fuel) s
  = match ReLit.parse_seq fuel (S (List.length s)) s with
    | Re.POk r (c :: s1) =>
        if Ascii.eqb c "|" then
          match Re.parse_alt fuel s1 with
          | Re.POk r2 s2 => Re.POk (Re.Alt r r2) s2
          | e => e
          end
        else Re.POk r (c :: s1)
    | e => e
    end.
Proof. reflexivity. Qed.

Lemma is_plain_spec (c : ascii) :
  ReLit.is_plain c = true →
  (nat_of_ascii c <? 128)%nat = true
  ∧ Ascii.eqb c "(" = false ∧ Ascii.eqb c ")" = false
  ∧ Ascii.eqb c "|" = false ∧ Re.is_repeat c = false
  ∧ Re.is_unmodelled c = false ∧ Ascii.eqb c "\" = false
  ∧ Ascii.eqb c "." = false ∧ Ascii.eqb c "^" = false
  ∧ Ascii.eqb c "$" = false.
Proof.
  unfold ReLit.is_plain. intros H.
  apply andb_true_iff in H as [Ha H]. apply negb_true_iff in H.
  repeat (apply orb_false_iff in H as [H ?]). by repeat split.
Qed.

Lemma parse_seq_plain (fuel n : nat) (s : list ascii) :
  forallb ReLit.is_plain s = true → (List.length s < n)%nat →
  ReLit.parse_seq fuel n s = Re.POk (ReLit.lit s) [].
Proof.
  revert s. induction n as [|n IH]; intros s Hp Hlen; [lia|].
  destruct s as [|c s]; [done|].
  simpl in Hp. apply andb_true_iff in Hp as [Hc Hp]. simpl in Hlen.
  destruct (is_plain_spec c Hc)
    as (_ & H1 & H2 & H3 & H4 & H5 & H6 & H7 & H8 & H9).
  assert (Hatom : ReLit.parse_atom fuel (c :: s) = Re.POk (Re.Chr c) s).
  { unfold ReLit.parse_atom. rewrite H1, H4, H5, H6, H7, H8, H9.
    unfold Re.parse_repeat. destruct s as [|q s]; [done|].
    simpl in Hp. apply andb_true_iff in Hp as [Hq _].
    destruct (is_plain_spec q Hq) as (_ & _ & _ & _ & -> & _). done. }
  change (ReLit.parse_seq fuel (S n) (c :: s))
    with (if Ascii.eqb c "|" || Ascii.eqb c ")" then Re.POk Re.Eps (c :: s)
          else match ReLit.parse_atom fuel (c :: s) with
               | Re.POk a s1 =>
                   match ReLit.parse_seq fuel n s1 with
                   | Re.POk r s2 => Re.POk (Re.Cat a r) s2
                   | e => e
                   end
               | e => e
               end).
  rewrite H3, H2, Hatom. simpl orb. cbv iota.
  rewrite IH by (done || lia). done.
Qed.

Lemma compile_plain (rule : string) :
  ReLit.plain rule = true →
  Re.compile rule
  = Re.Compiled (ReLit.lit (String.list_ascii_of_string rule)).
Proof.
  unfold ReLit.plain, Re.compile. intros Hp.
  set (s := String.list_ascii_of_string rule) in *.
  assert (Ha : Re.is_ascii s = true).
  { unfold Re.is_ascii. apply forallb_forall. intros c Hc.
    rewrite forallb_forall in Hp. by apply is_plain_spec, Hp. }
  rewrite Ha. simpl negb. cbv iota.
  rewrite parse_alt_unfold, parse_seq_plain by (done || lia). done.
Qed.

Lemma prefix_match_alt (first : bool) (a b : Re.regex) (s : list ascii) :
  Re.prefix_match first (Re.Alt a b) s
  = Re.prefix_match first a s || Re.prefix_match first b s.
Proof.
  revert first a b. induction s as [|c s IH]; intros first a b; simpl.
  - by rewrite !orb_false_r.
  - rewrite IH.
    destruct (Re.nullable first (c :: s) a),
      (Re.nullable first (c :: s) b); simpl; rewrite ?orb_true_r; done.
Qed.

Lemma prefix_match_void (first : bool) (r : Re.regex) (s : list ascii) :
  Re.prefix_match first (Re.Cat Re.Void r) s = false.
Proof. revert first. induction s as [|c s IH]; intros first; simpl; done. Qed.

Lemma prefix_match_eps (first : bool) (r : Re.regex) (s : list ascii) :
  Re.prefix_match first (Re.Cat Re.Eps r) s = Re.prefix_match first r s.
Proof.
  destruct s as [|c s]; simpl; [done|].
  by rewrite prefix_match_alt, prefix_match_void.
Qed.

Lemma prefix_match_lit (first : bool) (rule subject : string) :
  Re.prefix_match first (ReLit.lit (String.list_ascii_of_string rule))
    (String.list_ascii_of_string subject)
  = String.prefix rule subject.
Proof.
  revert first subject.
  induction rule as [|c rule IH]; intros first subject.
  - by destruct subject.
  - destruct subject as [|d subject]; [done|].
    simpl. destruct (Ascii.eqb_spec d c) as [->|Hne].
    + destruct (ascii_dec c c) as [_|Hn]; [|done].
      rewrite prefix_match_eps. apply IH.
    + destruct (ascii_dec c d) as [->|_]; [done|].
      apply prefix_match_void.
Qed.

Lemma re_match_plain (rule subject : string) :
  ReLit.plain rule = true → ReLit.ascii_only subject = true →
  Re.re_match rule subject = Some (String.prefix rule subject).
Proof.
  intros Hp Ha. unfold Re.re_match. rewrite (compile_plain rule Hp).
  unfold ReLit.ascii_only in Ha. rewrite Ha. by rewrite prefix_match_lit.
Qed.

Lemma string_prefix_refl (s : string) : String.prefix s s = true.
Proof.
  induction s as [|c s IH]; simpl; [done|].
  by destruct (ascii_dec c c).
Qed.

Lemma star_is_not_plain : ReLit.plain "*" = false.
Proof. reflexivity. Qed.

(** C9 (as the code has it): [handle_ref ref rules] returns true exactly
    when "*" is among the rules, or [ref] is among the rules, or some
    rule, read as a regular expression, matches at the start of [ref]
    and every rule before it in the list is a well-formed expression. It
    raises, and then always [re.error], exactly when neither "*" nor
    [ref] is among the rules and a rule that is not well formed comes
    before any rule that matches: [re.match] raises on it and nothing
    catches the exception. When all rules are well formed it returns,
    and returns true exactly when "*" or [ref] is among the rules or some
    rule matches. The match is anchored at the start only, not at the
    end: with the reference engine, rules made of ordinary characters
    accept exactly the refs that begin with one of them, so the rule
    "dev" accepts the ref "development" and does not accept "a-dev".
    With no rule at all the answer is false for every ref. *)
Theorem handle_ref_accepts (A : Adapters) (r : string) (rules : list string) :
  (handle_ref A r rules = Ok true
   ↔ "*" ∈ rules ∨ r ∈ rules
     ∨ ∃ l1 e l2, rules = (l1 ++ e :: l2)%list
                  ∧ re_match A e r = Some true
                  ∧ ∀ e', e' ∈ l1 → re_match A e' r ≠ None)
  ∧ (∀ ex, handle_ref A r rules = Raise ex
           ↔ ex = ReErrorExn ∧ ¬ ("*" ∈ rules) ∧ ¬ (r ∈ rules)
             ∧ ∃ l1 e l2, rules = (l1 ++ e :: l2)%list
                          ∧ re_match A e r = None
                          ∧ ∀ e', e' ∈ l1 → re_match A e' r = Some false)
  ∧ ((∀ e, e ∈ rules → re_match A e r ≠ None) →
     ∃ b, handle_ref A r rules = Ok b
          ∧ (b = true ↔ "*" ∈ rules ∨ r ∈ rules
                        ∨ ∃ e, e ∈ rules ∧ re_match A e r = Some true))
  ∧ (re_match A = Re.re_match →
     forallb ReLit.plain rules = true → ReLit.ascii_only r = true →
     handle_ref A r rules
     = Ok (existsb (fun rule => String.prefix rule r) rules))
  ∧ handle_ref A r [] = Ok false
  ∧ handle_ref Scenario.adapters "development" ["dev"] = Ok true.
Proof.
  split; [|split; [|split; [|split; [|split]]]].
  - unfold handle_ref.
    destruct (Py.str_in "*" rules) eqn:Hstar; simpl.
    { split; [|done]. intros _. left. by apply str_in_spec. }
    destruct (Py.str_in r rules) eqn:Hin; simpl.
    { split; [|done]. intros _. right. left. by apply str_in_spec. }
    rewrite any_rule_matches_true. split; [by auto|].
    intros [H|[H|H]]; [| |done]; apply str_in_spec in H; congruence.
  - intros ex. unfold handle_ref.
    destruct (Py.str_in "*" rules) eqn:Hstar; simpl.
    { split; [done|]. intros (_ & H & _). exfalso. apply H.
      by apply str_in_spec. }
    destruct (Py.str_in r rules) eqn:Hin; simpl.
    { split; [done|]. intros (_ & _ & H & _). exfalso. apply H.
      by apply str_in_spec. }
    rewrite any_rule_matches_raise. split.
    + intros [Hex Hl]. split; [done|].
      split; [|split; [|done]]; intros H; apply str_in_spec in H;
        congruence.
    + intros (Hex & _ & _ & Hl). by split.
  - intros Hv. unfold handle_ref.
    destruct (Py.str_in "*" rules) eqn:Hstar; simpl.
    { exists true. split; [done|]. split; [|done].
      intros _. left. by apply str_in_spec. }
    destruct (Py.str_in r rules) eqn:Hin; simpl.
    { exists true. split; [done|]. split; [|done].
      intros _. right. left. by apply str_in_spec. }
    rewrite any_rule_matches_valid by done.
    eexists. split; [done|]. rewrite existsb_exists. split.
    + intros (e & He & Hm). right. right. exists e.
      split; [by apply list_elem_of_In|]. by apply bool_decide_eq_true in Hm.
    + intros [H|[H|(e & He & Hm)]].
      * apply str_in_spec in H. congruence.
      * apply str_in_spec in H. congruence.
      * exists e. split; [by apply list_elem_of_In|].
        by apply bool_decide_eq_true.
  - intros Hre Hplain Hascii.
    assert (Hmatch : ∀ e, In e rules →
              re_match A e r = Some (String.prefix e r)).
    { intros e He. rewrite Hre. apply re_match_plain; [|done].
      rewrite forallb_forall in Hplain. by apply Hplain. }
    unfold handle_ref.
    destruct (Py.str_in "*" rules) eqn:Hstar; simpl.
    { apply str_in_spec, list_elem_of_In in Hstar.
      rewrite forallb_forall in Hplain. apply Hplain in Hstar.
      by rewrite star_is_not_plain in Hstar. }
    destruct (Py.str_in r rules) eqn:Hin; simpl.
    { f_equal. symmetry. apply existsb_exists. exists r.
      split; [|apply string_prefix_refl].
      by apply list_elem_of_In, str_in_spec. }
    rewrite any_rule_matches_valid.
    2:{ intros e He. apply list_elem_of_In in He.
        by rewrite (Hmatch e He). }
    f_equal. clear Hstar Hin Hplain.
    induction rules as [|e rules IH]; simpl; [done|].
    rewrite (Hmatch e) by by left.
    rewrite IH by (intros e' He'; apply Hmatch; by right).
    by destruct (String.prefix e r).
  - reflexivity.
  - vm_compute. reflexivity.
Qed.

Lemma handle_ref_accepts_witness :
  (∃ b, handle_ref Scenario.adapters "release/2021.04" ["dev"; "release/.*"]
        = Ok b
        ∧ (b = true
           ↔ "*" ∈ ["dev"; "release/.*"]
             ∨ "release/2021.04" ∈ ["dev"; "release/.*"]
             ∨ ∃ e, e ∈ ["dev"; "release/.*"]
                    ∧ re_match Scenario.adapters e "release/2021.04"
                      = Some true))
  ∧ handle_ref Scenario.adapters "a-dev" ["dev"; "main"] = Ok false
  ∧ handle_ref Scenario.adapters "development" ["dev"; "main"] = Ok true.
Proof.
  split; [|split].
  - destruct (handle_ref_accepts Scenario.adapters "release/2021.04"
                ["dev"; "release/.*"]) as (_ & _ & H & _).
    apply H. intros e He. apply list_elem_of_In in He. simpl in He.
    destruct He as [<-|[<-|[]]]; by vm_compute.
  - destruct (handle_ref_accepts Scenario.adapters "a-dev" ["dev"; "main"])
      as (_ & _ & _ & H & _).
    by apply H.
  - destruct (handle_ref_accepts Scenario.adapters "development"
                ["dev"; "main"]) as (_ & _ & _ & H & _).
    by apply H.
Defined.

(** C9, the claim as stated fails: among the rules "*-rc" and "dev" the
    second matches a prefix of "development", yet [handle_ref] does not
    return true: "*-rc" is not a regular expression (nothing to repeat)
    and [re.match] raises on it before "dev" is tried. *)
Lemma handle_ref_raises_on_ill_formed_rule :
  Re.compile "*-rc" = Re.ReError
  ∧ handle_ref Scenario.adapters "development" ["*-rc"; "dev"]
    = Raise ReErrorExn
  ∧ ¬ (handle_ref Scenario.adapters "development" ["*-rc"; "dev"] = Ok true
       ↔ "*" ∈ ["*-rc"; "dev"] ∨ "development" ∈ ["*-rc"; "dev"]
         ∨ ∃ e, e ∈ ["*-rc"; "dev"]
                ∧ re_match Scenario.adapters e "development" = Some true).
Proof.
  split; [by vm_compute|]. split; [by vm_compute|].
  intros [_ H].
  assert (Hf : handle_ref Scenario.adapters "development" ["*-rc"; "dev"]
               = Ok true).
  { apply H. right. right. exists "dev". split.
    - apply list_elem_of_In. simpl. auto.
    - by vm_compute. }
  vm_compute in Hf. discriminate Hf.
Qed.

(** ** Disabling matching jobs *)

Lemma cancel_queued_job_run (A : Adapters) (k : loc) (jk : MurdockJob)
    (w : World) :
  heap w !! k = Some jk →
  cancel_queued_job A false k w
  = (Ok tt,
     set_trace
       (trace w ++ [SetCommitStatus (sha (commit jk))
                      (pending_status A "Canceled")])
       (set_queued (MurdockJobList.remove k (queued w))
          (set_heap (<[k := set_canceled true jk]> (heap w)) w))).
Proof.
  intros Hk. unfold cancel_queued_job.
  unfold bind at 1. rewrite (update_job_run k jk _ w Hk).
  step_modify.
  unfold bind at 1. erewrite get_job_run; [|simpl; by eapply lookup_updated].
  unfold bind, set_commit_status, emit, modify, ret. reflexivity.
Qed.

Lemma stop_running_job_run (A : Adapters) (k : loc) (jk : MurdockJob)
    (w : World) :
  heap w !! k = Some jk →
  stop_running_job A false k w
  = (Ok k, set_trace (trace w ++ stop_events A (heap w) k) w).
Proof.
  intros Hk. unfold stop_running_job, stop_events. rewrite Hk.
  step_emit.
  unfold bind at 1. erewrite get_job_run; [|exact Hk].
  unfold bind, set_commit_status, emit, modify, ret. simpl.
  by rewrite <- app_assoc.
Qed.

Lemma search_by_pr_number_ext (s1 s2 : list MurdockJob) (n : Z)
    (js : list loc) :
  (∀ l, trigger <$> s1 !! l = trigger <$> s2 !! l) →
  MurdockJobList.search_by_pr_number s1 n js
  = MurdockJobList.search_by_pr_number s2 n js.
Proof.
  intros H. unfold MurdockJobList.search_by_pr_number.
  apply filter_ext. intros l. specialize (H l).
  destruct (s1 !! l) as [a|], (s2 !! l) as [b|]; try done.
  simpl in H. injection H as Hp _. unfold trigger in *. by rewrite Hp.
Qed.

Lemma search_by_ref_ext (s1 s2 : list MurdockJob) (r : string)
    (js : list loc) :
  (∀ l, trigger <$> s1 !! l = trigger <$> s2 !! l) →
  MurdockJobList.search_by_ref s1 r js = MurdockJobList.search_by_ref s2 r js.
Proof.
  intros H. unfold MurdockJobList.search_by_ref.
  apply filter_ext. intros l. specialize (H l).
  destruct (s1 !! l) as [a|], (s2 !! l) as [b|]; try done.
  simpl in H. injection H as _ Hr. unfold trigger in *. by rewrite Hr.
Qed.

Lemma search_by_pr_number_valid (s : list MurdockJob) (n : Z)
    (js : list loc) (k : loc) :
  In k (MurdockJobList.search_by_pr_number s n js) → is_Some (s !! k).
Proof.
  unfold MurdockJobList.search_by_pr_number. rewrite filter_In.
  intros [_ H]. by destruct (s !! k).
Qed.

Lemma search_by_ref_valid (s : list MurdockJob) (r : string)
    (js : list loc) (k : loc) :
  In k (MurdockJobList.search_by_ref s r js) → is_Some (s !! k).
Proof.
  unfold MurdockJobList.search_by_ref. rewrite filter_In.
  intros [_ H]. by destruct (s !! k).
Qed.

Lemma queued_matches_valid (j : MurdockJob) (w : World) (k : loc) :
  In k (queued_matches j w) → is_Some (heap w !! k).
Proof.
  unfold queued_matches. rewrite in_app_iff. intros [H|H].
  - destruct (pr j); [by eapply search_by_pr_number_valid | done].
  - destruct (ref j); [by eapply search_by_ref_valid | done].
Qed.

Lemma running_matches_valid (j : MurdockJob) (w : World) (k : loc) :
  In k (running_matches j w) → is_Some (heap w !! k).
Proof.
  unfold running_matches, MurdockJobPool.search_by_pr_number,
    MurdockJobPool.search_by_ref.
  rewrite in_app_iff. intros [H|H].
  - destruct (pr j); [by eapply search_by_pr_number_valid | done].
  - destruct (ref j); [by eapply search_by_ref_valid | done].
Qed.

Lemma trigger_insert (store : list MurdockJob) (k : loc)
    (jk j' : MurdockJob) :
  store !! k = Some jk → trigger j' = trigger jk →
  ∀ l, trigger <$> <[k := j']> store !! l = trigger <$> store !! l.
Proof.
  intros Hk Ht l. destruct (decide (k = l)) as [->|Hne].
  - rewrite (lookup_updated l jk j' store Hk), Hk. simpl. by rewrite Ht.
  - by rewrite list_lookup_insert_ne.
Qed.

Lemma filter_true {X} (l : list X) : List.filter (fun _ => true) l = l.
Proof. induction l; simpl; congruence. Qed.

Lemma filter_remove (k : loc) (ks js : list loc) :
  List.filter (fun l => negb (existsb (Nat.eqb l) ks))
    (MurdockJobList.remove k js)
  = List.filter (fun l => negb (existsb (Nat.eqb l) (k :: ks))) js.
Proof.
  unfold MurdockJobList.remove. induction js as [|x js IH]; simpl; [done|].
  destruct (Nat.eqb x k); simpl; [done|]. by rewrite IH.
Qed.

Lemma cancel_loop (A : Adapters) (ks : list loc) (w : World) :
  (∀ k, In k ks → is_Some (heap w !! k)) →
  ∃ w', for_each ks (cancel_queued_job A false) w = (Ok tt, w')
    ∧ running w' = running w ∧ clients w' = clients w
    ∧ queue w' = queue w ∧ fasttrack_queue w' = fasttrack_queue w
    ∧ db w' = db w ∧ queries w' = queries w
    ∧ (∀ l, trigger <$> heap w' !! l = trigger <$> heap w !! l)
    ∧ queued w'
      = List.filter (fun l => negb (existsb (Nat.eqb l) ks)) (queued w).
Proof.
  revert w. induction ks as [|k ks IH]; intros w Hv.
  - exists w. simpl. by rewrite filter_true.
  - destruct (Hv k) as [jk Hk]; [by left|].
    simpl for_each. unfold bind at 1.
    rewrite (cancel_queued_job_run A k jk w Hk).
    set (wa := set_trace _ _).
    assert (Ht : ∀ l, trigger <$> heap wa !! l = trigger <$> heap w !! l).
    { unfold wa. simpl. by apply trigger_insert with jk. }
    destruct (IH wa) as (w' & Hrun & Hr & Hc & Hq & Hf & Hd & Hqs & Ht' & Hq').
    { intros k' Hk'. apply (fmap_is_Some trigger). rewrite Ht.
      apply fmap_is_Some. apply Hv. by right. }
    exists w'. rewrite Hrun. repeat split; try done.
    + intros l. by rewrite Ht', Ht.
    + rewrite Hq'. unfold wa. simpl. apply filter_remove.
Qed.

Lemma stop_loop (A : Adapters) (ks : list loc) (w : World) :
  (∀ k, In k ks → is_Some (heap w !! k)) →
  for_each ks (fun k => stop_running_job A false k >> ret tt) w
  = (Ok tt, set_trace (trace w ++ flat_map (stop_events A (heap w)) ks) w).
Proof.
  revert w. induction ks as [|k ks IH]; intros w Hv; simpl.
  - by rewrite app_nil_r, set_trace_id.
  - destruct (Hv k) as [jk Hk]; [by left|].
    unfold bind at 1. unfold bind at 1.
    rewrite (stop_running_job_run A k jk w Hk). unfold ret at 1.
    rewrite IH.
    + simpl. by rewrite <- app_assoc.
    + intros k' Hk'. simpl. apply Hv. by right.
Qed.

Lemma running_matches_ext (j j' : MurdockJob) (w w' : World) :
  trigger j' = trigger j → running w' = running w →
  (∀ l, trigger <$> heap w' !! l = trigger <$> heap w !! l) →
  running_matches j' w' = running_matches j w.
Proof.
  intros Ht Hr Hh. unfold trigger in Ht. injection Ht as Hp Hf.
  unfold running_matches, MurdockJobPool.search_by_pr_number,
    MurdockJobPool.search_by_ref. rewrite Hp, Hf, Hr.
  f_equal.
  - destruct (pr j); [by apply search_by_pr_number_ext | done].
  - destruct (ref j); [by apply search_by_ref_ext | done].
Qed.

Lemma filter_filter_nil {X} (p q : X → bool) (l : list X) :
  (∀ x, In x l → p x = true → q x = false) →
  List.filter p (List.filter q l) = [].
Proof.
  induction l as [|x l IH]; intros H; simpl; [done|].
  destruct (q x) eqn:Hq; simpl.
  - destruct (p x) eqn:Hp.
    + rewrite (H x) in Hq; [done | by left | done].
    + apply IH. intros y Hy. apply H. by right.
  - apply IH. intros y Hy. apply H. by right.
Qed.

Lemma existsb_eqb_in (l : loc) (ks : list loc) :
  In l ks → existsb (Nat.eqb l) ks = true.
Proof.
  intros H. apply existsb_exists. exists l. split; [done|].
  apply Nat.eqb_refl.
Qed.

(** Once the jobs collected for [j] have left the waiting list, no
    waiting job matches [j] any more. *)
Lemma queued_matches_after_cancel (j j' : MurdockJob) (w w' : World) :
  trigger j' = trigger j →
  (∀ l, trigger <$> heap w' !! l = trigger <$> heap w !! l) →
  queued w'
  = List.filter (fun l => negb (existsb (Nat.eqb l) (queued_matches j w)))
      (queued w) →
  queued_matches j' w' = [].
Proof.
  intros Ht Hh Hq. unfold trigger in Ht. injection Ht as Hp Hf.
  unfold queued_matches at 1. rewrite Hp, Hf, Hq.
  assert (Hpr : match pr j with
                | Some p => MurdockJobList.search_by_pr_number (heap w')
                    (number p)
                    (List.filter (fun l => negb (existsb (Nat.eqb l)
                                    (queued_matches j w))) (queued w))
                | None => []
                end = []).
  { destruct (pr j) as [p|] eqn:Hpj; [|done].
    rewrite (search_by_pr_number_ext _ (heap w)) by done.
    unfold MurdockJobList.search_by_pr_number at 1.
    apply filter_filter_nil. intros x Hx Hm.
    rewrite existsb_eqb_in; [done|].
    unfold queued_matches. rewrite Hpj. apply in_or_app. left.
    unfold MurdockJobList.search_by_pr_number. by apply filter_In. }
  assert (Hrf : match ref j with
                | Some r => MurdockJobList.search_by_ref (heap w') r
                    (List.filter (fun l => negb (existsb (Nat.eqb l)
                                    (queued_matches j w))) (queued w))
                | None => []
                end = []).
  { destruct (ref j) as [r|] eqn:Hrj; [|done].
    rewrite (search_by_ref_ext _ (heap w)) by done.
    unfold MurdockJobList.search_by_ref at 1.
    apply filter_filter_nil. intros x Hx Hm.
    rewrite existsb_eqb_in; [done|].
    unfold queued_matches. rewrite Hrj. apply in_or_app. right.
    unfold MurdockJobList.search_by_ref. by apply filter_In. }
  by rewrite Hpr, Hrf.
Qed.

Lemma cancel_queued_jobs_matching_run (A : Adapters) (job : loc)
    (j : MurdockJob) (w : World) :
  heap w !! job = Some j →
  cancel_queued_jobs_matching A job w
  = (Ok (queued_matches j w),
     exec (for_each (queued_matches j w) (cancel_queued_job A false)) w).
Proof.
  intros Hj. unfold cancel_queued_jobs_matching.
  unfold bind at 1. rewrite (get_job_run job j w Hj).
  step_gets.
  step_gets.
  cbv beta. fold (queued_matches j w).
  destruct (cancel_loop A (queued_matches j w) w) as (w' & Hrun & _).
  { intros k Hk. by eapply queued_matches_valid. }
  unfold bind, exec. by rewrite Hrun.
Qed.

Lemma stop_running_jobs_matching_run (A : Adapters) (job : loc)
    (j : MurdockJob) (w : World) :
  heap w !! job = Some j →
  stop_running_jobs_matching A job w
  = (Ok (running_matches j w),
     set_trace (trace w ++ flat_map (stop_events A (heap w))
                             (running_matches j w)) w).
Proof.
  intros Hj. unfold stop_running_jobs_matching.
  unfold bind at 1. rewrite (get_job_run job j w Hj).
  step_gets.
  step_gets.
  cbv beta. fold (running_matches j w).
  unfold bind at 1. rewrite stop_loop; [done|].
  intros k Hk. by eapply running_matches_valid.
Qed.

Lemma disable_jobs_matching_run (A : Adapters) (job : loc)
    (j : MurdockJob) (w : World) :
  heap w !! job = Some j →
  let wc := exec (for_each (queued_matches j w)
                    (cancel_queued_job A false)) w in
  let stopped := running_matches j w in
  exec (disable_jobs_matching A job) w
  = set_trace
      (trace wc ++ flat_map (stop_events A (heap wc)) stopped
       ++ match (queued_matches j w ++ stopped)%list with
          | [] => []
          | _ :: _ => sends reload_message w
          end)
      wc.
Proof.
  intros Hj wc stopped.
  destruct (cancel_loop A (queued_matches j w) w)
    as (w' & Hrun & Hr & Hc & _ & _ & _ & _ & Ht & _).
  { intros k Hk. by eapply queued_matches_valid. }
  assert (Hwc : wc = w') by (unfold wc, exec; by rewrite Hrun).
  destruct (heap w' !! job) as [jc|] eqn:Hjc.
  2:{ specialize (Ht job). rewrite Hjc, Hj in Ht. done. }
  assert (Htc : trigger jc = trigger j).
  { specialize (Ht job). rewrite Hjc, Hj in Ht. simpl in Ht. congruence. }
  unfold exec, disable_jobs_matching.
  unfold bind at 1. rewrite (cancel_queued_jobs_matching_run A job j w Hj).
  fold wc. rewrite Hwc.
  unfold bind at 1. rewrite (stop_running_jobs_matching_run A job jc w' Hjc).
  rewrite (running_matches_ext j jc w w') by done. fold stopped.
  unfold bind at 1.
  destruct (queued_matches j w ++ stopped)%list eqn:Hd.
  - unfold ret. simpl. by rewrite app_nil_r.
  - rewrite reload_run. simpl. unfold sends. simpl. rewrite Hc.
    rewrite <- app_assoc.
    by destruct (notify_outcome A reload_message (clients w)).
Qed.

(** C7 (as the code has it): a second [disable_jobs_matching] for the
    same job, right after the first, leaves the waiting list, the running
    pool, both queues and every job object as the first left them, and
    cancels nothing. It is not idle on the adapters, though: stopping a
    job does not take it out of the running pool, so every running job
    that matches is stopped once more and gets a second "Stopped" status,
    and the reload is broadcast again. The second call changes nothing at
    all exactly when no running job matches. *)
Theorem disable_jobs_matching_twice
    (A : Adapters) (job : loc) (j : MurdockJob) (w : World) :
  heap w !! job = Some j →
  let w1 := exec (disable_jobs_matching A job) w in
  let w2 := exec (disable_jobs_matching A job) w1 in
  let stopped := running_matches j w in
  w2 = set_trace (trace w2) w1
  ∧ running w1 = running w
  ∧ trace w2
    = (trace w1 ++ flat_map (stop_events A (heap w1)) stopped
       ++ match stopped with
          | [] => []
          | _ :: _ => sends reload_message w1
          end)%list
  ∧ (w2 = w1 ↔ stopped = []).
Proof.
  intros Hj w1 w2 stopped.
  destruct (cancel_loop A (queued_matches j w) w)
    as (wc & Hrun & Hr & Hc & _ & _ & _ & _ & Ht & Hq).
  { intros k Hk. by eapply queued_matches_valid. }
  assert (Hw1 : w1 = set_trace (trace w1) wc).
  { unfold w1. rewrite (disable_jobs_matching_run A job j w Hj).
    unfold exec. by rewrite Hrun. }
  assert (Hh1 : heap w1 = heap wc) by by rewrite Hw1.
  assert (Hq1 : queued w1 = queued wc) by by rewrite Hw1.
  assert (Hr1 : running w1 = running w) by by rewrite Hw1.
  assert (Ht1 : ∀ l, trigger <$> heap w1 !! l = trigger <$> heap w !! l).
  { intros l. by rewrite Hh1. }
  destruct (heap w1 !! job) as [jc|] eqn:Hjc.
  2:{ specialize (Ht1 job). by rewrite Hjc, Hj in Ht1. }
  assert (Htc : trigger jc = trigger j).
  { specialize (Ht1 job). rewrite Hjc, Hj in Ht1. simpl in Ht1. congruence. }
  assert (Hnone : queued_matches jc w1 = []).
  { apply (queued_matches_after_cancel j jc w w1); [done|done|].
    by rewrite Hq1. }
  assert (Hsame : running_matches jc w1 = stopped).
  { by apply running_matches_ext. }
  assert (Hw2 : w2 = set_trace
                  (trace w1 ++ flat_map (stop_events A (heap w1)) stopped
                   ++ match stopped with
                      | [] => []
                      | _ :: _ => sends reload_message w1
                      end) w1).
  { unfold w2. rewrite (disable_jobs_matching_run A job jc w1 Hjc).
    rewrite Hnone, Hsame. reflexivity. }
  split; [by rewrite Hw2|]. split; [done|]. split; [by rewrite Hw2|].
  split.
  - intros Heq. rewrite Heq in Hw2. apply (f_equal trace) in Hw2.
    simpl in Hw2. apply (f_equal List.length) in Hw2.
    rewrite length_app in Hw2.
    destruct stopped as [|k ks]; [done|]. exfalso.
    simpl in Hw2. rewrite !length_app in Hw2.
    assert (0 < List.length (stop_events A (heap w1) k))%nat.
    { unfold stop_events. destruct (heap w1 !! k); simpl; lia. }
    lia.
  - intros Hs. rewrite Hw2, Hs. simpl. by rewrite app_nil_r, set_trace_id.
Qed.

Lemma disable_jobs_matching_twice_witness :
  let w1 := exec (disable_jobs_matching Scenario.adapters 4%nat)
              Scenario.world in
  let w2 := exec (disable_jobs_matching Scenario.adapters 4%nat) w1 in
  running w1 = running Scenario.world
  ∧ trace w2
    = (trace w1
       ++ [JobStop 3%nat;
           SetCommitStatus "ddd" (pending_status Scenario.adapters "Stopped");
           SendText 1%nat reload_message])%list.
Proof.
  pose proof (disable_jobs_matching_twice Scenario.adapters 4%nat
                (Scenario.job_on_pr "eee") Scenario.world eq_refl)
    as (_ & Hr & Ht & _).
  split; [exact Hr|]. rewrite Ht. reflexivity.
Defined.

(** C7, the claim as stated fails: pull request 7 has job 3 running. The
    second [disable_jobs_matching] for a job on that pull request is not
    idle: it stops job 3 again, posts "Stopped" again and broadcasts the
    reload again, so the sequence of adapter calls grows. *)
Lemma disable_jobs_matching_twice_not_idle :
  let w1 := exec (disable_jobs_matching Scenario.adapters 4%nat)
              Scenario.world in
  let w2 := exec (disable_jobs_matching Scenario.adapters 4%nat) w1 in
  w2 ≠ w1
  ∧ List.filter is_commit_status (trace w2)
    ≠ List.filter is_commit_status (trace w1).
Proof.
  split.
  - intros H. apply (f_equal (fun x => List.length (trace x))) in H.
    vm_compute in H. discriminate H.
  - intros H. apply (f_equal (@List.length _)) in H.
    vm_compute in H. discriminate H.
Qed.

(** ** Labeled pull requests *)

Lemma elem_of_insert_sorted (x y : string) (l : list string) :
  In x (Py.insert_sorted y l) ↔ x = y ∨ In x l.
Proof.
  induction l as [|z l IH]; simpl.
  - split; [intros [H|[]]; by left | intros [H|[]]; by left].
  - destruct (String.leb y z); simpl.
    + split; [intros [H|H]; auto | intros [H|H]; auto].
    + rewrite IH. split; [intros [H|[H|H]]; auto | intros [H|[H|H]]; auto].
Qed.

Lemma str_in_sorted (x : string) (l : list string) :
  Py.str_in x (Py.sorted l) = Py.str_in x l.
Proof.
  apply eq_true_iff_eq. rewrite !str_in_spec, !list_elem_of_In.
  induction l as [|y l IH]; simpl; [done|].
  rewrite elem_of_insert_sorted, IH. split; intros [H|H]; auto.
Qed.

Lemma any_line_matches_pure (A : Adapters) (pattern : string)
    (lines : list string) (w : World) :
  snd (any_line_matches A pattern lines w) = w.
Proof.
  induction lines as [|line lines IH]; simpl; [done|].
  destruct (String.eqb line ""); [done|].
  by destruct (re_match A pattern line) as [[|]|].
Qed.

Lemma handle_skip_job_world (A : Adapters) (job : loc) (j : MurdockJob)
    (w : World) :
  heap w !! job = Some j →
  (∃ e, handle_skip_job A job w = (Raise e, w))
  ∨ handle_skip_job A job w = (Ok false, w)
  ∨ handle_skip_job A job w
    = (Ok true,
       set_trace (trace w ++ [SetCommitStatus (sha (commit j))
                                skipped_status]) w).
Proof.
  intros Hj.
  set (pattern :=
    "^(" +:+ Py.join "|" (commit_skip_keywords (config j)) +:+ ")$").
  set (lines := Py.split Re.newline (message (commit j))).
  assert (Heq : handle_skip_job A job w
    = match any_line_matches A pattern lines w with
      | (Ok true, w0) =>
          (Ok true,
           set_trace (trace w0 ++ [SetCommitStatus (sha (commit j))
                                     skipped_status]) w0)
      | (Ok false, w0) => (Ok false, w0)
      | (Raise e, w0) => (Raise e, w0)
      end).
  { unfold handle_skip_job, bind. rewrite (get_job_run job j w Hj).
    fold pattern lines.
    by destruct (any_line_matches A pattern lines w) as [[[|]|e] w0]. }
  rewrite Heq.
  pose proof (any_line_matches_pure A pattern lines w) as Hp.
  destruct (any_line_matches A pattern lines w) as [[[|]|e] w0];
    simpl in Hp; subst w0.
  - right. right. reflexivity.
  - right. left. reflexivity.
  - left. by exists e.
Qed.

(** C2 (as the code has it): for a pull-request event with action
    "labeled", when a ready label is configured and is not among the
    labels of the pull request, [handle_pull_request_event] schedules no
    job, and does so by returning before the ready-label policy: it
    cancels and stops nothing and posts no "label not set" status. The
    waiting list, the running pool, both queues, the database and every
    existing job object are left as they were; at most the candidate job
    object was created, and the only status it can have posted is "The
    build was skipped.". *)
Theorem labeled_without_ready_label_is_ignored
    (A : Adapters) (event : PullRequestEvent) (rl : string) (w : World) :
  action event = Some "labeled" →
  ready_label A = Some rl →
  rl ∉ pr_labels (pull_request event) →
  let w' := exec (handle_pull_request_event A event) w in
  (∃ created posted,
      w' = set_trace (trace w ++ posted) (set_heap (heap w ++ created) w)
      ∧ (posted = []
         ∨ ∃ s, posted = [SetCommitStatus s skipped_status]))
  ∧ queued w' = queued w ∧ running w' = running w
  ∧ queue w' = queue w ∧ fasttrack_queue w' = fasttrack_queue w
  ∧ db w' = db w
  ∧ (∀ l j, heap w !! l = Some j → heap w' !! l = Some j)
  ∧ (∀ s, SetCommitStatus s (label_not_set_status A) ∉ trace w → 
          SetCommitStatus s (label_not_set_status A) ∉ trace w').
Proof.
  intros Hact Hrl Hnot w'.
  assert (Hshape : ∃ created posted,
      w' = set_trace (trace w ++ posted) (set_heap (heap w ++ created) w)
      ∧ (posted = []
         ∨ ∃ s, posted = [SetCommitStatus s skipped_status])).
  { assert (Hsame : w = set_trace (trace w ++ [])
                          (set_heap (heap w ++ []) w)).
    { rewrite !app_nil_r. by destruct w. }
    unfold w', exec, handle_pull_request_event. rewrite Hact.
    change (negb (Py.str_in "labeled" ALLOWED_ACTIONS)) with false.
    cbv iota.
    destruct (fetch_commit_info A _) as [c|]; simpl.
    2:{ exists [], []. split; [exact Hsame | by left]. }
    unfold bind at 1. unfold new_job at 1.
    set (nj := {| uid := _ |}).
    set (wa := set_heap (heap w ++ [nj]) w).
    assert (Hnj : heap wa !! List.length (heap w) = Some nj).
    { unfold wa. simpl. by apply list_lookup_middle. }
    unfold bind at 1.
    destruct (handle_skip_job_world A _ nj wa Hnj) as [[e He]|[He|He]];
      rewrite He.
    - exists [nj], []. split; [|by left].
      unfold wa. rewrite app_nil_r. by destruct w.
    - unfold pull_request_policy. simpl.
      destruct (label_name event) as [label|]; simpl.
      + rewrite Hrl. simpl.
        rewrite str_in_sorted.
        assert (Hin : Py.str_in rl (pr_labels (pull_request event)) = false).
        { apply not_true_is_false. by rewrite str_in_spec. }
        rewrite Hin. simpl.
        exists [nj], []. split; [|by left].
        unfold wa. rewrite app_nil_r. by destruct w.
      + exists [nj], []. split; [|by left].
        unfold wa. rewrite app_nil_r. by destruct w.
    - exists [nj], [SetCommitStatus (sha (commit nj)) skipped_status].
      split; [done | right; by eexists]. }
  destruct Hshape as (created & posted & Hw' & Hposted).
  split; [by exists created, posted|].
  rewrite Hw'. simpl. repeat split; try done.
  - intros l j Hl. by apply lookup_app_l_Some.
  - intros s Hs Hin. apply elem_of_app in Hin as [Hin|Hin]; [done|].
    destruct Hposted as [->|[s' ->]].
    + inversion Hin.
    + apply list_elem_of_singleton in Hin.
      apply (f_equal (fun e => match e with
                               | SetCommitStatus _ st => description st
                               | _ => ""
                               end)) in Hin.
      simpl in Hin. discriminate Hin.
Qed.

Lemma labeled_without_ready_label_is_ignored_witness :
  let w' := exec (handle_pull_request_event Scenario.adapters
                    Scenario.labeled_bug) Scenario.world in
  queued w' = queued Scenario.world
  ∧ queue w' = queue Scenario.world
  ∧ fasttrack_queue w' = fasttrack_queue Scenario.world.
Proof.
  assert (Hnot : "CI: ready for build"
                 ∉ pr_labels (pull_request Scenario.labeled_bug)).
  { intros H. apply list_elem_of_In in H. simpl in H.
    destruct H as [H|[]]. discriminate H. }
  pose proof (labeled_without_ready_label_is_ignored Scenario.adapters
                Scenario.labeled_bug "CI: ready for build" Scenario.world
                eq_refl eq_refl Hnot) as (_ & Hq & _ & Hn & Hf & _).
  split; [exact Hq|]. split; [exact Hn | exact Hf].
Defined.

(** C2, the claim as stated fails: pull request 7 gets the label "bug"
    while it lacks the ready label, and job 2 waits for that pull
    request. The handler posts no status at all, and job 2 stays in the
    waiting list with its [canceled] flag unset. *)
Lemma labeled_without_ready_label_posts_no_status :
  let w' := exec (handle_pull_request_event Scenario.adapters
                    Scenario.labeled_bug) Scenario.world in
  In 2%nat (MurdockJobList.search_by_pr_number (heap Scenario.world) 7
              (queued Scenario.world))
  ∧ existsb is_commit_status (trace w') = false
  ∧ In 2%nat (queued w')
  ∧ canceled <$> heap w' !! 2%nat = Some false.
Proof. vm_compute. repeat split; auto. Qed.

(** ** Deleted refs *)

(** C1, what the code does: the topic branch is deleted while job 0 waits
    and job 1 runs on it. [handle_push_event] applies the queued-job
    cancellation to the running job 1 and the running-job stop to the
    waiting job 0: job 0 stays in the waiting list with [canceled] unset
    and gets the "Stopped" status, job 1 is never stopped and gets the
    "Canceled" status. *)
Theorem handle_push_event_deleted_ref_swaps_cancel_and_stop :
  let w' := exec (handle_push_event Scenario.adapters Scenario.topic_deleted)
              Scenario.world_idle in
  MurdockJobList.search_by_ref (heap Scenario.world_idle) Scenario.topic
    (queued Scenario.world_idle) = [0%nat]
  ∧ MurdockJobPool.search_by_ref (heap Scenario.world_idle) Scenario.topic
      (running Scenario.world_idle) = [1%nat]
  ∧ queued w' = [0%nat; 2%nat]
  ∧ canceled <$> heap w' !! 0%nat = Some false
  ∧ canceled <$> heap w' !! 1%nat = Some true
  ∧ trace w'
    = [SetCommitStatus "bbb" (pending_status Scenario.adapters "Canceled");
       SendText 1%nat reload_message;
       JobStop 0%nat;
       SetCommitStatus "aaa" (pending_status Scenario.adapters "Stopped");
       SendText 1%nat reload_message].
Proof. vm_compute. repeat split. Qed.

Lemma stop_and_reload_frame (A : Adapters) (k : loc) (w : World) :
  ∃ r t, stop_running_job A true k w = (r, set_trace t w).
Proof.
  unfold stop_running_job. unfold bind at 1.
  unfold emit at 1, modify at 1.
  unfold bind at 1. unfold get_job at 1. simpl heap.
  destruct (heap w !! k) as [jk|]; [|by eexists _, _].
  unfold bind at 1. unfold set_commit_status at 1, emit at 1, modify at 1.
  unfold bind at 1. rewrite reload_run. simpl.
  destruct (notify_outcome A reload_message (clients w));
    by eexists _, _.
Qed.

Lemma stop_and_reload_loop_frame (A : Adapters) (ks : list loc) (w : World) :
  ∃ t, exec (for_each ks (fun job => stop_running_job A true job >> ret tt)) w
       = set_trace t w.
Proof.
  revert w. induction ks as [|k ks IH]; intros w.
  - exists (trace w). unfold exec. simpl. by rewrite set_trace_id.
  - unfold exec. simpl for_each. unfold bind at 1. unfold bind at 1.
    destruct (stop_and_reload_frame A k w) as (r & t & Hr). rewrite Hr.
    destruct r as [x|e]; [|by eexists].
    unfold ret at 1.
    destruct (IH (set_trace t w)) as [t' Ht']. unfold exec in Ht'.
    rewrite Ht'. by eexists.
Qed.

(** The same transposition in general: when a ref is deleted and none of
    its jobs is running, the handler goes through the deletion branch
    without cancelling anything: the waiting list and every job object
    are as before, whatever waits on that ref. *)
Lemma deleted_ref_never_cancels_waiting_jobs
    (A : Adapters) (event : PushEvent) (ref_type ref_name : string)
    (w : World) :
  Py.last_two (Py.split "/" (push_ref event)) = [ref_type; ref_name] →
  after event = ZERO_SHA →
  MurdockJobPool.search_by_ref (heap w) (push_ref event) (running w) = [] →
  let w' := exec (handle_push_event A event) w in
  queued w' = queued w ∧ heap w' = heap w ∧ queue w' = queue w
  ∧ fasttrack_queue w' = fasttrack_queue w.
Proof.
  intros Hsplit Hafter Hnone w'.
  assert (Hw : ∃ t, w' = set_trace t w).
  { unfold w', exec, handle_push_event.
    rewrite Hsplit, Hafter, String.eqb_refl.
    step_gets. rewrite Hnone.
    unfold bind at 1. simpl for_each. unfold ret at 1.
    step_gets.
    destruct (stop_and_reload_loop_frame A
                (MurdockJobList.search_by_ref (heap w) (push_ref event)
                   (queued w)) w) as [t Ht].
    unfold exec in Ht. rewrite Ht. by exists t. }
  destruct Hw as [t ->]. done.
Qed.

(** ** Shutdown *)

Lemma for_each_set_cancelled (ks : list loc) (w : World) :
  ∀ l, canceled <$> heap (exec (for_each ks (fun job =>
                                  update_job job (set_cancelled true))) w) !! l
       = canceled <$> heap w !! l.
Proof.
  revert w. induction ks as [|k ks IH]; intros w l; [done|].
  unfold exec. simpl. unfold bind at 1.
  destruct (heap w !! k) as [jk|] eqn:Hk.
  - rewrite (update_job_run k jk _ w Hk). fold (exec (for_each ks (fun job =>
      update_job job (set_cancelled true)))
      (set_heap (<[k:=set_cancelled true jk]> (heap w)) w)).
    rewrite IH. simpl. destruct (decide (k = l)) as [->|Hne].
    + by rewrite (lookup_updated l jk _ _ Hk), Hk.
    + by rewrite list_lookup_insert_ne.
  - unfold update_job, bind, get_job. by rewrite Hk.
Qed.

Lemma for_each_stop_slots (slots : list (option loc)) (w : World) :
  for_each slots (fun slot => match slot with
                              | Some job => emit (JobStop job)
                              | None => ret tt
                              end) w
  = (Ok tt,
     set_trace (trace w ++ map JobStop (MurdockJobPool.occupied slots)) w).
Proof.
  revert w. induction slots as [|s slots IH]; intros w; simpl.
  - by rewrite app_nil_r, set_trace_id.
  - unfold bind at 1. destruct s as [k|]; simpl.
    + unfold emit at 1, modify at 1. rewrite IH. simpl.
      by rewrite <- app_assoc.
    + unfold ret at 1. by rewrite IH.
Qed.

(** [shutdown] never writes the [canceled] attribute: every job object
    has it after the shutdown as it had it before. *)
Lemma shutdown_keeps_canceled (w : World) (l : loc) :
  canceled <$> heap (exec shutdown w) !! l = canceled <$> heap w !! l.
Proof.
  unfold exec, shutdown.
  step_emit.
  step_gets.
  unfold bind at 1. rewrite for_each_emit.
  step_gets.
  unfold bind at 1.
  set (wa := set_trace _ _).
  pose proof (for_each_set_cancelled (queued wa) wa l) as Hc.
  unfold exec in Hc.
  destruct (for_each (queued wa) _ wa) as [[[]|e] wb]; simpl in Hc.
  - step_gets.
    rewrite (for_each_stop_slots (running wb) wb). simpl. by rewrite Hc.
  - simpl. by rewrite Hc.
Qed.

(** C5, what the code does: jobs 0 and 2 wait when [shutdown] runs. It
    assigns the attribute [cancelled]; the attribute [canceled], which the
    worker reads, is still unset on both, so the worker that takes job 0
    off the queue afterwards prepares it and starts the build. The running
    job 1 is stopped, as claimed. *)
Theorem shutdown_does_not_cancel_waiting_jobs :
  let w1 := exec shutdown Scenario.world_idle in
  let w2 := exec (_process_job Scenario.adapters 0%nat) w1 in
  queued Scenario.world_idle = [0%nat; 2%nat]
  ∧ canceled <$> heap w1 !! 0%nat = Some false
  ∧ canceled <$> heap w1 !! 2%nat = Some false
  ∧ cancelled <$> heap w1 !! 0%nat = Some (Some true)
  ∧ trace w1 = [DbClose; WsClose 1%nat; JobStop 1%nat]
  ∧ In (JobExecute 0%nat) (trace w2).
Proof. vm_compute. repeat split; auto 10. Qed.

(** What [shutdown] does for the running jobs: when the waiting jobs are
    objects of the store, it calls [stop] on every job that occupies a
    slot of the running pool. *)
Lemma shutdown_stops_running_jobs (w : World) (k : loc) :
  (∀ l, In l (queued w) → is_Some (heap w !! l)) →
  In (Some k) (running w) →
  In (JobStop k) (trace (exec shutdown w)).
Proof.
  intros Hv Hk. unfold exec, shutdown.
  step_emit.
  step_gets.
  unfold bind at 1. rewrite for_each_emit.
  step_gets.
  unfold bind at 1.
  set (wa := set_trace _ _).
  assert (Hloop : ∀ ks w0,
    (∀ l, In l ks → is_Some (heap w0 !! l)) →
    ∃ h, for_each ks (fun job => update_job job (set_cancelled true)) w0
         = (Ok tt, set_heap h w0)).
  { induction ks as [|l ks IH]; intros w0 Hv0.
    - exists (heap w0). simpl. unfold ret. by destruct w0.
    - destruct (Hv0 l) as [jl Hl]; [by left|].
      simpl. unfold bind at 1. rewrite (update_job_run l jl _ w0 Hl).
      destruct (IH (set_heap (<[l:=set_cancelled true jl]> (heap w0)) w0))
        as [h Hh].
      + intros l' Hl'. simpl.
        apply lookup_lt_is_Some. rewrite length_insert.
        apply lookup_lt_is_Some. apply Hv0. by right.
      + rewrite Hh. by exists h. }
  destruct (Hloop (queued wa) wa) as [h Hh]; [exact Hv|].
  rewrite Hh. step_gets.
  rewrite for_each_stop_slots. simpl.
  apply in_or_app. right. apply in_map.
  unfold MurdockJobPool.occupied. apply list_elem_of_In.
  apply list_elem_of_omap. exists (Some k). split; [|done].
  by apply list_elem_of_In.
Qed.

(** * Further properties *)

(** ** Frame rules *)

Section FrameRules.

Context {R : World → World → Prop} `{!PreOrder R}.

Lemma preserves_ret {X} (x : X) : preserves R (ret x).
Proof. intros w. unfold exec, ret. simpl. reflexivity. Qed.

Lemma preserves_raise {X} (e : Exn) : preserves R (@raise X e).
Proof. intros w. unfold exec, raise. simpl. reflexivity. Qed.

Lemma preserves_gets {X} (f : World → X) : preserves R (gets f).
Proof. intros w. unfold exec, gets. simpl. reflexivity. Qed.

Lemma preserves_lift {X} (x : Res X) : preserves R (lift x).
Proof. intros w. unfold exec, lift. simpl. reflexivity. Qed.

Lemma preserves_get_job (job : loc) : preserves R (get_job job).
Proof.
  intros w. unfold exec, get_job. destruct (heap w !! job); simpl; reflexivity.
Qed.

Lemma preserves_get_query (q : loc) : preserves R (get_query q).
Proof.
  intros w. unfold exec, get_query.
  destruct (queries w !! q); simpl; reflexivity.
Qed.

Lemma preserves_bind {X Y} (m : M X) (k : X → M Y) :
  preserves R m → (∀ x, preserves R (k x)) → preserves R (bind m k).
Proof.
  intros Hm Hk w. unfold exec, bind. specialize (Hm w). unfold exec in Hm.
  destruct (m w) as [[x|e] w1]; simpl in *; [|done].
  etransitivity; [exact Hm|]. apply Hk.
Qed.

Lemma preserves_for_each {X} (l : list X) (body : X → M unit) :
  (∀ x, preserves R (body x)) → preserves R (for_each l body).
Proof.
  intros Hb. induction l as [|x l IH]; simpl.
  - apply preserves_ret.
  - apply preserves_bind; [apply Hb | intros _; exact IH].
Qed.

Lemma preserves_modify (f : World → World) :
  (∀ w, R w (f w)) → preserves R (modify f).
Proof. intros Hf w. unfold exec, modify. simpl. apply Hf. Qed.

Lemma preserves_emit (e : Event) :
  (∀ w t, R w (set_trace t w)) → preserves R (emit e).
Proof. intros Ht. apply preserves_modify. intros w. apply Ht. Qed.

Lemma preserves_update_job (job : loc) (f : MurdockJob → MurdockJob) :
  (∀ w j, heap w !! job = Some j →
          R w (set_heap (<[job := f j]> (heap w)) w)) →
  preserves R (update_job job f).
Proof.
  intros Hh w. unfold exec, update_job, bind, get_job, modify.
  destruct (heap w !! job) as [j|] eqn:Hj; simpl; [by apply Hh | reflexivity].
Qed.

Lemma preserves_update_query (q : loc) (f : JobQueryModel → JobQueryModel) :
  (∀ w x, R w (set_queries x w)) → preserves R (update_query q f).
Proof.
  intros Hq w. unfold exec, update_query, bind, get_query, modify.
  destruct (queries w !! q); simpl; [apply Hq | reflexivity].
Qed.

Lemma preserves_notify (A : Adapters) (msg : string) :
  (∀ w t, R w (set_trace t w)) → preserves R (notify_message_to_clients A msg).
Proof. intros Ht w. unfold exec. rewrite notify_run. simpl. apply Ht. Qed.

End FrameRules.

Global Instance keeps_preorder {B} (proj : World → B) : PreOrder (keeps proj).
Proof.
  split.
  - by intros w.
  - intros w1 w2 w3 H12 H23. unfold keeps in *. congruence.
Qed.

Global Instance no_new_waiting_preorder : PreOrder no_new_waiting.
Proof.
  split.
  - by intros w k.
  - intros w1 w2 w3 H12 H23 k Hk. apply H12, H23, Hk.
Qed.

(** Breaks a frame goal down along the structure of the coroutine. *)
Ltac frame_step :=
  match goal with
  | |- preserves _ (bind _ _) => apply preserves_bind; [|intros ?]
  | |- preserves _ (ret _) => apply preserves_ret
  | |- preserves _ (raise _) => apply preserves_raise
  | |- preserves _ (gets _) => apply preserves_gets
  | |- preserves _ (lift _) => apply preserves_lift
  | |- preserves _ (get_job _) => apply preserves_get_job
  | |- preserves _ (get_query _) => apply preserves_get_query
  | |- preserves _ (for_each _ _) => apply preserves_for_each; intros ?
  | |- preserves _ (modify _) => apply preserves_modify; intros ?
  | |- preserves _ (emit _) => apply preserves_emit; intros ? ?
  | |- preserves _ (set_commit_status _ _) =>
      apply preserves_emit; intros ? ?
  | |- preserves _ (update_job _ _) =>
      apply preserves_update_job; intros ? ? ?
  | |- preserves _ (update_query _ _) =>
      apply preserves_update_query; intros ? ?
  | |- preserves _ (reload_jobs _) => apply preserves_notify; intros ? ?
  | |- preserves _ (notify_message_to_clients _ _) =>
      apply preserves_notify; intros ? ?
  | |- preserves _ (if ?b then _ else _) => destruct b
  | |- preserves _ (match ?x with _ => _ end) => destruct x
  end.

Ltac frame := repeat frame_step.

(** ** What the operations leave alone *)

Ltac unfold_ops :=
  unfold handle_pull_request_event, pull_request_policy, handle_push_event,
    restart_job, schedule_job, add_job_to_queue, disable_jobs_matching,
    cancel_queued_jobs_matching, stop_running_jobs_matching,
    cancel_queued_job, stop_running_job, handle_skip_job, shutdown,
    _process_job, job_prepare, job_finalize, remove_finished_jobs.

Lemma preserves_any_line_matches {R : World → World → Prop} `{!PreOrder R}
    (A : Adapters) (pattern : string) (lines : list string) :
  preserves R (any_line_matches A pattern lines).
Proof.
  induction lines as [|line lines IH]; simpl; [apply preserves_ret|].
  destruct (String.eqb line ""); [done|].
  destruct (re_match A pattern line) as [[|]|];
    [apply preserves_ret | done | apply preserves_raise].
Qed.

Lemma preserves_new_job {R : World → World → Prop} `{!PreOrder R}
    (A : Adapters) c p r cfg :
  (∀ w h, R w (set_heap h w)) → preserves R (new_job A c p r cfg).
Proof. intros Hh w. unfold exec, new_job. simpl. apply Hh. Qed.

Ltac frame_more :=
  repeat first
    [ frame_step
    | apply preserves_any_line_matches
    | apply preserves_new_job; intros ? ? ].

Lemma pool_add_length (job : loc) (slots : list (option loc)) :
  List.length (MurdockJobPool.add job slots) = List.length slots.
Proof.
  induction slots as [|[k|] slots IH]; simpl; [done| |done]. by rewrite IH.
Qed.

Lemma pool_remove_length (job : loc) (slots : list (option loc)) :
  List.length (MurdockJobPool.remove job slots) = List.length slots.
Proof. unfold MurdockJobPool.remove. apply length_map. Qed.


(** ** The observer registry *)

Lemma ws_in_spec (ws : WebSocket) (l : list WebSocket) :
  ws_in ws l = true ↔ In ws l.
Proof.
  unfold ws_in. rewrite existsb_exists. split.
  - intros (x & Hx & He). apply Nat.eqb_eq in He. by subst.
  - intros H. exists ws. split; [done | apply Nat.eqb_refl].
Qed.

Lemma remove_first_ws_in (ws x : WebSocket) (l : list WebSocket) :
  In x (remove_first_ws ws l) → In x l.
Proof.
  induction l as [|y l IH]; simpl; [done|].
  destruct (Nat.eqb y ws); [by right|].
  intros [H|H]; [by left | right; by apply IH].
Qed.

Lemma remove_first_ws_nodup (ws : WebSocket) (l : list WebSocket) :
  NoDup l → NoDup (remove_first_ws ws l) ∧ ¬ In ws (remove_first_ws ws l).
Proof.
  induction l as [|y l IH]; simpl; intros Hnd.
  - split; [apply NoDup_nil_2 | intros []].
  - apply NoDup_cons in Hnd as [Hy Hl].
    destruct (Nat.eqb_spec y ws) as [->|Hne].
    + split; [done|]. intros H. apply Hy. by apply list_elem_of_In.
    + destruct (IH Hl) as [IH1 IH2]. split.
      * apply NoDup_cons. split; [|done]. intros H. apply Hy.
        apply list_elem_of_In. eapply remove_first_ws_in.
        by apply list_elem_of_In.
      * intros [H|H]; [done | by apply IH2].
Qed.

Lemma remove_first_ws_snoc (ws : WebSocket) (l : list WebSocket) :
  ¬ In ws l → remove_first_ws ws (l ++ [ws]) = l.
Proof.
  induction l as [|y l IH]; simpl; intros Hn.
  - by rewrite Nat.eqb_refl.
  - destruct (Nat.eqb_spec y ws) as [->|Hne]; [by destruct Hn; left|].
    rewrite IH; [done|]. intros H. apply Hn. by right.
Qed.

(** X1: the observer list never holds a connection twice. From a list
    without duplicates, [add_ws_client] and [remove_ws_client] give a list
    without duplicates; after [add_ws_client ws] the connection is
    subscribed, after [remove_ws_client ws] it is not. *)
Theorem ws_registry_keeps_clients_distinct (ws : WebSocket) (w : World) :
  NoDup (clients w) →
  NoDup (clients (exec (add_ws_client ws) w))
  ∧ ws ∈ clients (exec (add_ws_client ws) w)
  ∧ NoDup (clients (exec (remove_ws_client ws) w))
  ∧ ws ∉ clients (exec (remove_ws_client ws) w).
Proof.
  intros Hnd. unfold exec, add_ws_client, remove_ws_client, modify. simpl.
  destruct (ws_in ws (clients w)) eqn:Hin; simpl.
  - apply ws_in_spec in Hin.
    destruct (remove_first_ws_nodup ws (clients w) Hnd) as [H1 H2].
    repeat split; [done | by apply list_elem_of_In | done |].
    intros H. by apply list_elem_of_In in H.
  - assert (Hn : ws ∉ clients w).
    { intros H. apply list_elem_of_In, ws_in_spec in H. congruence. }
    repeat split; [| |done|done].
    + apply NoDup_app. split; [done|]. split.
      * intros x Hx Hx'. apply list_elem_of_singleton in Hx'. by subst.
      * apply NoDup_singleton.
    + apply elem_of_app. right. by apply list_elem_of_singleton.
Qed.

Lemma ws_registry_keeps_clients_distinct_witness :
  NoDup (clients (exec (add_ws_client 2%nat) Scenario.world))
  ∧ 2%nat ∈ clients (exec (add_ws_client 2%nat) Scenario.world)
  ∧ NoDup (clients (exec (remove_ws_client 1%nat) Scenario.world))
  ∧ 1%nat ∉ clients (exec (remove_ws_client 1%nat) Scenario.world).
Proof.
  assert (Hnd : NoDup (clients Scenario.world)).
  { simpl. apply NoDup_singleton. }
  destruct (ws_registry_keeps_clients_distinct 2%nat Scenario.world Hnd)
    as (H1 & H2 & _).
  destruct (ws_registry_keeps_clients_distinct 1%nat Scenario.world Hnd)
    as (_ & _ & H3 & H4).
  by repeat split.
Defined.

(** X2: subscribing twice is subscribing once, and unsubscribing a
    connection that was just subscribed for the first time gives the
    observer list back as it was. Unsubscribing a connection that is not
    subscribed changes nothing. *)
Theorem ws_registry_round_trip (ws : WebSocket) (w : World) :
  exec (add_ws_client ws) (exec (add_ws_client ws) w)
  = exec (add_ws_client ws) w
  ∧ (ws ∉ clients w →
     exec (remove_ws_client ws) (exec (add_ws_client ws) w) = w
     ∧ exec (remove_ws_client ws) w = w).
Proof.
  unfold exec, add_ws_client, remove_ws_client, modify. simpl. split.
  - destruct (ws_in ws (clients w)) eqn:Hin; simpl; [by rewrite Hin|].
    assert (Hin' : ws_in ws (clients w ++ [ws]) = true).
    { apply ws_in_spec, in_or_app. right. by left. }
    by rewrite Hin'.
  - intros Hn.
    assert (Hn' : ¬ In ws (clients w)).
    { intros H. by apply list_elem_of_In in H. }
    assert (Hin : ws_in ws (clients w) = false).
    { apply not_true_is_false. by rewrite ws_in_spec. }
    rewrite Hin. simpl.
    assert (Hin' : ws_in ws (clients w ++ [ws]) = true).
    { apply ws_in_spec, in_or_app. right. by left. }
    rewrite Hin'. rewrite remove_first_ws_snoc by done. by destruct w.
Qed.

Lemma ws_registry_round_trip_witness :
  exec (remove_ws_client 5%nat) (exec (add_ws_client 5%nat) Scenario.world)
  = Scenario.world.
Proof.
  apply (ws_registry_round_trip 5%nat Scenario.world).
  intros H. apply list_elem_of_In in H. simpl in H.
  destruct H as [H|[]]. discriminate H.
Defined.

(** ** Events that are turned away *)

Lemma split_chars_length_1 (c : ascii) (s : list ascii) :
  (∀ x, In x s → x ≠ c) → ∃ p, Py.split_chars c s = [p].
Proof.
  induction s as [|x s IH]; simpl; intros Hn; [by eexists|].
  destruct (Ascii.eqb_spec x c) as [->|Hne].
  - exfalso. by apply (Hn c); [left|].
  - destruct IH as [p Hp]; [intros y Hy; apply Hn; by right|].
    rewrite Hp. by eexists.
Qed.

(** X4: a push event whose ref holds no "/" cannot be unpacked into a ref
    type and a ref name: [handle_push_event] raises [ValueError] before
    anything else, deletion events included, and does nothing. *)
Theorem push_event_without_slash_raises
    (A : Adapters) (event : PushEvent) (w : World) :
  (∀ x, In x (String.list_ascii_of_string (push_ref event)) → x ≠ "/"%char) →
  handle_push_event A event w = (Raise ValueError, w).
Proof.
  intros Hn. unfold handle_push_event, Py.split.
  destruct (split_chars_length_1 "/" _ Hn) as [p Hp]. by rewrite Hp.
Qed.

Lemma push_event_without_slash_raises_witness :
  handle_push_event Scenario.adapters
    {| push_ref := "master"; after := ZERO_SHA |} Scenario.world
  = (Raise ValueError, Scenario.world).
Proof.
  apply push_event_without_slash_raises. simpl.
  intros x Hx. repeat (destruct Hx as [<-|Hx]; [discriminate|]). destruct Hx.
Defined.

(** X5: a push to a branch or a tag that the rules of the commit's
    configuration do not accept is dropped before a job object exists:
    [handle_push_event] returns and the world is untouched; when the rules
    make [handle_ref] raise, so does the handler, with the world
    untouched too. *)
Theorem push_to_refused_ref_creates_nothing
    (A : Adapters) (event : PushEvent) (ref_type ref_name : string)
    (c : CommitModel) (w : World) :
  Py.last_two (Py.split "/" (push_ref event)) = [ref_type; ref_name] →
  after event ≠ ZERO_SHA →
  fetch_commit_info A (after event) = Some c →
  let cfg := fetch_murdock_config A (sha c) in
  let rules := if String.eqb ref_type "heads" then Some (push_branches cfg)
               else if String.eqb ref_type "tags" then Some (push_tags cfg)
               else None in
  ∀ rs, rules = Some rs →
    (handle_ref A ref_name rs = Ok false →
     handle_push_event A event w = (Ok tt, w))
    ∧ (∀ e, handle_ref A ref_name rs = Raise e →
       handle_push_event A event w = (Raise e, w)).
Proof.
  intros Hsplit Hafter Hc cfg rules rs Hrules.
  unfold handle_push_event. rewrite Hsplit.
  apply String.eqb_neq in Hafter. rewrite Hafter, Hc. fold cfg.
  unfold rules in Hrules.
  destruct (String.eqb ref_type "heads") eqn:Hh.
  - injection Hrules as <-. split.
    + intros Hr. unfold bind, lift, ret. by rewrite Hr.
    + intros e Hr. unfold bind, lift, ret. by rewrite Hr.
  - destruct (String.eqb ref_type "tags") eqn:Ht; [|done].
    injection Hrules as <-. split.
    + intros Hr. unfold bind, lift, ret. by rewrite Hr.
    + intros e Hr. unfold bind, lift, ret. by rewrite Hr.
Qed.

Lemma push_to_refused_ref_creates_nothing_witness :
  handle_push_event Cases.adapters
    {| push_ref := "refs/heads/main"; after := "abc" |} Scenario.world
  = (Ok tt, Scenario.world).
Proof.
  apply (push_to_refused_ref_creates_nothing Cases.adapters
           {| push_ref := "refs/heads/main"; after := "abc" |}
           "heads" "main"
           {| sha := "abc"; message := "Fix the build"; author := "alice" |}
           Scenario.world
           eq_refl ltac:(discriminate) eq_refl ["dev"; "release/.*"] eq_refl).
  reflexivity.
Defined.

(** ** The worker on one job *)

Lemma job_finalize_result (A : Adapters) (job : loc) (j : MurdockJob)
    (w : World) :
  heap w !! job = Some j →
  eval (job_finalize A job) w = notify_outcome A reload_message (clients w).
Proof.
  intros Hj. unfold eval, job_finalize.
  step_gets.
  unfold bind at 1. rewrite (update_job_run job j _ w Hj).
  set (wa := set_heap _ w).
  assert (Ha : heap wa !! job = Some (set_stop_time (clock w) j)).
  { by apply lookup_updated with j. }
  unfold bind at 1. rewrite (get_job_run job _ wa Ha).
  assert (Hf : ∃ wb jb, heap wb !! job = Some jb ∧ clients wb = clients w ∧
     (if String.eqb (status (set_stop_time (clock w) j)) "working"
      then update_job job (set_status "finished") else ret tt) wa
     = (Ok tt, wb)).
  { destruct (String.eqb (status (set_stop_time (clock w) j)) "working").
    - eexists _, _. split; [|split; [|by apply update_job_run]].
      + simpl. eapply lookup_updated; exact Ha.
      + done.
    - by exists wa, (set_stop_time (clock w) j). }
  destruct Hf as (wb & jb & Hb & Hcl & Hrun).
  unfold bind at 1. rewrite Hrun.
  step_modify.
  set (wc := set_running _ wb).
  assert (Hc : heap wc !! job = Some jb) by done.
  unfold bind at 1. rewrite (get_job_run job jb wc Hc).
  destruct (negb (result_is jb "stopped")); simpl.
  - unfold bind, set_commit_status, emit, modify.
    destruct (bool_decide (pr jb ≠ None) && pr_enable_comments (config jb));
      simpl; rewrite reload_run; simpl; rewrite Hcl;
      by destruct (notify_outcome A reload_message (clients w)) as [[]|].
  - unfold bind, ret. rewrite reload_run. simpl. rewrite Hcl.
    by destruct (notify_outcome A reload_message (clients w)) as [[]|].
Qed.

Lemma job_prepare_run (A : Adapters) (job : loc) (j : MurdockJob)
    (w : World) :
  heap w !! job = Some j →
  job_prepare A job w
  = (notify_outcome A reload_message (clients w),
     set_trace
       (trace w
        ++ [SetCommitStatus (sha (commit j))
              (pending_status A "The build has started")]
        ++ sends reload_message w)
       (set_heap (<[job := set_start_time (clock w) j]> (heap w))
          (set_running (MurdockJobPool.add job (running w))
             (set_queued (MurdockJobList.remove job (queued w)) w)))).
Proof.
  intros Hj. unfold job_prepare.
  step_modify. step_modify. step_gets.
  unfold bind at 1. erewrite update_job_run; [|exact Hj].
  unfold bind at 1. erewrite get_job_run;
    [|simpl; by eapply lookup_updated].
  unfold bind at 1. unfold set_commit_status at 1, emit at 1, modify at 1.
  rewrite reload_run. simpl. unfold sends. simpl.
  by rewrite <- app_assoc.
Qed.

Lemma pool_remove_add (job : loc) (slots : list (option loc)) :
  ¬ In (Some job) slots →
  MurdockJobPool.remove job (MurdockJobPool.add job slots) = slots.
Proof.
  assert (Hrem : ∀ l, ¬ In (Some job) l → MurdockJobPool.remove job l = l).
  { induction l as [|[k|] l IH]; simpl; intros Hn; [done| |].
    - destruct (Nat.eqb_spec k job) as [->|Hne]; [by destruct Hn; left|].
      rewrite IH; [done|]. intros H. apply Hn. by right.
    - rewrite IH; [done|]. intros H. apply Hn. by right. }
  induction slots as [|[k|] slots IH]; simpl; intros Hn; [done| |].
  - destruct (Nat.eqb_spec k job) as [->|Hne]; [by destruct Hn; left|].
    rewrite IH; [done|]. intros H. apply Hn. by right.
  - rewrite Nat.eqb_refl. rewrite Hrem; [done|].
    intros H. apply Hn. by right.
Qed.

Lemma pool_add_occupies (job : loc) (slots : list (option loc)) :
  In None slots → In (Some job) (MurdockJobPool.add job slots).
Proof.
  induction slots as [|[k|] slots IH]; simpl; [done| |by left].
  intros [H|H]; [done|]. right. by apply IH.
Qed.

(** A whole run of the worker on a job that is not canceled, when the
    observers are reachable. [built] is the job as the build leaves it:
    what [execute] made of it, with the result forced to "errored" when
    the build raised. *)
Lemma process_job_run (A : Adapters) (job : loc) (j : MurdockJob)
    (w : World) :
  heap w !! job = Some j →
  canceled j = false →
  observers_ok A w →
  let j1 := set_start_time (clock w) j in
  let built := if snd (execute A j1) then fst (execute A j1)
               else set_result "errored" (fst (execute A j1)) in
  let jf := finalized (clock w) built in
  _process_job A job w
  = (Ok tt,
     set_trace
       (trace w
        ++ [SetCommitStatus (sha (commit j))
              (pending_status A "The build has started")]
        ++ sends reload_message w
        ++ [JobExecute job]
        ++ (if result_is built "stopped" then []
            else final_status A jf
                 :: (if bool_decide (pr built ≠ None)
                        && pr_enable_comments (config built)
                     then [CommentOnPr job] else []))
        ++ sends reload_message w)
       (set_db (if result_is built "stopped" then db w
                else Database.insert_job jf (db w))
          (set_heap (<[job := jf]> (heap w))
             (set_running
                (MurdockJobPool.remove job
                   (MurdockJobPool.add job (running w)))
                (set_queued (MurdockJobList.remove job (queued w)) w))))).
Proof.
  intros Hj Hc Hok j1 built jf.
  assert (Hout : notify_outcome A reload_message (clients w) = Ok tt).
  { by apply notify_outcome_ok. }
  unfold _process_job.
  unfold bind at 1. rewrite (get_job_run job j w Hj). rewrite Hc.
  unfold bind at 1. rewrite (job_prepare_run A job j w Hj), Hout.
  set (wa := set_trace _ _).
  assert (Ha : heap wa !! job = Some j1).
  { unfold wa. simpl. by eapply lookup_updated. }
  unfold bind at 1. rewrite (get_job_run job j1 wa Ha).
  step_emit.
  set (wb := set_trace _ wa).
  unfold bind at 1. rewrite (update_job_run job j1 _ wb Ha).
  set (wc := set_heap _ wb).
  assert (Hbuilt : ∃ wd,
    (if snd (execute A j1) then ret tt
     else update_job job (set_result "errored")) wc = (Ok tt, wd)
    ∧ wd = set_heap (<[job := built]> (heap w))
             (set_trace (trace wb) (set_running (running wa)
                (set_queued (queued wa) w)))).
  { unfold built. destruct (snd (execute A j1)).
    - exists wc. split; [done|]. unfold wc, wb, wa. simpl.
      by rewrite list_insert_insert_eq.
    - eexists. split.
      + apply update_job_run. unfold wc. simpl.
        eapply lookup_updated. exact Ha.
      + unfold wc, wb, wa. simpl. by rewrite !list_insert_insert_eq. }
  destruct Hbuilt as (wd & Hrun & Hwd).
  unfold bind at 1. rewrite Hrun.
  assert (Hd : heap wd !! job = Some built).
  { rewrite Hwd. simpl. by eapply lookup_updated. }
  pose proof (job_finalize_run A job built wd Hd) as Hexec.
  pose proof (job_finalize_result A job built wd Hd) as Heval.
  unfold exec in Hexec. unfold eval in Heval.
  destruct (job_finalize A job wd) as [r wf]. simpl in Hexec, Heval.
  rewrite Heval, Hexec.
  assert (Hcl : clients wd = clients w) by by rewrite Hwd.
  rewrite Hcl, Hout. f_equal.
  assert (Hclock : clock wd = clock w) by by rewrite Hwd.
  rewrite Hclock. fold jf.
  rewrite Hwd. unfold wb, wa, sends. simpl.
  destruct (result_is built "stopped"); simpl;
    rewrite ?list_insert_insert_eq, <- ?app_assoc; simpl; reflexivity.
Qed.

Lemma executed_app (t1 t2 : list Event) :
  executed (t1 ++ t2) = (executed t1 ++ executed t2)%list.
Proof. unfold executed. apply omap_app. Qed.

Lemma executed_cons (e : Event) (t : list Event) :
  executed (e :: t)
  = match e with
    | JobExecute k => k :: executed t
    | _ => executed t
    end.
Proof. by destruct e. Qed.

Lemma executed_send_texts (msg : string) (cs : list WebSocket) :
  executed (map (fun client => SendText client msg) cs) = [].
Proof. by induction cs. Qed.

(** X6: the worker runs a job that is not canceled to the end when the
    observers are reachable, and the build is bracketed: the "The build
    has started" status and a reload come first, then the one call of
    [execute], then the final status (and the comment on the pull
    request) unless the job was stopped, then a reload. Nothing else
    reaches the adapters. *)
Theorem process_job_brackets_the_build
    (A : Adapters) (job : loc) (j : MurdockJob) (w : World) :
  heap w !! job = Some j →
  canceled j = false →
  observers_ok A w →
  let j1 := set_start_time (clock w) j in
  let built := if snd (execute A j1) then fst (execute A j1)
               else set_result "errored" (fst (execute A j1)) in
  let jf := finalized (clock w) built in
  let w' := exec (_process_job A job) w in
  eval (_process_job A job) w = Ok tt
  ∧ trace w'
    = (trace w
       ++ [SetCommitStatus (sha (commit j))
             (pending_status A "The build has started")]
       ++ sends reload_message w
       ++ [JobExecute job]
       ++ (if result_is built "stopped" then []
           else final_status A jf
                :: (if bool_decide (pr built ≠ None)
                       && pr_enable_comments (config built)
                    then [CommentOnPr job] else []))
       ++ sends reload_message w)%list
  ∧ executed (trace w') = (executed (trace w) ++ [job])%list
  ∧ heap w' = <[job := jf]> (heap w).
Proof.
  intros Hj Hc Hok j1 built jf w'. unfold w', eval, exec.
  rewrite (process_job_run A job j w Hj Hc Hok). fold j1 built jf. simpl.
  split; [done|]. split; [done|]. split; [|done].
  unfold sends. rewrite executed_app, executed_cons, executed_app,
    executed_send_texts, executed_cons, executed_app, executed_send_texts.
  simpl. rewrite app_nil_r.
  destruct (result_is built "stopped"); simpl; [done|].
  by destruct (bool_decide (pr built ≠ None)
               && pr_enable_comments (config built)).
Qed.

Lemma process_job_brackets_the_build_witness :
  executed (trace (exec (_process_job Cases.steady 0%nat)
                     Scenario.world_idle))
  = [0%nat].
Proof.
  assert (Hok : observers_ok Cases.steady Scenario.world_idle).
  { intros c _. reflexivity. }
  destruct (process_job_brackets_the_build Cases.steady 0%nat
              (Scenario.job_on_ref "aaa" Scenario.topic)
              Scenario.world_idle eq_refl eq_refl Hok) as (_ & _ & H & _).
  exact H.
Defined.

(** X7: a worker gives back the slot it took and takes the job off the
    waiting list: after a run on a job that held no slot before, the
    running pool is as it was before the run, full or not, and the job is
    no longer waiting. *)
Theorem process_job_releases_its_slot
    (A : Adapters) (job : loc) (j : MurdockJob) (w : World) :
  heap w !! job = Some j →
  canceled j = false →
  observers_ok A w →
  ¬ In (Some job) (running w) →
  let w' := exec (_process_job A job) w in
  running w' = running w ∧ ¬ In job (queued w')
  ∧ queue w' = queue w ∧ fasttrack_queue w' = fasttrack_queue w.
Proof.
  intros Hj Hc Hok Hfree w'. unfold w', exec.
  rewrite (process_job_run A job j w Hj Hc Hok). simpl.
  split; [by apply pool_remove_add|]. split; [|done].
  unfold MurdockJobList.remove. rewrite filter_In. intros [_ H].
  by rewrite Nat.eqb_refl in H.
Qed.

Lemma process_job_releases_its_slot_witness :
  running (exec (_process_job Cases.steady 0%nat) Scenario.world_idle)
  = [Some 1%nat; None].
Proof.
  assert (Hok : observers_ok Cases.steady Scenario.world_idle).
  { intros c _. reflexivity. }
  assert (Hfree : ¬ In (Some 0%nat) (running Scenario.world_idle)).
  { simpl. intros [H|[H|[]]]; discriminate H. }
  destruct (process_job_releases_its_slot Cases.steady 0%nat
              (Scenario.job_on_ref "aaa" Scenario.topic)
              Scenario.world_idle eq_refl eq_refl Hok Hfree) as [H _].
  exact H.
Defined.

(** X8: when the build raises, the exception is trapped and the job is
    recorded as errored, whatever result the build had written before: its
    result is "errored", it is finalized into the database, and the final
    commit status is a failure. *)
Theorem failed_build_is_recorded_as_errored
    (A : Adapters) (job : loc) (j : MurdockJob) (w : World) :
  heap w !! job = Some j →
  canceled j = false →
  observers_ok A w →
  snd (execute A (set_start_time (clock w) j)) = false →
  let w' := exec (_process_job A job) w in
  ∃ jf, heap w' !! job = Some jf
        ∧ result jf = Some "errored"
        ∧ db w' = Database.insert_job jf (db w)
        ∧ final_status A jf ∈ trace w'
        ∧ (∀ s st, final_status A jf = SetCommitStatus s st →
                   state st = "failure")
        ∧ eval (_process_job A job) w = Ok tt.
Proof.
  intros Hj Hc Hok Hraise w'. unfold w', eval, exec.
  rewrite (process_job_run A job j w Hj Hc Hok). rewrite Hraise. simpl.
  set (built := set_result "errored" _).
  set (jf := finalized (clock w) built).
  assert (Hres : result jf = Some "errored").
  { unfold jf, finalized. by destruct (String.eqb _ "working"). }
  exists jf. split; [|split; [done|split; [done|split; [|split]]]].
  - by eapply lookup_updated.
  - apply elem_of_app. right. apply list_elem_of_further.
    apply elem_of_app. right. apply list_elem_of_further.
    apply list_elem_of_here.
  - intros s st Heq. unfold final_status in Heq. injection Heq as _ <-.
    simpl. unfold result_is. by rewrite Hres.
  - done.
Qed.

Lemma failed_build_is_recorded_as_errored_witness :
  ∃ jf, heap (exec (_process_job Cases.adapters 0%nat) Scenario.world_idle)
          !! 0%nat = Some jf
        ∧ result jf = Some "errored"
        ∧ db (exec (_process_job Cases.adapters 0%nat) Scenario.world_idle)
          = Database.insert_job jf (db Scenario.world_idle).
Proof.
  assert (Hok : observers_ok Cases.adapters Scenario.world_idle).
  { intros c _. reflexivity. }
  destruct (failed_build_is_recorded_as_errored Cases.adapters 0%nat
              (Scenario.job_on_ref "aaa" Scenario.topic)
              Scenario.world_idle eq_refl eq_refl Hok eq_refl)
    as (jf & H1 & H2 & H3 & _).
  by exists jf.
Defined.

(** X9: an observer that cannot be reached keeps the build from running.
    The reload at the end of [job_prepare] raises, [_process_job] raises
    with it, and the job is left half way: off the waiting list and in the
    slot it was given, its build never started, nothing finalized and
    nothing stored. *)
Theorem unreachable_observer_blocks_the_build
    (A : Adapters) (job : loc) (j : MurdockJob) (c : WebSocket) (w : World) :
  heap w !! job = Some j →
  canceled j = false →
  List.find (fun c => negb (send_text A c reload_message)) (clients w)
  = Some c →
  let w' := exec (_process_job A job) w in
  eval (_process_job A job) w = Raise (SendFailed c)
  ∧ executed (trace w') = executed (trace w)
  ∧ db w' = db w
  ∧ ¬ In job (queued w')
  ∧ running w' = MurdockJobPool.add job (running w)
  ∧ (In None (running w) → In (Some job) (running w')).
Proof.
  intros Hj Hc Hfail w'.
  assert (Hout : notify_outcome A reload_message (clients w)
                 = Raise (SendFailed c)).
  { unfold notify_outcome. by rewrite Hfail. }
  assert (Hrun : _process_job A job w
                 = (Raise (SendFailed c), snd (job_prepare A job w))).
  { unfold _process_job.
    unfold bind at 1. rewrite (get_job_run job j w Hj). rewrite Hc.
    unfold bind at 1. by rewrite (job_prepare_run A job j w Hj), Hout. }
  unfold w', eval, exec. rewrite Hrun, (job_prepare_run A job j w Hj). simpl.
  split; [done|]. split.
  { unfold sends.
    by rewrite executed_app, executed_cons, executed_send_texts, app_nil_r. }
  split; [done|]. split.
  { unfold MurdockJobList.remove. rewrite filter_In. intros [_ H].
    by rewrite Nat.eqb_refl in H. }
  split; [done|]. apply pool_add_occupies.
Qed.

Lemma unreachable_observer_blocks_the_build_witness :
  eval (_process_job Scenario.adapters 0%nat)
    (set_clients [1%nat; 2%nat] Scenario.world_idle)
  = Raise (SendFailed 2%nat)
  ∧ In (Some 0%nat)
       (running (exec (_process_job Scenario.adapters 0%nat)
                   (set_clients [1%nat; 2%nat] Scenario.world_idle))).
Proof.
  destruct (unreachable_observer_blocks_the_build Scenario.adapters 0%nat
              (Scenario.job_on_ref "aaa" Scenario.topic) 2%nat
              (set_clients [1%nat; 2%nat] Scenario.world_idle)
              eq_refl eq_refl eq_refl) as (H1 & _ & _ & _ & _ & H2).
  split; [exact H1|]. apply H2. simpl. auto.
Defined.

(** ** The worker loop *)

Lemma process_job_summary (A : Adapters) (job : loc) (j : MurdockJob)
    (w : World) :
  heap w !! job = Some j →
  canceled j = false →
  observers_ok A w →
  ∃ w1 jf, _process_job A job w = (Ok tt, w1)
    ∧ heap w1 = <[job := jf]> (heap w)
    ∧ clients w1 = clients w
    ∧ queue w1 = queue w
    ∧ fasttrack_queue w1 = fasttrack_queue w
    ∧ executed (trace w1) = (executed (trace w) ++ [job])%list.
Proof.
  intros Hj Hc Hok. eexists _, _.
  split; [by apply process_job_run|]. simpl.
  split; [done|]. split; [done|]. split; [done|]. split; [done|].
  unfold sends. rewrite executed_app, executed_cons, executed_app,
    executed_send_texts, executed_cons, executed_app, executed_send_texts.
  simpl. rewrite app_nil_r.
  match goal with
  | |- context [if ?b then [] else _] => destruct b; simpl; [done|]
  end.
  match goal with
  | |- context [if ?b then [CommentOnPr _] else _] => by destruct b
  end.
Qed.

Lemma process_job_canceled_run (A : Adapters) (job : loc) (j : MurdockJob)
    (w : World) :
  heap w !! job = Some j → canceled j = true →
  _process_job A job w = (Ok tt, w).
Proof.
  intros Hj Hc. unfold _process_job, bind, get_job. by rewrite Hj, Hc.
Qed.

Lemma process_job_keeps_queues (A : Adapters) (job : loc) :
  preserves (keeps queue) (_process_job A job)
  ∧ preserves (keeps fasttrack_queue) (_process_job A job).
Proof. split; unfold_ops; frame_more; done. Qed.

Lemma worker_step_exec (A : Adapters) (re : Exn → bool) (w : World) :
  exec (job_processing_step A re) w
  = match fasttrack_queue w with
    | job :: rest => exec (_process_job A job) (set_fasttrack_queue rest w)
    | [] => match queue w with
            | job :: rest => exec (_process_job A job) (set_queue rest w)
            | [] => w
            end
    end.
Proof.
  unfold exec, job_processing_step.
  destruct (fasttrack_queue w) as [|job rest].
  - destruct (queue w) as [|job rest]; [done|].
    destruct (_process_job A job _) as [[x|e] w1]; [done|].
    by destruct (re e).
  - by destruct (_process_job A job _) as [[x|e] w1].
Qed.

(** X10: one turn of the worker loop takes exactly one entry off exactly
    one queue, however the turn ends: the head of the fast-track queue
    when there is one, and only otherwise the head of the normal queue;
    the other queue is left as it is. With both queues empty the worker
    waits and nothing changes. A job whose processing raises is not put
    back. *)
Theorem worker_turn_serves_fasttrack_first
    (A : Adapters) (re : Exn → bool) (w : World) :
  let w' := exec (job_processing_step A re) w in
  (∀ job rest, fasttrack_queue w = job :: rest →
     fasttrack_queue w' = rest ∧ queue w' = queue w)
  ∧ (∀ job rest, fasttrack_queue w = [] → queue w = job :: rest →
     queue w' = rest ∧ fasttrack_queue w' = [])
  ∧ (fasttrack_queue w = [] → queue w = [] →
     job_processing_step A re w = (Ok Waiting, w)).
Proof.
  intros w'. unfold w'. rewrite worker_step_exec.
  split; [|split].
  - intros job rest Hf. rewrite Hf.
    destruct (process_job_keeps_queues A job) as [Hq Hft].
    specialize (Hq (set_fasttrack_queue rest w)).
    specialize (Hft (set_fasttrack_queue rest w)).
    unfold keeps in Hq, Hft. by rewrite Hq, Hft.
  - intros job rest Hf Hq'. rewrite Hf, Hq'.
    destruct (process_job_keeps_queues A job) as [Hq Hft].
    specialize (Hq (set_queue rest w)).
    specialize (Hft (set_queue rest w)).
    unfold keeps in Hq, Hft. rewrite Hq, Hft. simpl. by rewrite Hf.
  - intros Hf Hq. unfold job_processing_step. by rewrite Hf, Hq.
Qed.

Lemma worker_turn_serves_fasttrack_first_witness :
  let w := set_fasttrack_queue [2%nat] Scenario.world_idle in
  fasttrack_queue (exec (job_processing_step Scenario.adapters
                           (fun _ => false)) w) = []
  ∧ queue (exec (job_processing_step Scenario.adapters (fun _ => false)) w)
    = [0%nat; 2%nat].
Proof.
  destruct (worker_turn_serves_fasttrack_first Scenario.adapters
              (fun _ => false)
              (set_fasttrack_queue [2%nat] Scenario.world_idle)) as [H _].
  apply (H 2%nat []). reflexivity.
Defined.

Lemma runnable_insert_other (store : list MurdockJob) (k : loc)
    (x : MurdockJob) (l : list loc) :
  ¬ In k l →
  List.filter (runnable (<[k := x]> store)) l = List.filter (runnable store) l.
Proof.
  intros Hn. apply filter_ext_in. intros a Ha. unfold runnable.
  rewrite list_lookup_insert_ne; [done|]. intros ->. done.
Qed.

Lemma worker_drains (A : Adapters) (re : Exn → bool) (turns : nat) :
  ∀ w,
  observers_ok A w →
  (∀ k, In k (fasttrack_queue w ++ queue w) → is_Some (heap w !! k)) →
  List.NoDup (fasttrack_queue w ++ queue w) →
  (List.length (fasttrack_queue w ++ queue w) < turns)%nat →
  ∃ w', job_processing_task A re turns w = (Ok Waiting, w')
    ∧ fasttrack_queue w' = [] ∧ queue w' = []
    ∧ executed (trace w')
      = (executed (trace w)
         ++ List.filter (runnable (heap w))
              (fasttrack_queue w ++ queue w))%list.
Proof.
  induction turns as [|turns IH]; intros w Hok Hv Hnd Hlen; [lia|].
  simpl job_processing_task. unfold bind at 1.
  unfold job_processing_step.
  destruct (fasttrack_queue w) as [|k rest] eqn:Hf.
  - destruct (queue w) as [|k rest] eqn:Hq.
    + exists w. unfold ret. simpl. by rewrite app_nil_r.
    + simpl in Hv, Hnd, Hlen.
      destruct (Hv k) as [j Hj]; [by left|].
      apply List.NoDup_cons_iff in Hnd as [Hk Hnd].
      set (wp := set_queue rest w).
      destruct (canceled j) eqn:Hc.
      * rewrite (process_job_canceled_run A k j wp Hj Hc).
        destruct (IH wp) as (w' & Hrun & H1 & H2 & H3).
        { exact Hok. }
        { simpl. rewrite Hf. simpl. intros k' Hk'. apply Hv. by right. }
        { simpl. by rewrite Hf. }
        { simpl. rewrite Hf. simpl. lia. }
        exists w'. rewrite Hrun. split; [done|]. split; [done|].
        split; [done|]. rewrite H3. simpl. rewrite Hf. simpl.
        unfold runnable at 2. by rewrite Hj, Hc.
      * destruct (process_job_summary A k j wp Hj Hc Hok)
          as (w1 & jf & Hrun1 & Hh & Hcl & Hq1 & Hf1 & He).
        rewrite Hrun1.
        destruct (IH w1) as (w' & Hrun & H1 & H2 & H3).
        { intros c. rewrite Hcl. apply Hok. }
        { rewrite Hq1, Hf1, Hh. simpl. rewrite Hf. simpl.
          intros k' Hk'. apply lookup_lt_is_Some. rewrite length_insert.
          apply lookup_lt_is_Some. apply Hv. by right. }
        { rewrite Hq1, Hf1. simpl. by rewrite Hf. }
        { rewrite Hq1, Hf1. simpl. rewrite Hf. simpl. lia. }
        exists w'. rewrite Hrun. split; [done|]. split; [done|].
        split; [done|]. rewrite H3, He, Hq1, Hf1, Hh. simpl. rewrite Hf.
        simpl. rewrite runnable_insert_other by done.
        unfold runnable at 2. rewrite Hj, Hc. simpl.
        by rewrite <- app_assoc.
  - simpl in Hv, Hnd, Hlen.
    destruct (Hv k) as [j Hj]; [by left|].
    apply List.NoDup_cons_iff in Hnd as [Hk Hnd].
    set (wp := set_fasttrack_queue rest w).
    destruct (canceled j) eqn:Hc.
    + rewrite (process_job_canceled_run A k j wp Hj Hc).
      destruct (IH wp) as (w' & Hrun & H1 & H2 & H3).
      { exact Hok. }
      { simpl. intros k' Hk'. apply Hv. by right. }
      { done. }
      { simpl. lia. }
      exists w'. rewrite Hrun. split; [done|]. split; [done|].
      split; [done|]. rewrite H3. simpl.
      unfold runnable at 2. by rewrite Hj, Hc.
    + destruct (process_job_summary A k j wp Hj Hc Hok)
        as (w1 & jf & Hrun1 & Hh & Hcl & Hq1 & Hf1 & He).
      rewrite Hrun1.
      destruct (IH w1) as (w' & Hrun & H1 & H2 & H3).
      { intros c. rewrite Hcl. apply Hok. }
      { rewrite Hq1, Hf1, Hh. simpl.
        intros k' Hk'. apply lookup_lt_is_Some. rewrite length_insert.
        apply lookup_lt_is_Some. apply Hv. by right. }
      { rewrite Hq1, Hf1. done. }
      { rewrite Hq1, Hf1. simpl. lia. }
      exists w'. rewrite Hrun. split; [done|]. split; [done|].
      split; [done|]. rewrite H3, He, Hq1, Hf1, Hh. simpl.
      rewrite runnable_insert_other by done.
      unfold runnable at 2. rewrite Hj, Hc. simpl.
      by rewrite <- app_assoc.
Qed.

(** X11: a worker that is left alone with the two queues serves the
    fast-track queue to its end, then the normal queue, each in arrival
    order, and then waits. The builds it starts are exactly the queued
    jobs that are not canceled, in that order; canceled ones are taken off
    the queue and skipped. (Observers reachable, no job queued twice.) *)
Theorem worker_runs_fasttrack_then_normal_in_order
    (A : Adapters) (re : Exn → bool) (turns : nat) (w : World) :
  observers_ok A w →
  (∀ k, In k (fasttrack_queue w ++ queue w) → is_Some (heap w !! k)) →
  List.NoDup (fasttrack_queue w ++ queue w) →
  (List.length (fasttrack_queue w ++ queue w) < turns)%nat →
  let w' := exec (job_processing_task A re turns) w in
  eval (job_processing_task A re turns) w = Ok Waiting
  ∧ fasttrack_queue w' = [] ∧ queue w' = []
  ∧ executed (trace w')
    = (executed (trace w)
       ++ List.filter (runnable (heap w))
            (fasttrack_queue w ++ queue w))%list.
Proof.
  intros Hok Hv Hnd Hlen w'.
  destruct (worker_drains A re turns w Hok Hv Hnd Hlen)
    as (w1 & Hrun & H1 & H2 & H3).
  unfold w', eval, exec. by rewrite Hrun.
Qed.

Lemma worker_runs_fasttrack_then_normal_in_order_witness :
  let w := set_fasttrack_queue [2%nat]
             (set_queue [0%nat; 1%nat]
                (set_heap (<[1%nat := set_canceled true
                                        (Scenario.job_on_ref "bbb"
                                           Scenario.topic)]>
                             (heap Scenario.world_idle))
                   Scenario.world_idle)) in
  executed (trace (exec (job_processing_task Cases.steady (fun _ => false)
                           4) w))
  = [2%nat; 0%nat].
Proof.
  intros w.
  assert (Hok : observers_ok Cases.steady w) by (intros c _; reflexivity).
  assert (Hv : ∀ k, In k (fasttrack_queue w ++ queue w) →
                    is_Some (heap w !! k)).
  { intros k Hk. simpl in Hk.
    destruct Hk as [<-|[<-|[<-|[]]]]; by eexists. }
  assert (Hnd : List.NoDup (fasttrack_queue w ++ queue w)).
  { simpl. repeat constructor; simpl; intuition discriminate. }
  assert (Hlen : (List.length (fasttrack_queue w ++ queue w) < 4)%nat).
  { simpl. lia. }
  destruct (worker_runs_fasttrack_then_normal_in_order Cases.steady
              (fun _ => false) 4 w Hok Hv Hnd Hlen) as (_ & _ & _ & H).
  rewrite H. reflexivity.
Defined.

Lemma process_job_blocked (A : Adapters) (job : loc) (j : MurdockJob)
    (c : WebSocket) (w : World) :
  heap w !! job = Some j →
  canceled j = false →
  List.find (fun c => negb (send_text A c reload_message)) (clients w)
  = Some c →
  _process_job A job w = (Raise (SendFailed c), exec (job_prepare A job) w).
Proof.
  intros Hj Hc Hfail. unfold _process_job, exec.
  unfold bind at 1. rewrite (get_job_run job j w Hj). rewrite Hc.
  unfold bind at 1. rewrite (job_prepare_run A job j w Hj).
  unfold notify_outcome. by rewrite Hfail.
Qed.

(** X12: one unreachable observer stops a worker for good. When the job
    at the head of the queue it serves is not canceled, the turn fails in
    [job_prepare]: from the fast-track queue the exception leaves the
    loop unhandled; from the normal queue it leaves the loop too, through
    [break] when it is a [RuntimeError] and unhandled otherwise. Either
    way the worker takes no further job: the rest of the queue stays
    where it is and no build is started. *)
Theorem unreachable_observer_stops_the_worker
    (A : Adapters) (re : Exn → bool) (turns : nat) (job : loc)
    (rest : list loc) (j : MurdockJob) (c : WebSocket) (w : World) :
  heap w !! job = Some j →
  canceled j = false →
  List.find (fun c => negb (send_text A c reload_message)) (clients w)
  = Some c →
  let w' := exec (job_processing_task A re (S turns)) w in
  let r := eval (job_processing_task A re (S turns)) w in
  (fasttrack_queue w = job :: rest →
   r = Raise (SendFailed c)
   ∧ fasttrack_queue w' = rest ∧ queue w' = queue w
   ∧ executed (trace w') = executed (trace w))
  ∧ (fasttrack_queue w = [] → queue w = job :: rest →
     r = (if re (SendFailed c) then Ok Exited else Raise (SendFailed c))
     ∧ queue w' = rest
     ∧ executed (trace w') = executed (trace w)).
Proof.
  intros Hj Hc Hfail w' r. unfold w', r, eval, exec. split.
  - intros Hf.
    assert (Hrun : job_processing_task A re (S turns) w
              = (Raise (SendFailed c),
                 exec (job_prepare A job) (set_fasttrack_queue rest w))).
    { simpl job_processing_task. unfold bind at 1.
      unfold job_processing_step. rewrite Hf.
      by rewrite (process_job_blocked A job j c
                    (set_fasttrack_queue rest w)). }
    rewrite Hrun. unfold exec.
    rewrite (job_prepare_run A job j (set_fasttrack_queue rest w) Hj). simpl.
    split; [done|]. split; [done|]. split; [done|].
    unfold sends. simpl.
    by rewrite executed_app, executed_cons, executed_send_texts, app_nil_r.
  - intros Hf Hq.
    assert (Hrun : job_processing_task A re (S turns) w
              = (if re (SendFailed c) then Ok Exited
                 else Raise (SendFailed c),
                 exec (job_prepare A job) (set_queue rest w))).
    { simpl job_processing_task. unfold bind at 1.
      unfold job_processing_step. rewrite Hf, Hq.
      rewrite (process_job_blocked A job j c (set_queue rest w)) by done.
      by destruct (re (SendFailed c)). }
    rewrite Hrun. unfold exec.
    rewrite (job_prepare_run A job j (set_queue rest w) Hj). simpl.
    split; [done|]. split; [done|]. unfold sends. simpl.
    by rewrite executed_app, executed_cons, executed_send_texts, app_nil_r.
Qed.

Lemma unreachable_observer_stops_the_worker_witness :
  let w := set_clients [1%nat; 2%nat] Scenario.world_idle in
  eval (job_processing_task Scenario.adapters (fun _ => true) 5) w
  = Ok Exited
  ∧ queue (exec (job_processing_task Scenario.adapters (fun _ => true) 5) w)
    = [2%nat].
Proof.
  intros w.
  destruct (unreachable_observer_stops_the_worker Scenario.adapters
              (fun _ => true) 4 0%nat [2%nat]
              (Scenario.job_on_ref "aaa" Scenario.topic) 2%nat w
              eq_refl eq_refl eq_refl) as [_ H].
  destruct (H eq_refl eq_refl) as (H1 & H2 & _). by split.
Defined.

(** ** A canceled job is never built *)

Global Instance stays_canceled_preorder (k : loc) :
  PreOrder (stays_canceled k).
Proof.
  split.
  - intros w H. split; [done|]. exists []. rewrite app_nil_r. split; [done | intros []].
  - intros w1 w2 w3 H12 H23 H1.
    destruct (H12 H1) as [H2 (t1 & Ht1 & Hn1)].
    destruct (H23 H2) as [H3 (t2 & Ht2 & Hn2)].
    split; [done|]. exists (t1 ++ t2)%list. split.
    + by rewrite Ht2, Ht1, app_assoc.
    + rewrite in_app_iff. tauto.
Qed.

Lemma stays_canceled_intro (k : loc) (w w' : World) (t : list Event) :
  heap w' !! k = heap w !! k →
  trace w' = (trace w ++ t)%list →
  ¬ In (JobExecute k) t →
  stays_canceled k w w'.
Proof.
  intros Hh Ht Hn H. rewrite Hh. split; [done|]. by exists t.
Qed.

Lemma sends_no_build (k : loc) (msg : string) (w : World) :
  ¬ In (JobExecute k) (sends msg w).
Proof.
  unfold sends. rewrite in_map_iff. by intros (c & Hc & _).
Qed.

Lemma stays_canceled_emit (k : loc) (e : Event) :
  e ≠ JobExecute k → preserves (stays_canceled k) (emit e).
Proof.
  intros Hne w. unfold exec, emit, modify. simpl.
  apply stays_canceled_intro with [e]; [done|done|].
  intros [H|[]]. by apply Hne.
Qed.

Lemma stays_canceled_notify (A : Adapters) (k : loc) (msg : string) :
  preserves (stays_canceled k) (notify_message_to_clients A msg).
Proof.
  intros w. unfold exec. rewrite notify_run. simpl.
  apply stays_canceled_intro with (sends msg w); [done|done|].
  apply sends_no_build.
Qed.

Lemma stays_canceled_update (k job : loc) (f : MurdockJob → MurdockJob) :
  job ≠ k → preserves (stays_canceled k) (update_job job f).
Proof.
  intros Hne. apply preserves_update_job. intros w j Hj.
  apply stays_canceled_intro with []; simpl.
  - by apply list_lookup_insert_ne.
  - by rewrite app_nil_r.
  - by intros [].
Qed.

Lemma stays_canceled_modify (k : loc) (f : World → World) :
  (∀ w, heap (f w) = heap w) → (∀ w, trace (f w) = trace w) →
  preserves (stays_canceled k) (modify f).
Proof.
  intros Hh Ht. apply preserves_modify. intros w.
  apply stays_canceled_intro with [].
  - by rewrite Hh.
  - by rewrite Ht, app_nil_r.
  - by intros [].
Qed.

Ltac canceled_step :=
  match goal with
  | |- preserves _ (bind _ _) => apply preserves_bind; [|intros ?]
  | |- preserves _ (ret _) => apply preserves_ret
  | |- preserves _ (gets _) => apply preserves_gets
  | |- preserves _ (get_job _) => apply preserves_get_job
  | |- preserves _ (modify _) => apply stays_canceled_modify; [done|done]
  | |- preserves _ (emit _) => apply stays_canceled_emit; congruence
  | |- preserves _ (set_commit_status _ _) =>
      apply stays_canceled_emit; discriminate
  | |- preserves _ (update_job _ _) => apply stays_canceled_update; assumption
  | |- preserves _ (reload_jobs _) => apply stays_canceled_notify
  | |- preserves _ (if ?b then _ else _) => destruct b
  end.

Lemma process_job_stays_canceled (A : Adapters) (k job : loc) :
  preserves (stays_canceled k) (_process_job A job).
Proof.
  intros w. unfold exec, _process_job. unfold bind at 1, get_job at 1.
  destruct (heap w !! job) as [j|] eqn:Hj; [|reflexivity].
  destruct (canceled j) eqn:Hc; [reflexivity|].
  destruct (decide (job = k)) as [->|Hne].
  { intros (jk & Hk & Hck). congruence. }
  assert (H : preserves (stays_canceled k)
    (job_prepare A job >>
     let* j := get_job job in
     emit (JobExecute job) >>
     update_job job (fun _ => fst (execute A j)) >>
     (if snd (execute A j) then ret tt
      else update_job job (set_result "errored")) >>
     job_finalize A job)).
  { unfold job_prepare, job_finalize. repeat canceled_step. }
  apply H.
Qed.

Lemma worker_step_stays_canceled (A : Adapters) (re : Exn → bool) (k : loc) :
  preserves (stays_canceled k) (job_processing_step A re).
Proof.
  intros w. unfold exec, job_processing_step.
  destruct (fasttrack_queue w) as [|job rest] eqn:Hf.
  - destruct (queue w) as [|job rest] eqn:Hq; [reflexivity|].
    pose proof (process_job_stays_canceled A k job (set_queue rest w)) as H.
    unfold exec in H.
    destruct (_process_job A job (set_queue rest w)) as [[[]|e] w1];
      [|destruct (re e)]; simpl in *; etransitivity; try exact H;
      by apply stays_canceled_intro with [];
        [|rewrite app_nil_r|intros []].
  - pose proof (process_job_stays_canceled A k job
                  (set_fasttrack_queue rest w)) as H.
    unfold exec in H.
    destruct (_process_job A job (set_fasttrack_queue rest w))
      as [[[]|e] w1]; simpl in *; etransitivity; try exact H;
      by apply stays_canceled_intro with [];
        [|rewrite app_nil_r|intros []].
Qed.

Lemma worker_stays_canceled (A : Adapters) (re : Exn → bool) (k : loc)
    (turns : nat) :
  preserves (stays_canceled k) (job_processing_task A re turns).
Proof.
  induction turns as [|turns IH]; simpl.
  - apply preserves_ret.
  - apply preserves_bind; [apply worker_step_stays_canceled|].
    intros [| |]; [exact IH | apply preserves_ret | apply preserves_ret].
Qed.

Lemma cancel_queued_job_exec (A : Adapters) (reload : bool) (k : loc)
    (jk : MurdockJob) (w : World) :
  heap w !! k = Some jk →
  exec (cancel_queued_job A reload k) w
  = set_trace
      (trace w
       ++ [SetCommitStatus (sha (commit jk)) (pending_status A "Canceled")]
       ++ (if reload then sends reload_message w else []))
      (set_queued (MurdockJobList.remove k (queued w))
         (set_heap (<[k := set_canceled true jk]> (heap w)) w)).
Proof.
  intros Hk. unfold exec, cancel_queued_job.
  unfold bind at 1. rewrite (update_job_run k jk _ w Hk).
  step_modify.
  unfold bind at 1. erewrite get_job_run; [|simpl; by eapply lookup_updated].
  unfold bind at 1, set_commit_status, emit, modify.
  destruct reload.
  - rewrite reload_run. simpl. unfold sends. simpl.
    by rewrite <- app_assoc.
  - done.
Qed.

(** X13: a job that was canceled while it waited is never built. After
    [cancel_queued_job], with or without the reload and whether or not
    the observers are reachable, the job is still in the asyncio queue it
    was put in, but however long the worker then runs and whatever else
    is in the queues, it starts no build of that job, and the job stays
    canceled. *)
Theorem canceled_job_is_never_built
    (A : Adapters) (re : Exn → bool) (reload : bool) (turns : nat)
    (k : loc) (jk : MurdockJob) (w : World) :
  heap w !! k = Some jk →
  let wc := exec (cancel_queued_job A reload k) w in
  let w' := exec (job_processing_task A re turns) wc in
  queue wc = queue w ∧ fasttrack_queue wc = fasttrack_queue w
  ∧ (∃ t, trace w' = (trace wc ++ t)%list ∧ ¬ In (JobExecute k) t)
  ∧ canceled <$> heap w' !! k = Some true.
Proof.
  intros Hk wc w'.
  pose proof (cancel_queued_job_exec A reload k jk w Hk) as Hwc.
  fold wc in Hwc.
  split; [by rewrite Hwc|]. split; [by rewrite Hwc|].
  destruct (worker_stays_canceled A re k turns wc) as [(jk' & Hk' & Hc') Ht].
  { exists (set_canceled true jk). split; [|done].
    rewrite Hwc. simpl. by eapply lookup_updated. }
  split; [exact Ht|]. fold w' in Hk'. by rewrite Hk', <- Hc'.
Qed.

Lemma canceled_job_is_never_built_witness :
  let wc := exec (cancel_queued_job Scenario.adapters true 0%nat)
              Scenario.world_idle in
  let w' := exec (job_processing_task Scenario.adapters (fun _ => false) 5)
              wc in
  queue wc = [0%nat; 2%nat]
  ∧ (∃ t, trace w' = (trace wc ++ t)%list ∧ ¬ In (JobExecute 0%nat) t).
Proof.
  destruct (canceled_job_is_never_built Scenario.adapters (fun _ => false)
              true 5 0%nat (Scenario.job_on_ref "aaa" Scenario.topic)
              Scenario.world_idle eq_refl) as (Hq & _ & Ht & _).
  split; [exact Hq | exact Ht].
Defined.

(** ** Scheduling *)

Lemma add_job_to_queue_run (A : Adapters) (job : loc) (j : MurdockJob)
    (w : World) :
  heap w !! job = Some j →
  let fast := forallb (fun s : option loc => bool_decide (s ≠ None))
                (running w) && fasttracked j in
  add_job_to_queue A job w
  = (notify_outcome A reload_message (clients w),
     set_trace
       (trace w
        ++ [SetCommitStatus (sha (commit j))
              (pending_status A "The build has been queued")]
        ++ sends reload_message w)
       ((if fast
         then set_fasttrack_queue (fasttrack_queue w ++ [job])
         else set_queue (queue w ++ [job]))
          (set_queued (queued w ++ [job]) w))).
Proof.
  intros Hj fast. unfold add_job_to_queue.
  step_gets. step_modify.
  unfold bind at 1. erewrite get_job_run; [|exact Hj].
  fold fast. unfold MurdockJobList.add.
  destruct fast; step_modify; unfold bind at 1, set_commit_status, emit,
    modify; rewrite reload_run; simpl; unfold sends; simpl;
    by rewrite <- app_assoc.
Qed.

Lemma cancel_loop_flags (A : Adapters) (ks : list loc) (w : World) :
  (∀ k, In k ks → is_Some (heap w !! k)) →
  ∀ l, heap (exec (for_each ks (cancel_queued_job A false)) w) !! l
       = if existsb (Nat.eqb l) ks
         then set_canceled true <$> heap w !! l
         else heap w !! l.
Proof.
  revert w. induction ks as [|k ks IH]; intros w Hv l; [done|].
  destruct (Hv k) as [jk Hk]; [by left|].
  unfold exec. simpl for_each. unfold bind at 1.
  rewrite (cancel_queued_job_run A k jk w Hk).
  set (wa := set_trace _ _).
  assert (Ha : ∀ l', heap wa !! l'
                     = if Nat.eqb l' k then Some (set_canceled true jk)
                       else heap w !! l').
  { intros l'. unfold wa. simpl.
    destruct (Nat.eqb_spec l' k) as [->|Hne].
    - by eapply lookup_updated.
    - by apply list_lookup_insert_ne. }
  specialize (IH wa). unfold exec in IH. rewrite IH.
  2:{ intros k' Hk'. rewrite Ha. destruct (Nat.eqb k' k); [done|].
      apply Hv. by right. }
  rewrite Ha. simpl.
  destruct (Nat.eqb_spec l k) as [->|Hne]; simpl.
  - rewrite Hk. by destruct (existsb (Nat.eqb k) ks).
  - done.
Qed.

Lemma disable_jobs_matching_result (A : Adapters) (job : loc)
    (j : MurdockJob) (w : World) :
  heap w !! job = Some j →
  eval (disable_jobs_matching A job) w
  = match (queued_matches j w ++ running_matches j w)%list with
    | [] => Ok []
    | disabled =>
        match notify_outcome A reload_message (clients w) with
        | Ok _ => Ok disabled
        | Raise e => Raise e
        end
    end.
Proof.
  intros Hj.
  destruct (cancel_loop A (queued_matches j w) w)
    as (w' & Hrun & Hr & Hc & _ & _ & _ & _ & Ht & _).
  { intros k Hk. by eapply queued_matches_valid. }
  destruct (heap w' !! job) as [jc|] eqn:Hjc.
  2:{ specialize (Ht job). rewrite Hjc, Hj in Ht. done. }
  assert (Htc : trigger jc = trigger j).
  { specialize (Ht job). rewrite Hjc, Hj in Ht. simpl in Ht. congruence. }
  unfold eval, disable_jobs_matching.
  unfold bind at 1. rewrite (cancel_queued_jobs_matching_run A job j w Hj).
  unfold exec. rewrite Hrun. simpl snd.
  unfold bind at 1. rewrite (stop_running_jobs_matching_run A job jc w' Hjc).
  rewrite (running_matches_ext j jc w w') by done.
  unfold bind at 1.
  destruct (queued_matches j w ++ running_matches j w)%list eqn:Hd.
  - done.
  - rewrite reload_run. simpl. rewrite Hc.
    by destruct (notify_outcome A reload_message (clients w)) as [[]|].
Qed.

(** Whether [l] is one of the jobs [ks]. *)
Lemma existsb_eqb_spec (l : loc) (ks : list loc) :
  existsb (Nat.eqb l) ks = true ↔ In l ks.
Proof.
  rewrite existsb_exists. split.
  - intros (x & Hx & Heq). apply Nat.eqb_eq in Heq. by subst.
  - intros H. exists l. split; [done|]. apply Nat.eqb_refl.
Qed.

Lemma cancel_loop_trace (A : Adapters) (ks : list loc) (w w' : World) :
  (∀ k, In k ks → is_Some (heap w !! k)) →
  for_each ks (cancel_queued_job A false) w = (Ok tt, w') →
  cancel_on_update w' = cancel_on_update w
  ∧ ∃ t, trace w' = (trace w ++ t)%list
         ∧ ∀ k, In (JobExecute k) t → False.
Proof.
  revert w. induction ks as [|k ks IH]; intros w Hv Hloop.
  - simpl in Hloop. injection Hloop as <-. split; [done|].
    exists []. rewrite app_nil_r. split; [done | by intros k []].
  - destruct (Hv k) as [jk Hk]; [by left|].
    simpl for_each in Hloop. unfold bind at 1 in Hloop.
    rewrite (cancel_queued_job_run A k jk w Hk) in Hloop.
    apply IH in Hloop as [Hcu (t & Ht & Hn)].
    2:{ intros k' Hk'. simpl.
        destruct (decide (k' = k)) as [->|Hne].
        - eexists. by eapply lookup_updated.
        - rewrite list_lookup_insert_ne by done. apply Hv. by right. }
    split; [exact Hcu|]. simpl in Ht.
    eexists. split; [rewrite Ht, <- app_assoc; reflexivity|].
    intros k' [H|H]; [discriminate | by eapply Hn].
Qed.

(** The world [disable_jobs_matching] leaves, component by component. *)
Lemma disable_jobs_matching_world (A : Adapters) (job : loc)
    (j : MurdockJob) (w : World) :
  heap w !! job = Some j →
  let wd := exec (disable_jobs_matching A job) w in
  queued wd
  = List.filter (fun l => negb (existsb (Nat.eqb l) (queued_matches j w)))
      (queued w)
  ∧ (∀ l, heap wd !! l
          = if existsb (Nat.eqb l) (queued_matches j w)
            then set_canceled true <$> heap w !! l
            else heap w !! l)
  ∧ running wd = running w ∧ clients wd = clients w
  ∧ queue wd = queue w ∧ fasttrack_queue wd = fasttrack_queue w
  ∧ db wd = db w ∧ cancel_on_update wd = cancel_on_update w
  ∧ (∃ t, trace wd = (trace w ++ t)%list
          ∧ (∀ k, In k (running_matches j w) → In (JobStop k) t)
          ∧ (∀ k, In (JobExecute k) t → False)).
Proof.
  intros Hj wd.
  pose proof (disable_jobs_matching_run A job j w Hj) as Hrun.
  cbv zeta in Hrun. fold wd in Hrun.
  assert (Hv : ∀ k, In k (queued_matches j w) → is_Some (heap w !! k)).
  { intros k Hk. by eapply queued_matches_valid. }
  pose proof (cancel_loop_flags A (queued_matches j w) w Hv) as Hflags.
  destruct (cancel_loop A (queued_matches j w) w Hv)
    as (w' & Hloop & Hr & Hc & Hq & Hf & Hd & _ & _ & Hqd).
  assert (Hwc : exec (for_each (queued_matches j w)
                        (cancel_queued_job A false)) w = w').
  { unfold exec. by rewrite Hloop. }
  rewrite Hwc in Hrun, Hflags.
  pose proof (cancel_loop_trace A _ w w' Hv Hloop) as Hcu.
  destruct Hcu as [Hcu (t & Ht & Hn)].
  rewrite Hrun. simpl. repeat split; try done.
  eexists. split; [rewrite Ht, <- app_assoc; reflexivity|]. split.
  - intros k Hk. rewrite !in_app_iff. right. left.
    apply in_flat_map. exists k. split; [done|].
    unfold stop_events. destruct (heap w' !! k); by left.
  - intros k. rewrite !in_app_iff. intros [H|[H|H]].
    + by eapply Hn.
    + apply in_flat_map in H as (x & _ & Hx). unfold stop_events in Hx.
      destruct (heap w' !! x); simpl in Hx;
        repeat (destruct Hx as [Hx|Hx]; [discriminate|]); done.
    + destruct (queued_matches j w ++ running_matches j w)%list;
        [done|]. by eapply sends_no_build.
Qed.

Lemma schedule_job_unfold (A : Adapters) (job : loc) (w : World) :
  schedule_job A job w
  = if cancel_on_update w
    then match disable_jobs_matching A job w with
         | (Ok _, wd) =>
             match add_job_to_queue A job wd with
             | (Ok _, w') => (Ok job, w')
             | (Raise e, w') => (Raise e, w')
             end
         | (Raise e, wd) => (Raise e, wd)
         end
    else match add_job_to_queue A job w with
         | (Ok _, w') => (Ok job, w')
         | (Raise e, w') => (Raise e, w')
         end.
Proof.
  unfold schedule_job. step_gets.
  destruct (cancel_on_update w).
  - unfold bind at 1. unfold bind at 1.
    destruct (disable_jobs_matching A job w) as [[ds|e] wd]; [|done].
    unfold ret at 1. unfold bind at 1.
    by destruct (add_job_to_queue A job wd) as [[[]|e] w'].
  - unfold bind at 1. unfold ret at 1. unfold bind at 1.
    by destruct (add_job_to_queue A job w) as [[[]|e] w'].
Qed.

Lemma schedule_job_ok
    (A : Adapters) (job : loc) (j : MurdockJob) (w : World) :
  heap w !! job = Some j →
  observers_ok A w →
  let gone := if cancel_on_update w then queued_matches j w else [] in
  let w' := exec (schedule_job A job) w in
  eval (schedule_job A job) w = Ok job
  ∧ queued w'
    = (List.filter (fun l => negb (existsb (Nat.eqb l) gone)) (queued w)
       ++ [job])%list
  ∧ (∀ l, heap w' !! l
          = if existsb (Nat.eqb l) gone
            then set_canceled true <$> heap w !! l
            else heap w !! l)
  ∧ ((queue w' = (queue w ++ [job])%list
      ∧ fasttrack_queue w' = fasttrack_queue w)
     ∨ (queue w' = queue w
        ∧ fasttrack_queue w' = (fasttrack_queue w ++ [job])%list))
  ∧ running w' = running w ∧ db w' = db w ∧ clients w' = clients w
  ∧ (cancel_on_update w = true →
     ∀ k, In k (running_matches j w) → In (JobStop k) (trace w')).
Proof.
  intros Hj Hok gone w'.
  assert (Hout : notify_outcome A reload_message (clients w) = Ok tt).
  { by apply notify_outcome_ok. }
  unfold w', eval, exec. rewrite schedule_job_unfold.
  destruct (cancel_on_update w) eqn:Hcu.
  - pose proof (disable_jobs_matching_result A job j w Hj) as Hres.
    destruct (disable_jobs_matching_world A job j w Hj)
      as (Hq & Hh & Hr & Hc & Hqu & Hf & Hdb & _ & t & Ht & Hstop & _).
    unfold eval in Hres. unfold exec in Hq, Hh, Hr, Hc, Hqu, Hf, Hdb, Ht.
    destruct (disable_jobs_matching A job w) as [res wd].
    simpl in Hres, Hq, Hh, Hr, Hc, Hqu, Hf, Hdb, Ht.
    assert (Hres' : ∃ ds, res = Ok ds).
    { rewrite Hres, Hout.
      destruct (queued_matches j w ++ running_matches j w)%list; eauto. }
    destruct Hres' as [ds ->].
    assert (Hjd : ∃ jd, heap wd !! job = Some jd
                        ∧ fasttracked jd = fasttracked j).
    { rewrite Hh, Hj. destruct (existsb _ _); eauto. }
    destruct Hjd as (jd & Hjd & Hft).
    rewrite (add_job_to_queue_run A job jd wd Hjd), Hc, Hout. simpl.
    rewrite Hr, Hft.
    assert (Hstops : ∀ k, In k (running_matches j w) →
                          In (JobStop k) (trace wd)).
    { intros k Hk. rewrite Ht, in_app_iff. right. by apply Hstop. }
    destruct (forallb _ (running w) && fasttracked j); simpl;
      rewrite Hq, Hqu, Hf, ?Hdb; (repeat split; try done; [auto|]);
      intros _ k Hk; rewrite !in_app_iff; left; by apply Hstops.
  - rewrite (add_job_to_queue_run A job j w Hj), Hout. simpl.
    destruct (forallb _ (running w) && fasttracked j); simpl;
      rewrite filter_true; repeat split; try done; auto.
Qed.

(** X14: [schedule_job] puts the new job at the end of the waiting list
    and of one queue. With [cancel_on_update] the waiting jobs for the
    same pull request or ref are superseded first: they are flagged
    canceled and leave the waiting list, and the running ones are asked
    to stop; without it no job is touched. The superseded jobs are not
    taken out of the asyncio queues, and stopped jobs keep their slots.
    (Observers reachable.) *)
Theorem schedule_job_supersedes_matching_jobs
    (A : Adapters) (job : loc) (j : MurdockJob) (w : World) :
  heap w !! job = Some j →
  observers_ok A w →
  let gone := if cancel_on_update w then queued_matches j w else [] in
  let w' := exec (schedule_job A job) w in
  eval (schedule_job A job) w = Ok job
  ∧ queued w'
    = (List.filter (fun l => negb (existsb (Nat.eqb l) gone)) (queued w)
       ++ [job])%list
  ∧ (∀ l, heap w' !! l
          = if existsb (Nat.eqb l) gone
            then set_canceled true <$> heap w !! l
            else heap w !! l)
  ∧ ((queue w' = (queue w ++ [job])%list
      ∧ fasttrack_queue w' = fasttrack_queue w)
     ∨ (queue w' = queue w
        ∧ fasttrack_queue w' = (fasttrack_queue w ++ [job])%list))
  ∧ running w' = running w
  ∧ (cancel_on_update w = true →
     ∀ k, In k (running_matches j w) → In (JobStop k) (trace w')).
Proof.
  intros Hj Hok gone w'.
  destruct (schedule_job_ok A job j w Hj Hok)
    as (He & Hq & Hh & Hqu & Hr & _ & _ & Hs).
  by repeat split.
Qed.

Lemma schedule_job_supersedes_matching_jobs_witness :
  let w' := exec (schedule_job Cases.steady 4%nat) Scenario.world in
  eval (schedule_job Cases.steady 4%nat) Scenario.world = Ok 4%nat
  ∧ queued w' = [0%nat; 4%nat]
  ∧ canceled <$> heap w' !! 2%nat = Some true
  ∧ queue w' = [0%nat; 2%nat; 4%nat]
  ∧ In (JobStop 3%nat) (trace w').
Proof.
  assert (Hok : observers_ok Cases.steady Scenario.world) by done.
  destruct (schedule_job_supersedes_matching_jobs Cases.steady 4%nat
              (Scenario.job_on_pr "eee") Scenario.world eq_refl Hok)
    as (He & Hq & Hh & Hqu & _ & Hs).
  split; [exact He|]. split; [exact Hq|]. split; [by rewrite Hh|].
  split.
  - destruct Hqu as [[Hqu _]|[_ Hf]]; [exact Hqu|].
    vm_compute in Hf. discriminate.
  - apply Hs; [reflexivity|]. by left.
Defined.

(** X15: [add_job_to_queue] enqueues before it notifies. When an
    observer cannot be reached the call raises, but the job is not lost:
    it is on the waiting list and in one of the two queues, and its
    "The build has been queued" status was posted. *)
Theorem add_job_to_queue_survives_failed_broadcast
    (A : Adapters) (job : loc) (j : MurdockJob) (c : WebSocket) (w : World) :
  heap w !! job = Some j →
  List.find (fun c => negb (send_text A c reload_message)) (clients w)
  = Some c →
  let w' := exec (add_job_to_queue A job) w in
  eval (add_job_to_queue A job) w = Raise (SendFailed c)
  ∧ queued w' = (queued w ++ [job])%list
  ∧ (queue w' = (queue w ++ [job])%list
     ∨ fasttrack_queue w' = (fasttrack_queue w ++ [job])%list)
  ∧ In (SetCommitStatus (sha (commit j))
          (pending_status A "The build has been queued")) (trace w').
Proof.
  intros Hj Hc w'. unfold w', eval, exec.
  rewrite (add_job_to_queue_run A job j w Hj).
  unfold notify_outcome. rewrite Hc.
  destruct (forallb _ (running w) && fasttracked j); simpl;
    (repeat split; auto); apply in_or_app; right; simpl; auto.
Qed.

Lemma add_job_to_queue_survives_failed_broadcast_witness :
  let w' := exec (add_job_to_queue Scenario.adapters 4%nat)
              Scenario.world_lossy in
  eval (add_job_to_queue Scenario.adapters 4%nat) Scenario.world_lossy
  = Raise (SendFailed 2%nat)
  ∧ queued w' = [0%nat; 2%nat; 4%nat].
Proof.
  destruct (add_job_to_queue_survives_failed_broadcast Scenario.adapters
              4%nat (Scenario.job_on_pr "eee") 2%nat Scenario.world_lossy
              eq_refl eq_refl) as (He & Hq & _).
  split; [exact He | exact Hq].
Defined.

(** X16: with [cancel_on_update], an unreachable observer makes
    [schedule_job] lose the new job whenever there is something to
    supersede. The matching waiting jobs are canceled and the matching
    running jobs are told to stop, then the reload of
    [disable_jobs_matching] raises and [add_job_to_queue] is never
    reached: the new job is in no queue and not on the waiting list, so
    nothing is left to be built for that pull request or ref. *)
Theorem failed_reload_drops_the_new_job
    (A : Adapters) (job : loc) (j : MurdockJob) (c : WebSocket) (w : World) :
  heap w !! job = Some j →
  cancel_on_update w = true →
  (queued_matches j w ++ running_matches j w)%list ≠ [] →
  List.find (fun c => negb (send_text A c reload_message)) (clients w)
  = Some c →
  ¬ In job (queued w) →
  let w' := exec (schedule_job A job) w in
  eval (schedule_job A job) w = Raise (SendFailed c)
  ∧ queue w' = queue w ∧ fasttrack_queue w' = fasttrack_queue w
  ∧ ¬ In job (queued w')
  ∧ (∀ k, In k (queued_matches j w) →
          canceled <$> heap w' !! k = Some true ∧ ¬ In k (queued w'))
  ∧ (∀ k, In k (running_matches j w) → In (JobStop k) (trace w')).
Proof.
  intros Hj Hcu Hne Hc Hnew w'.
  pose proof (disable_jobs_matching_result A job j w Hj) as Hres.
  destruct (disable_jobs_matching_world A job j w Hj)
    as (Hq & Hh & Hr & _ & Hqu & Hf & _ & _ & t & Ht & Hstop & _).
  assert (Hrun : schedule_job A job w
                 = (Raise (SendFailed c),
                    exec (disable_jobs_matching A job) w)).
  { rewrite schedule_job_unfold, Hcu.
    unfold eval in Hres. unfold exec.
    destruct (disable_jobs_matching A job w) as [res wd]. simpl in *.
    rewrite Hres. unfold notify_outcome. rewrite Hc.
    by destruct (queued_matches j w ++ running_matches j w)%list. }
  unfold w', eval, exec. rewrite Hrun. simpl.
  split; [done|]. split; [done|]. split; [done|]. split; [|split].
  - rewrite Hq, filter_In. tauto.
  - intros k Hk. split.
    + destruct (queued_matches_valid j w k Hk) as [jk Hjk].
      rewrite Hh, Hjk. by apply existsb_eqb_spec in Hk as ->.
    + rewrite Hq, filter_In. apply existsb_eqb_spec in Hk as ->.
      intros [_ H]. discriminate.
  - intros k Hk. rewrite Ht, in_app_iff. right. by apply Hstop.
Qed.

Lemma failed_reload_drops_the_new_job_witness :
  let w' := exec (schedule_job Scenario.adapters 4%nat)
              Scenario.world_lossy in
  eval (schedule_job Scenario.adapters 4%nat) Scenario.world_lossy
  = Raise (SendFailed 2%nat)
  ∧ queue w' = [0%nat; 2%nat]
  ∧ ¬ In 4%nat (queued w')
  ∧ canceled <$> heap w' !! 2%nat = Some true.
Proof.
  assert (Hne : (queued_matches (Scenario.job_on_pr "eee")
                   Scenario.world_lossy
                 ++ running_matches (Scenario.job_on_pr "eee")
                      Scenario.world_lossy)%list ≠ []).
  { vm_compute. discriminate. }
  assert (Hnew : ¬ In 4%nat (queued Scenario.world_lossy)).
  { simpl. intros [H|[H|[]]]; discriminate. }
  destruct (failed_reload_drops_the_new_job Scenario.adapters 4%nat
              (Scenario.job_on_pr "eee") 2%nat Scenario.world_lossy
              eq_refl eq_refl Hne eq_refl Hnew) as (He & Hq & _ & Hn & Hk & _).
  split; [exact He|]. split; [exact Hq|]. split; [exact Hn|].
  apply Hk. vm_compute. by left.
Defined.

(** ** Restarting a finished job *)

(** X17: [restart_job] with a uid the database does not know returns
    [None] and does nothing. With a known uid it builds a new job object
    from the stored commit, pull request and ref, with the configuration
    fetched anew, its result unset, and schedules it: the new job is the
    last on the waiting list and in one of the queues. The stored record
    of the old run stays in the database. (Observers reachable.) *)
Theorem restart_job_schedules_a_fresh_copy
    (A : Adapters) (uid0 : string) (w : World) :
  (find_job uid0 (db w) = None → restart_job A uid0 w = (Ok None, w))
  ∧ (∀ old, find_job uid0 (db w) = Some old → observers_ok A w →
       let new_one := List.length (heap w) in
       let w' := exec (restart_job A uid0) w in
       eval (restart_job A uid0) w = Ok (Some new_one)
       ∧ (∃ jn, heap w' !! new_one = Some jn
                ∧ commit jn = commit old ∧ pr jn = pr old ∧ ref jn = ref old
                ∧ config jn = fetch_murdock_config A (sha (commit old))
                ∧ result jn = None ∧ status jn = "queued")
       ∧ (∃ rest, queued w' = (rest ++ [new_one])%list)
       ∧ (In new_one (queue w') ∨ In new_one (fasttrack_queue w'))
       ∧ db w' = db w).
Proof.
  split.
  - intros Hnone. unfold restart_job. step_gets. by rewrite Hnone.
  - intros old Hold Hok new_one w'.
    set (nj := {| uid := new_uid A new_one; commit := commit old;
                  pr := pr old; ref := ref old;
                  config := fetch_murdock_config A (sha (commit old));
                  fasttracked :=
                    is_fasttracked A (pr old)
                      (fetch_murdock_config A (sha (commit old)));
                  status := "queued"; result := None; canceled := false;
                  cancelled := None; start_time := 0; stop_time := 0 |}).
    set (wa := set_heap (heap w ++ [nj]) w).
    assert (Hnj : heap wa !! new_one = Some nj).
    { unfold wa. simpl. by apply list_lookup_middle. }
    destruct (schedule_job_ok A new_one nj wa Hnj Hok)
      as (He & Hq & Hh & Hqu & _ & Hdb & _).
    assert (Hrun : restart_job A uid0 w
                   = (Ok (Some new_one), exec (schedule_job A new_one) wa)).
    { unfold restart_job. step_gets. rewrite Hold.
      unfold bind at 1, new_job at 1. fold new_one nj wa.
      unfold bind at 1. unfold eval in He. unfold exec.
      destruct (schedule_job A new_one wa) as [res w1]. simpl in He.
      by subst res. }
    unfold w', eval, exec at 1 2 3 4 5. rewrite Hrun. cbn [fst snd].
    split; [done|]. split; [|split; [|split]].
    + pose proof (Hh new_one) as Hn. rewrite Hnj in Hn.
      destruct (existsb _ _); eexists; (split; [exact Hn | done]).
    + eexists. exact Hq.
    + destruct Hqu as [[-> _]|[_ ->]]; [left|right];
        apply in_or_app; right; by left.
    + exact Hdb.
Qed.

Lemma restart_job_schedules_a_fresh_copy_witness :
  restart_job Cases.steady "nope" Scenario.world = (Ok None, Scenario.world)
  ∧ eval (restart_job Cases.steady "f02") Scenario.world = Ok (Some 5%nat)
  ∧ db (exec (restart_job Cases.steady "f02") Scenario.world)
    = db Scenario.world.
Proof.
  destruct (restart_job_schedules_a_fresh_copy Cases.steady "nope"
              Scenario.world) as [Hnone _].
  destruct (restart_job_schedules_a_fresh_copy Cases.steady "f02"
              Scenario.world) as [_ Hsome].
  assert (Hok : observers_ok Cases.steady Scenario.world) by done.
  destruct (Hsome _ eq_refl Hok) as (He & _ & _ & _ & Hdb).
  split; [by apply Hnone|]. split; [exact He | exact Hdb].
Defined.

(** ** Events that start a build *)

Lemma any_line_matches_none (A : Adapters) (pattern : string)
    (lines : list string) (w : World) :
  (∀ line, In line lines → line ≠ "" →
           re_match A pattern line = Some false) →
  any_line_matches A pattern lines w = (Ok false, w).
Proof.
  induction lines as [|line lines IH]; intros H; simpl; [done|].
  destruct (String.eqb_spec line "") as [->|Hne].
  - apply IH. intros l Hl. apply H. by right.
  - rewrite (H line) by (by left || done).
    apply IH. intros l Hl. apply H. by right.
Qed.

Lemma handle_skip_job_none (A : Adapters) (job : loc) (j : MurdockJob)
    (w : World) :
  heap w !! job = Some j →
  no_skip_line A (commit j) (config j) →
  handle_skip_job A job w = (Ok false, w).
Proof.
  intros Hj Hno. unfold handle_skip_job.
  unfold bind at 1. rewrite (get_job_run job j w Hj).
  unfold bind at 1. by rewrite any_line_matches_none.
Qed.



(** ** Pull requests without the ready label *)

Section NothingEnqueued.

Context {R : World → World → Prop} `{!PreOrder R}.

Hypothesis R_trace : ∀ w t, R w (set_trace t w).
Hypothesis R_heap : ∀ w h, R w (set_heap h w).
Hypothesis R_unqueue :
  ∀ w k, R w (set_queued (MurdockJobList.remove k (queued w)) w).

Lemma preserves_disable_jobs_matching (A : Adapters) (job : loc) :
  preserves R (disable_jobs_matching A job).
Proof.
  unfold disable_jobs_matching, cancel_queued_jobs_matching,
    stop_running_jobs_matching, cancel_queued_job, stop_running_job.
  frame; auto.
Qed.

Lemma preserves_handle_skip_job (A : Adapters) (job : loc) :
  preserves R (handle_skip_job A job).
Proof. unfold handle_skip_job. frame_more; auto. Qed.

Lemma preserves_policy_not_ready (A : Adapters) (act : string)
    (event : PullRequestEvent) (pull_request : PullRequestInfo) (job : loc) :
  option_in (ready_label A) (labels pull_request) = false →
  preserves R (pull_request_policy A act event pull_request job).
Proof.
  intros Hnot. unfold pull_request_policy. rewrite Hnot.
  change (negb false) with true. cbv iota.
  destruct (String.eqb act "labeled").
  - destruct (label_name event) as [label|]; [|apply preserves_raise].
    destruct (bool_decide (ready_label A ≠ None) && true);
      [apply preserves_ret|].
    destruct (negb (bool_decide (Some label = ready_label A))).
    + frame; auto.
    + apply preserves_bind; [apply preserves_disable_jobs_matching|].
      intros _. frame; auto.
  - apply preserves_bind; [apply preserves_disable_jobs_matching|].
    intros _. frame; auto.
Qed.

Lemma preserves_pull_request_not_ready (A : Adapters)
    (event : PullRequestEvent) :
  option_in (ready_label A) (pr_labels (pull_request event)) = false →
  preserves R (handle_pull_request_event A event).
Proof.
  intros Hnot. unfold handle_pull_request_event.
  destruct (action event) as [act|]; [|apply preserves_ret].
  destruct (negb (Py.str_in act ALLOWED_ACTIONS)); [apply preserves_ret|].
  destruct (fetch_commit_info A _) as [c|]; [|apply preserves_ret].
  apply preserves_bind; [apply preserves_new_job; auto|]. intros job.
  destruct (String.eqb act "closed").
  - apply preserves_bind; [apply preserves_disable_jobs_matching|].
    intros _. apply preserves_ret.
  - apply preserves_bind; [apply preserves_handle_skip_job|].
    intros [|]; [apply preserves_ret|].
    apply preserves_policy_not_ready. simpl.
    destruct (ready_label A) as [rl|]; [|done]. simpl in *.
    by rewrite str_in_sorted.
Qed.

End NothingEnqueued.

(** X19: while a pull request does not carry the ready label, no event on
    it ever enqueues a job, whatever the action: both queues stay as they
    are, no job enters the waiting list, and the running pool and the
    database are not touched. This holds in particular when no ready
    label is configured at all: [None] is never among the labels, so
    then no pull-request event starts a build. *)
Theorem pull_request_without_ready_label_never_enqueues
    (A : Adapters) (event : PullRequestEvent) (w : World) :
  (∀ rl, ready_label A = Some rl → rl ∉ pr_labels (pull_request event)) →
  let w' := exec (handle_pull_request_event A event) w in
  queue w' = queue w ∧ fasttrack_queue w' = fasttrack_queue w
  ∧ (∀ k, In k (queued w') → In k (queued w))
  ∧ running w' = running w ∧ db w' = db w.
Proof.
  intros Hnot w'.
  assert (Hin : option_in (ready_label A) (pr_labels (pull_request event))
                = false).
  { destruct (ready_label A) as [rl|] eqn:Hrl; [|done]. simpl.
    apply not_true_is_false. rewrite str_in_spec. by apply Hnot. }
  split; [|split; [|split; [|split]]].
  - by apply (preserves_pull_request_not_ready (R := keeps queue)).
  - by apply (preserves_pull_request_not_ready (R := keeps fasttrack_queue)).
  - apply (preserves_pull_request_not_ready (R := no_new_waiting));
      try done; intros w0 x k' Hk'; simpl in Hk'; try done.
    unfold MurdockJobList.remove in Hk'. apply filter_In in Hk'. tauto.
  - by apply (preserves_pull_request_not_ready (R := keeps running)).
  - by apply (preserves_pull_request_not_ready (R := keeps db)).
Qed.

Lemma pull_request_without_ready_label_never_enqueues_witness :
  let event := {| action := Some "opened";
                  pull_request := pull_request Scenario.labeled_bug;
                  label_name := None |} in
  let w' := exec (handle_pull_request_event Cases.adapters event)
              Scenario.world in
  queue w' = queue Scenario.world
  ∧ fasttrack_queue w' = fasttrack_queue Scenario.world.
Proof.
  intros event w'.
  destruct (pull_request_without_ready_label_never_enqueues Cases.adapters
              event Scenario.world) as (Hq & Hf & _).
  - intros rl Hrl. discriminate Hrl.
  - split; [exact Hq | exact Hf].
Defined.

(** ** Closing a pull request *)

Lemma search_by_pr_number_grown (store extra : list MurdockJob) (n : Z)
    (js : list loc) :
  (∀ k, In k js → is_Some (store !! k)) →
  MurdockJobList.search_by_pr_number (store ++ extra) n js
  = MurdockJobList.search_by_pr_number store n js.
Proof.
  intros Hv. unfold MurdockJobList.search_by_pr_number.
  apply filter_ext_in. intros k Hk.
  destruct (Hv k Hk) as [jk Hjk].
  by rewrite (lookup_app_l_Some _ _ _ _ Hjk), Hjk.
Qed.

Lemma occupied_spec (k : loc) (slots : list (option loc)) :
  In k (MurdockJobPool.occupied slots) ↔ In (Some k) slots.
Proof.
  unfold MurdockJobPool.occupied.
  induction slots as [|[k'|] slots IH]; simpl; [done| |].
  - rewrite IH. split; intros [H|H]; auto; left; congruence.
  - rewrite IH. split; [auto|]. by intros [H|H].
Qed.

(** X20: when a pull request is closed, every job waiting for it is
    canceled and taken off the waiting list, every job running for it is
    told to stop, and no job is scheduled: the queues and the running
    pool are as before. The other waiting jobs stay, in order. When the
    observers are reachable the handler returns without a message.
    (Every waiting or running job is an object of the store.) *)
Theorem closed_pull_request_disables_its_jobs
    (A : Adapters) (event : PullRequestEvent) (c : CommitModel) (w : World) :
  action event = Some "closed" →
  fetch_commit_info A (pr_head_sha (pull_request event)) = Some c →
  (∀ k, In k (queued w) → is_Some (heap w !! k)) →
  (∀ k, In (Some k) (running w) → is_Some (heap w !! k)) →
  let n := pr_number (pull_request event) in
  let waiting := MurdockJobList.search_by_pr_number (heap w) n (queued w) in
  let building := MurdockJobPool.search_by_pr_number (heap w) n (running w) in
  let w' := exec (handle_pull_request_event A event) w in
  queued w'
  = List.filter (fun l => negb (existsb (Nat.eqb l) waiting)) (queued w)
  ∧ (∀ k, In k waiting → canceled <$> heap w' !! k = Some true)
  ∧ (∀ k, In k building → In (JobStop k) (trace w'))
  ∧ queue w' = queue w ∧ fasttrack_queue w' = fasttrack_queue w
  ∧ running w' = running w
  ∧ (observers_ok A w → eval (handle_pull_request_event A event) w = Ok None).
Proof.
  intros Hact Hc Hq Hr n waiting building w'.
  set (new_one := List.length (heap w)).
  set (info := {| title := pr_title (pull_request event); number := n;
                  merge_commit := pr_merge_commit_sha (pull_request event);
                  user := pr_head_user_login (pull_request event);
                  url := pr_html_href (pull_request event);
                  base_repo := pr_base_clone_url (pull_request event);
                  base_branch := pr_base_ref (pull_request event);
                  base_commit := pr_base_sha (pull_request event);
                  base_full_name := pr_base_full_name (pull_request event);
                  mergeable := match pr_mergeable (pull_request event) with
                               | Some false => false
                               | _ => true
                               end;
                  labels := Py.sorted (pr_labels (pull_request event)) |}).
  set (cfg := fetch_murdock_config A (sha c)).
  set (nj := {| uid := new_uid A new_one; commit := c; pr := Some info;
                ref := None; config := cfg;
                fasttracked := is_fasttracked A (Some info) cfg;
                status := "queued"; result := None; canceled := false;
                cancelled := None; start_time := 0; stop_time := 0 |}).
  set (wa := set_heap (heap w ++ [nj]) w).
  assert (Hnj : heap wa !! new_one = Some nj).
  { unfold wa. simpl. by apply list_lookup_middle. }
  assert (Hqm : queued_matches nj wa = waiting).
  { unfold queued_matches. simpl. rewrite app_nil_r.
    by apply search_by_pr_number_grown. }
  assert (Hrm : running_matches nj wa = building).
  { unfold running_matches. simpl. rewrite app_nil_r.
    unfold building, MurdockJobPool.search_by_pr_number.
    apply search_by_pr_number_grown.
    intros k Hk. apply Hr. by apply occupied_spec. }
  assert (Hrun : handle_pull_request_event A event w
                 = (match eval (disable_jobs_matching A new_one) wa with
                    | Ok _ => Ok None
                    | Raise e => Raise e
                    end,
                    exec (disable_jobs_matching A new_one) wa)).
  { unfold handle_pull_request_event. rewrite Hact.
    change (negb (Py.str_in "closed" ALLOWED_ACTIONS)) with false.
    cbv iota. rewrite Hc.
    unfold bind at 1, new_job at 1. fold n info cfg new_one nj wa.
    change (String.eqb "closed" "closed") with true. cbv iota.
    unfold bind, eval, exec, ret.
    by destruct (disable_jobs_matching A new_one wa) as [[ds|e] wd]. }
  pose proof (disable_jobs_matching_result A new_one nj wa Hnj) as Hres.
  destruct (disable_jobs_matching_world A new_one nj wa Hnj)
    as (Hqd & Hh & Hrd & _ & Hqu & Hf & _ & _ & t & Ht & Hstop & _).
  rewrite Hqm in Hqd, Hh. rewrite Hrm in Hstop.
  unfold w', eval at 1, exec at 1 2 3 4 5 6. rewrite Hrun. cbn [fst snd].
  split; [exact Hqd|]. split; [|split; [|split; [|split; [|split]]]];
    try done.
  - intros k Hk. rewrite Hh.
    assert (Hkq : In k (queued w)).
    { unfold waiting, MurdockJobList.search_by_pr_number in Hk.
      apply filter_In in Hk. tauto. }
    destruct (Hq k Hkq) as [jk Hjk].
    apply existsb_eqb_spec in Hk as ->. simpl.
    by rewrite (lookup_app_l_Some _ _ _ _ Hjk).
  - intros k Hk. rewrite Ht. apply in_or_app. right. by apply Hstop.
  - intros Hok. rewrite Hres.
    assert (Hout : notify_outcome A reload_message (clients wa) = Ok tt).
    { by apply notify_outcome_ok. }
    rewrite Hout.
    by destruct (queued_matches nj wa ++ running_matches nj wa)%list.
Qed.

Lemma closed_pull_request_disables_its_jobs_witness :
  let event := {| action := Some "closed";
                  pull_request := pull_request Scenario.labeled_bug;
                  label_name := None |} in
  let w' := exec (handle_pull_request_event Cases.steady event)
              Scenario.world in
  queued w' = [0%nat]
  ∧ canceled <$> heap w' !! 2%nat = Some true
  ∧ In (JobStop 3%nat) (trace w')
  ∧ running w' = [Some 1%nat; Some 3%nat].
Proof.
  intros event w'.
  assert (Hq : ∀ k, In k (queued Scenario.world) →
                    is_Some (heap Scenario.world !! k)).
  { intros k [<-|[<-|[]]]; by eexists. }
  assert (Hr : ∀ k, In (Some k) (running Scenario.world) →
                    is_Some (heap Scenario.world !! k)).
  { intros k [H|[H|[]]]; injection H as <-; by eexists. }
  destruct (closed_pull_request_disables_its_jobs Cases.steady event
              (Scenario.commit_of "eee") Scenario.world eq_refl eq_refl
              Hq Hr) as (Hqd & Hc & Hs & _ & _ & Hrd & _).
  split; [exact Hqd|]. split; [|split; [|exact Hrd]].
  - apply Hc. by left.
  - apply Hs. by left.
Defined.

(** ** Pull requests that carry the ready label *)

(** X21: an event on a pull request that carries the configured ready
    label starts a build: for the actions opened, reopened, synchronize
    and created, and for labeled when the label just set is the ready
    label itself, a new job for the head commit and the pull request,
    with the labels sorted, goes to the end of the waiting list and into
    one of the queues, and the handler returns without a message. (The
    commit can be fetched and has no skip line; observers reachable.) *)
Theorem ready_pull_request_is_scheduled
    (A : Adapters) (event : PullRequestEvent) (act rl : string)
    (c : CommitModel) (w : World) :
  action event = Some act →
  Py.str_in act ALLOWED_ACTIONS = true →
  act ≠ "closed" → act ≠ "unlabeled" →
  (act = "labeled" → label_name event = Some rl) →
  ready_label A = Some rl →
  rl ∈ pr_labels (pull_request event) →
  fetch_commit_info A (pr_head_sha (pull_request event)) = Some c →
  no_skip_line A c (fetch_murdock_config A (sha c)) →
  observers_ok A w →
  let new_one := List.length (heap w) in
  let w' := exec (handle_pull_request_event A event) w in
  eval (handle_pull_request_event A event) w = Ok None
  ∧ (∃ jn p, heap w' !! new_one = Some jn
             ∧ commit jn = c ∧ ref jn = None ∧ pr jn = Some p
             ∧ number p = pr_number (pull_request event)
             ∧ labels p = Py.sorted (pr_labels (pull_request event)))
  ∧ (∃ rest, queued w' = (rest ++ [new_one])%list)
  ∧ (In new_one (queue w') ∨ In new_one (fasttrack_queue w')).
Proof.
  intros Hact Hallowed Hclosed Hunl Hlab Hrl Hin Hc Hno Hok new_one w'.
  set (info := {| title := pr_title (pull_request event);
                  number := pr_number (pull_request event);
                  merge_commit := pr_merge_commit_sha (pull_request event);
                  user := pr_head_user_login (pull_request event);
                  url := pr_html_href (pull_request event);
                  base_repo := pr_base_clone_url (pull_request event);
                  base_branch := pr_base_ref (pull_request event);
                  base_commit := pr_base_sha (pull_request event);
                  base_full_name := pr_base_full_name (pull_request event);
                  mergeable := match pr_mergeable (pull_request event) with
                               | Some false => false
                               | _ => true
                               end;
                  labels := Py.sorted (pr_labels (pull_request event)) |}).
  set (cfg := fetch_murdock_config A (sha c)).
  set (nj := {| uid := new_uid A new_one; commit := c; pr := Some info;
                ref := None; config := cfg;
                fasttracked := is_fasttracked A (Some info) cfg;
                status := "queued"; result := None; canceled := false;
                cancelled := None; start_time := 0; stop_time := 0 |}).
  set (wa := set_heap (heap w ++ [nj]) w).
  assert (Hnj : heap wa !! new_one = Some nj).
  { unfold wa. simpl. by apply list_lookup_middle. }
  destruct (schedule_job_ok A new_one nj wa Hnj Hok)
    as (He & Hq & Hh & Hqu & _).
  assert (Hready : option_in (ready_label A) (labels info) = true).
  { rewrite Hrl. simpl. rewrite str_in_sorted. by apply str_in_spec. }
  assert (Hpolicy : pull_request_policy A act event info new_one wa
                    = (Ok None, exec (schedule_job A new_one) wa)).
  { unfold pull_request_policy. rewrite Hready.
    change (negb true) with false. cbv iota.
    apply String.eqb_neq in Hunl. rewrite Hunl.
    assert (Hgo : ((ret tt >> schedule_job A new_one)
                   >> ret (@None string)) wa
                  = (Ok None, exec (schedule_job A new_one) wa)).
    { unfold bind, ret, exec. unfold eval in He.
      destruct (schedule_job A new_one wa) as [res w1]. simpl in He.
      by subst res. }
    destruct (String.eqb_spec act "labeled") as [Hl|Hl]; [|exact Hgo].
    rewrite (Hlab Hl), Hrl, andb_false_r.
    rewrite bool_decide_eq_true_2 by done. exact Hgo. }
  assert (Hrun : handle_pull_request_event A event w
                 = (Ok None, exec (schedule_job A new_one) wa)).
  { unfold handle_pull_request_event. rewrite Hact, Hallowed.
    change (negb true) with false. cbv iota. rewrite Hc.
    unfold bind at 1, new_job at 1. fold info cfg new_one nj wa.
    apply String.eqb_neq in Hclosed. rewrite Hclosed.
    unfold bind at 1. rewrite (handle_skip_job_none A new_one nj wa Hnj Hno).
    exact Hpolicy. }
  unfold w', eval, exec at 1 2 3 4. rewrite Hrun. cbn [fst snd].
  split; [done|]. split; [|split].
  - pose proof (Hh new_one) as Hn. rewrite Hnj in Hn.
    destruct (existsb _ _); eexists _, info; (split; [exact Hn | done]).
  - eexists. exact Hq.
  - destruct Hqu as [[-> _]|[_ ->]]; [left|right];
      apply in_or_app; right; by left.
Qed.

Lemma ready_pull_request_is_scheduled_witness :
  let event := {| action := Some "synchronize";
                  pull_request :=
                    {| pr_title := "Add a driver"; pr_number := 9;
                       pr_merge_commit_sha := None; pr_head_sha := "fff";
                       pr_head_user_login := "bob";
                       pr_html_href := "https://example.org/pull/9";
                       pr_base_clone_url := "https://example.org/repo.git";
                       pr_base_ref := "master"; pr_base_sha := "000a";
                       pr_base_full_name := "org/repo";
                       pr_mergeable := None;
                       pr_labels := ["bug"; "CI: ready for build"] |};
                  label_name := None |} in
  let w' := exec (handle_pull_request_event Cases.steady event)
              Scenario.world in
  eval (handle_pull_request_event Cases.steady event) Scenario.world
  = Ok None
  ∧ ∃ rest, queued w' = (rest ++ [5%nat])%list.
Proof.
  intros event w'.
  assert (Hno : no_skip_line Cases.steady (Scenario.commit_of "fff")
                  Cases.settings).
  { intros line [<-|[]] _. reflexivity. }
  assert (Hok : observers_ok Cases.steady Scenario.world) by done.
  assert (Hin : "CI: ready for build" ∈ pr_labels (pull_request event)).
  { simpl. apply list_elem_of_In. right. by left. }
  destruct (ready_pull_request_is_scheduled Cases.steady event
              "synchronize" "CI: ready for build" (Scenario.commit_of "fff")
              Scenario.world eq_refl eq_refl ltac:(discriminate)
              ltac:(discriminate) ltac:(discriminate) eq_refl Hin eq_refl
              Hno Hok) as (He & _ & Hq & _).
  split; [exact He | exact Hq].
Defined.

(** ** What the event handlers never touch *)

Global Instance untouched_preorder : PreOrder untouched.
Proof.
  split.
  - by intros w.
  - intros w1 w2 w3 (H1 & H2 & H3 & H4 & H5) (G1 & G2 & G3 & G4 & G5).
    unfold untouched. repeat split; congruence.
Qed.

Lemma preserves_untouched_push (A : Adapters) (event : PushEvent) :
  preserves untouched (handle_push_event A event).
Proof. unfold_ops. frame_more; done. Qed.

Lemma preserves_untouched_pull_request (A : Adapters)
    (event : PullRequestEvent) :
  preserves untouched (handle_pull_request_event A event).
Proof. unfold_ops. frame_more; done. Qed.

Lemma preserves_untouched_restart (A : Adapters) (uid0 : string) :
  preserves untouched (restart_job A uid0).
Proof. unfold_ops. frame_more; done. Qed.

(** X22: the webhook handlers and [restart_job] work on the waiting list,
    the queues and the job objects only. However they end, they never
    write to the database of finished jobs, never change a slot of the
    running pool (a job they stop keeps its slot until the worker
    finalizes it), and never change the observer list. *)
Theorem handlers_leave_database_and_pool_alone (A : Adapters) (w : World) :
  (∀ event, untouched w (exec (handle_push_event A event) w))
  ∧ (∀ event, untouched w (exec (handle_pull_request_event A event) w))
  ∧ (∀ uid0, untouched w (exec (restart_job A uid0) w)).
Proof.
  split; [|split].
  - intros event. apply preserves_untouched_push.
  - intros event. apply preserves_untouched_pull_request.
  - intros uid0. apply preserves_untouched_restart.
Qed.

(** ** Listing the waiting jobs *)

Lemma insert_by_key_false {X} (key : X → bool) (x : X) (l : list X) :
  key x = false → insert_by_key key x l = x :: l.
Proof. intros Hx. destruct l as [|y l]; simpl; [done|]. by rewrite Hx. Qed.

Lemma insert_by_key_true {X} (key : X → bool) (x : X) (a b : list X) :
  key x = true →
  (∀ y, In y a → key y = false) →
  (∀ y, In y b → key y = true) →
  insert_by_key key x (a ++ b) = (a ++ x :: b)%list.
Proof.
  intros Hx Ha Hb. induction a as [|y a IH]; simpl.
  - destruct b as [|y b]; simpl; [done|].
    rewrite Hx, (Hb y) by (by left). done.
  - rewrite Hx, (Ha y) by (by left). simpl.
    rewrite IH; [done|]. intros z Hz. apply Ha. by right.
Qed.

Lemma sorted_by_key_spec {X} (key : X → bool) (l : list X) :
  sorted_by_key key l
  = (List.filter (fun x => negb (key x)) l ++ List.filter key l)%list.
Proof.
  unfold sorted_by_key. induction l as [|x l IH]; simpl; [done|].
  rewrite IH. destruct (key x) eqn:Hx; simpl.
  - apply insert_by_key_true; [done| |].
    + intros y Hy. apply filter_In in Hy as [_ Hy].
      by apply negb_true_iff in Hy.
    + intros y Hy. by apply filter_In in Hy as [_ Hy].
  - by apply insert_by_key_false.
Qed.

(** X23: [get_queued_jobs] lists the waiting jobs the query selects with
    the fast-tracked ones last: first the models that are not
    fast-tracked, then the fast-tracked ones, each group in the order of
    the waiting list. ([False] sorts before [True], and [sorted] is
    stable.) *)
Theorem get_queued_jobs_lists_fasttracked_last
    {JobModel : Type} (queued_model : MurdockJob → JobModel)
    (model_fasttracked : JobModel → bool)
    (search_with_query : JobQueryModel → list MurdockJob → list loc
                         → list loc)
    (query : JobQueryModel) (w : World) :
  let models :=
    omap (fun k => queued_model <$> heap w !! k)
      (search_with_query query (heap w) (queued w)) in
  get_queued_jobs JobModel queued_model model_fasttracked search_with_query
    query w
  = (List.filter (fun m => negb (model_fasttracked m)) models
     ++ List.filter model_fasttracked models)%list.
Proof. intros models. apply sorted_by_key_spec. Qed.

(** ** Removing finished jobs *)

(** X24: [remove_finished_jobs] removes every finished job the query
    selects, however small the limit the caller had set: each of them is
    gone from the database and had its work directory removed (one
    [remove_dir] call per job, on [work_dir/uid]), and the jobs the query
    does not select all stay. This is so whether or not the reload that
    ends the call reaches the observers. *)
Theorem remove_finished_jobs_ignores_the_limit
    (A : Adapters) (query : loc) (q0 : JobQueryModel) (w : World) :
  queries w !! query = Some q0 →
  let w' := exec (remove_finished_jobs A query) w in
  let removed := List.filter (selects q0) (db w) in
  db w' = List.filter (fun job => negb (selects q0 job)) (db w)
  ∧ (∀ job, In job removed →
       ¬ In job (db w')
       ∧ In (RemoveDir (path_join (work_dir A) (uid job))) (trace w'))
  ∧ (∀ job, In job (db w) → selects q0 job = false → In job (db w'))
  ∧ List.filter (fun e => match e with RemoveDir _ => true | _ => false end)
      (trace w')
    = (List.filter (fun e => match e with RemoveDir _ => true | _ => false end)
         (trace w)
       ++ map (fun job => RemoveDir (path_join (work_dir A) (uid job)))
            removed)%list.
Proof.
  intros Hq w' removed. unfold w', exec.
  rewrite (remove_finished_jobs_run A query q0 w Hq). simpl.
  unfold Database.delete_jobs. fold removed.
  split; [done|]. split; [|split].
  - intros job Hjob. split.
    + rewrite filter_In. intros [_ H].
      apply filter_In in Hjob as [_ Hs]. by rewrite Hs in H.
    + apply in_or_app. right. apply in_or_app. left.
      apply in_map_iff. by exists job.
  - intros job Hjob Hs. apply filter_In. by rewrite Hs.
  - rewrite !List.filter_app. f_equal.
    assert (Hsends : List.filter
              (fun e => match e with RemoveDir _ => true | _ => false end)
              (sends reload_message w) = []).
    { unfold sends. by induction (clients w). }
    rewrite Hsends, app_nil_r.
    by induction removed as [|x l IH]; simpl; [|rewrite IH].
Qed.

Lemma remove_finished_jobs_ignores_the_limit_witness :
  let query := {| limit := 1; selects := fun j => result_is j "passed" |} in
  let w := set_queries [query] Scenario.world_lossy in
  let w' := exec (remove_finished_jobs Scenario.adapters 0%nat) w in
  List.length (List.filter (selects query) (db w)) = 2%nat
  ∧ db w' = [set_result "errored"
               (Scenario.job_on_ref "f02" Scenario.topic)].
Proof.
  intros query w w'.
  destruct (remove_finished_jobs_ignores_the_limit Scenario.adapters 0%nat
              query w eq_refl) as (Hdb & _).
  split; [reflexivity | exact Hdb].
Defined.

(** ** Pull-request events that are turned away *)

Lemma silent_bind {X Y} (m : M X) (k : X → M (option Y)) :
  (∀ x, silent (k x)) → silent (bind m k).
Proof.
  intros Hk w y. unfold eval, bind.
  destruct (m w) as [[x|e] w1]; simpl; [apply Hk | done].
Qed.

Lemma silent_ret {X} : silent (ret (@None X)).
Proof. by intros w x. Qed.

Lemma silent_raise {X} (e : Exn) : silent (@raise (option X) e).
Proof. by intros w x. Qed.

Ltac silent_step :=
  match goal with
  | |- silent (bind _ _) => apply silent_bind; intros ?
  | |- silent (ret None) => apply silent_ret
  | |- silent (raise _) => apply silent_raise
  | |- silent (if ?b then _ else _) => destruct b
  | |- silent (match ?x with _ => _ end) => destruct x
  end.

Lemma silent_policy (A : Adapters) (act : string) (event : PullRequestEvent)
    (pull_request : PullRequestInfo) (job : loc) :
  silent (pull_request_policy A act event pull_request job).
Proof. unfold pull_request_policy. repeat silent_step. Qed.

(** X3: [handle_pull_request_event] answers with a message in two cases
    only, an event without an action ("Unsupported event") and an action
    outside [ALLOWED_ACTIONS] ("Unsupported action '...'"); every other
    event is answered without a message or raises. An event it answers
    with a message, and an event whose head commit cannot be fetched,
    change nothing at all: no job object, no status, no broadcast. *)
Theorem pull_request_event_turned_away
    (A : Adapters) (event : PullRequestEvent) (w : World) :
  (∀ s, eval (handle_pull_request_event A event) w = Ok (Some s)
        ↔ (action event = None ∧ s = "Unsupported event")
          ∨ (∃ act, action event = Some act
                    ∧ Py.str_in act ALLOWED_ACTIONS = false
                    ∧ s = "Unsupported action '" +:+ act +:+ "'"))
  ∧ (∀ s, eval (handle_pull_request_event A event) w = Ok (Some s) →
          exec (handle_pull_request_event A event) w = w)
  ∧ (fetch_commit_info A (pr_head_sha (pull_request event)) = None →
     exec (handle_pull_request_event A event) w = w).
Proof.
  assert (Hrest : ∀ act c,
    silent
      (let cfg := fetch_murdock_config A (sha c) in
       let pr_data := pull_request event in
       let info :=
         {| title := pr_title pr_data;
            number := pr_number pr_data;
            merge_commit := pr_merge_commit_sha pr_data;
            user := pr_head_user_login pr_data;
            url := pr_html_href pr_data;
            base_repo := pr_base_clone_url pr_data;
            base_branch := pr_base_ref pr_data;
            base_commit := pr_base_sha pr_data;
            base_full_name := pr_base_full_name pr_data;
            mergeable := match pr_mergeable pr_data with
                         | Some false => false
                         | _ => true
                         end;
            labels := Py.sorted (pr_labels pr_data) |} in
       let* job := new_job A c (Some info) None cfg in
       if String.eqb act "closed" then
         disable_jobs_matching A job >> ret None
       else
         let* skip := handle_skip_job A job in
         if skip then ret None
         else pull_request_policy A act event info job)).
  { intros act c. cbv zeta. apply silent_bind. intros job.
    destruct (String.eqb act "closed").
    - apply silent_bind. intros _. apply silent_ret.
    - apply silent_bind. intros [|]; [apply silent_ret|].
      apply silent_policy. }
  unfold eval, exec, handle_pull_request_event.
  destruct (action event) as [act|] eqn:Hact.
  - destruct (Py.str_in act ALLOWED_ACTIONS) eqn:Hal; simpl negb; cbv iota.
    + destruct (fetch_commit_info A _) as [c|] eqn:Hc.
      * split; [|split; [|done]].
        -- intros s. split.
           ++ intros H. by apply (Hrest act c w s) in H.
           ++ intros [[H _]|(act' & H1 & H2 & _)]; [done|]. congruence.
        -- intros s H. by apply (Hrest act c w s) in H.
      * split; [|done]. intros s. split; [done|].
        intros [[H _]|(act' & H1 & H2 & _)]; [done|]. congruence.
    + split; [|done]. intros s. simpl. split.
      * intros H. injection H as <-. right. by exists act.
      * intros [[H _]|(act' & H1 & H2 & ->)]; [done|]. congruence.
  - split; [|done]. intros s. simpl. split.
    + intros H. injection H as <-. by left.
    + intros [[_ ->]|(act' & H1 & _)]; done.
Qed.

Lemma pull_request_event_turned_away_witness :
  let event := {| action := Some "edited";
                  pull_request := pull_request Scenario.labeled_bug;
                  label_name := None |} in
  eval (handle_pull_request_event Scenario.adapters event) Scenario.world
  = Ok (Some "Unsupported action 'edited'")
  ∧ exec (handle_pull_request_event Scenario.adapters event) Scenario.world
    = Scenario.world.
Proof.
  intros event.
  destruct (pull_request_event_turned_away Scenario.adapters event
              Scenario.world) as (Hiff & Hsame & _).
  assert (He : eval (handle_pull_request_event Scenario.adapters event)
                 Scenario.world = Ok (Some "Unsupported action 'edited'")).
  { apply Hiff. right. by exists "edited". }
  split; [exact He | by eapply Hsame].
Defined.

(** ** Label changes on a pull request *)

(** The handler on an event it does not turn away, up to the policy. *)
Lemma pull_request_event_reaches_policy
    (A : Adapters) (event : PullRequestEvent) (act : string)
    (c : CommitModel) (w : World) :
  action event = Some act →
  Py.str_in act ALLOWED_ACTIONS = true →
  act ≠ "closed" →
  fetch_commit_info A (pr_head_sha (pull_request event)) = Some c →
  no_skip_line A c (fetch_murdock_config A (sha c)) →
  let info := info_of (pull_request event) in
  let cfg := fetch_murdock_config A (sha c) in
  let new_one := List.length (heap w) in
  let nj := {| uid := new_uid A new_one; commit := c; pr := Some info;
               ref := None; config := cfg;
               fasttracked := is_fasttracked A (Some info) cfg;
               status := "queued"; result := None; canceled := false;
               cancelled := None; start_time := 0; stop_time := 0 |} in
  handle_pull_request_event A event w
  = pull_request_policy A act event info new_one
      (set_heap (heap w ++ [nj]) w).
Proof.
  intros Hact Hallowed Hclosed Hc Hno info cfg new_one nj.
  set (wa := set_heap (heap w ++ [nj]) w).
  assert (Hnj : heap wa !! new_one = Some nj).
  { unfold wa. simpl. by apply list_lookup_middle. }
  unfold handle_pull_request_event. rewrite Hact, Hallowed.
  change (negb true) with false. cbv iota. rewrite Hc.
  unfold bind at 1, new_job at 1.
  fold cfg. fold (info_of (pull_request event)). fold info new_one nj wa.
  apply String.eqb_neq in Hclosed. rewrite Hclosed.
  unfold bind at 1. by rewrite (handle_skip_job_none A new_one nj wa Hnj Hno).
Qed.

Lemma annotate_loop (label : string) (ks : list loc) (w : World) :
  List.NoDup ks →
  (∀ k, In k ks → is_Some (heap w !! k)) →
  ∃ h, for_each ks (fun queued_job =>
         let* qj := get_job queued_job in
         match pr qj with
         | Some p => update_job queued_job
                       (set_pr (Some (set_labels (labels p ++ [label]) p)))
         | None => ret tt
         end) w = (Ok tt, set_heap h w)
       ∧ ∀ l, h !! l = if existsb (Nat.eqb l) ks
                       then add_label label <$> heap w !! l
                       else heap w !! l.
Proof.
  revert w. induction ks as [|k ks IH]; intros w Hnd Hv.
  - exists (heap w). split; [by destruct w | done].
  - apply List.NoDup_cons_iff in Hnd as [Hk Hnd].
    destruct (Hv k) as [jk Hjk]; [by left|].
    set (wa := set_heap (<[k := add_label label jk]> (heap w)) w).
    assert (Hstep : (let* qj := get_job k in
                     match pr qj with
                     | Some p => update_job k
                         (set_pr (Some (set_labels (labels p ++ [label]) p)))
                     | None => ret tt
                     end) w = (Ok tt, wa)).
    { unfold bind at 1. rewrite (get_job_run k jk w Hjk).
      unfold wa, add_label. destruct (pr jk) as [p|] eqn:Hp.
      - by rewrite (update_job_run k jk _ w Hjk).
      - unfold ret. f_equal. rewrite list_insert_id by done. by destruct w. }
    assert (Ha : ∀ l, heap wa !! l
                      = if Nat.eqb l k then Some (add_label label jk)
                        else heap w !! l).
    { intros l. unfold wa. simpl.
      destruct (Nat.eqb_spec l k) as [->|Hne].
      - by eapply lookup_updated.
      - by apply list_lookup_insert_ne. }
    destruct (IH wa Hnd) as (h & Hrun & Hh).
    { intros k' Hk'. rewrite Ha. destruct (Nat.eqb k' k); [done|].
      apply Hv. by right. }
    exists h. split.
    + simpl for_each. unfold bind at 1. rewrite Hstep. rewrite Hrun.
      by unfold wa.
    + intros l. rewrite Hh, Ha. simpl.
      destruct (Nat.eqb_spec l k) as [->|Hne]; simpl; [|done].
      rewrite Hjk.
      assert (Hex : existsb (Nat.eqb k) ks = false).
      { apply not_true_is_false. by rewrite existsb_eqb_spec. }
      by rewrite Hex.
Qed.

Lemma filter_nodup {X} (f : X → bool) (l : list X) :
  List.NoDup l → List.NoDup (List.filter f l).
Proof. apply List.NoDup_filter. Qed.

(** X25: a "labeled" event for a label other than the ready label, on a
    pull request that carries the ready label (or when none is
    configured), starts no build and cancels none: the label is appended
    to the pull-request labels of every job waiting for that pull
    request, and nothing else changes but the store gaining the unused
    candidate job. (The commit can be fetched and has no skip line; the
    waiting list holds objects of the store, each once.) *)
Theorem other_label_is_recorded_on_waiting_jobs
    (A : Adapters) (event : PullRequestEvent) (label : string)
    (c : CommitModel) (w : World) :
  action event = Some "labeled" →
  label_name event = Some label →
  ready_label A ≠ Some label →
  (∀ rl, ready_label A = Some rl → rl ∈ pr_labels (pull_request event)) →
  fetch_commit_info A (pr_head_sha (pull_request event)) = Some c →
  no_skip_line A c (fetch_murdock_config A (sha c)) →
  List.NoDup (queued w) →
  (∀ k, In k (queued w) → is_Some (heap w !! k)) →
  let waiting :=
    MurdockJobList.search_by_pr_number (heap w)
      (pr_number (pull_request event)) (queued w) in
  let w' := exec (handle_pull_request_event A event) w in
  eval (handle_pull_request_event A event) w = Ok None
  ∧ (∀ k jk, heap w !! k = Some jk →
       heap w' !! k
       = Some (if existsb (Nat.eqb k) waiting then add_label label jk
               else jk))
  ∧ (∀ k jk, In k waiting → heap w' !! k = Some jk →
       carries label jk = true)
  ∧ queued w' = queued w ∧ queue w' = queue w
  ∧ fasttrack_queue w' = fasttrack_queue w ∧ running w' = running w
  ∧ trace w' = trace w.
Proof.
  intros Hact Hlab Hother Hready Hc Hno Hnd Hv waiting w'.
  pose proof (pull_request_event_reaches_policy A event "labeled" c w
                Hact eq_refl ltac:(discriminate) Hc Hno) as Hpol.
  cbv zeta in Hpol.
  set (nj := {| uid := _ |}) in Hpol.
  set (wa := set_heap (heap w ++ [nj]) w) in Hpol.
  assert (Hfound : MurdockJobList.search_by_pr_number (heap wa)
                     (number (info_of (pull_request event))) (queued wa)
                   = waiting).
  { unfold wa. simpl. by apply search_by_pr_number_grown. }
  assert (Hvw : ∀ k, In k waiting → is_Some (heap wa !! k)).
  { intros k Hk. unfold waiting, MurdockJobList.search_by_pr_number in Hk.
    apply filter_In in Hk as [Hk _]. destruct (Hv k Hk) as [jk Hjk].
    exists jk. unfold wa. simpl. by apply lookup_app_l_Some. }
  destruct (annotate_loop label waiting wa) as (h & Hloop & Hh);
    [by apply filter_nodup | exact Hvw |].
  assert (Hrun : handle_pull_request_event A event w
                 = (Ok None, set_heap h wa)).
  { rewrite Hpol. unfold pull_request_policy.
    change (String.eqb "labeled" "labeled") with true. cbv iota.
    rewrite Hlab.
    assert (Hin : option_in (ready_label A)
                    (labels (info_of (pull_request event))) 
                  = bool_decide (ready_label A ≠ None)).
    { destruct (ready_label A) as [rl|] eqn:Hrl; simpl; [|done].
      rewrite str_in_sorted. apply str_in_spec. by apply Hready. }
    rewrite Hin.
    assert (Hguard : bool_decide (ready_label A ≠ None)
                     && negb (bool_decide (ready_label A ≠ None)) = false).
    { by destruct (bool_decide (ready_label A ≠ None)). }
    rewrite Hguard.
    rewrite (bool_decide_eq_false_2 (Some label = ready_label A))
      by congruence.
    change (negb false) with true. cbv iota.
    step_gets. rewrite Hfound.
    unfold bind at 1. by rewrite Hloop. }
  unfold w', eval, exec. rewrite Hrun. cbn [fst snd].
  split; [done|].
  assert (Hheap : ∀ k jk, heap w !! k = Some jk →
            h !! k = Some (if existsb (Nat.eqb k) waiting
                           then add_label label jk else jk)).
  { intros k jk Hk. rewrite Hh. unfold wa. simpl.
    rewrite (lookup_app_l_Some _ _ _ _ Hk).
    by destruct (existsb (Nat.eqb k) waiting). }
  split; [exact Hheap|]. split; [|done].
  intros k jk Hk Hjk. simpl in Hjk.
  assert (Hkq : In k (queued w) ∧ ∃ j0 p, heap w !! k = Some j0
                                          ∧ pr j0 = Some p).
  { unfold waiting, MurdockJobList.search_by_pr_number in Hk.
    apply filter_In in Hk as [Hk Hm]. split; [done|].
    destruct (heap w !! k) as [j0|]; [|done].
    destruct (pr j0) as [p|] eqn:Hp; [|done]. by exists j0, p. }
  destruct Hkq as (_ & j0 & p & Hj0 & Hp).
  rewrite (Hheap k j0 Hj0) in Hjk.
  apply existsb_eqb_spec in Hk. rewrite Hk in Hjk. injection Hjk as <-.
  unfold carries, add_label. rewrite Hp. simpl.
  apply str_in_spec. apply list_elem_of_In, in_or_app. right. by left.
Qed.

Lemma other_label_is_recorded_on_waiting_jobs_witness :
  let w' := exec (handle_pull_request_event Cases.adapters
                    Scenario.labeled_bug) Scenario.world in
  eval (handle_pull_request_event Cases.adapters Scenario.labeled_bug)
    Scenario.world = Ok None
  ∧ heap w' !! 2%nat = Some (add_label "bug" (Scenario.job_on_pr "ccc"))
  ∧ queued w' = queued Scenario.world.
Proof.
  assert (Hno : no_skip_line Cases.adapters
                  {| sha := "eee"; message := "Fix the build";
                     author := "alice" |} Cases.settings).
  { intros line [<-|[]] _. reflexivity. }
  assert (Hnd : List.NoDup (queued Scenario.world)).
  { repeat constructor; simpl; intuition discriminate. }
  assert (Hv : ∀ k, In k (queued Scenario.world) →
                    is_Some (heap Scenario.world !! k)).
  { intros k [<-|[<-|[]]]; by eexists. }
  destruct (other_label_is_recorded_on_waiting_jobs Cases.adapters
              Scenario.labeled_bug "bug" _ Scenario.world eq_refl eq_refl
              ltac:(discriminate) ltac:(discriminate) eq_refl Hno Hnd Hv)
    as (He & Hh & _ & Hq & _).
  split; [exact He|]. split; [|exact Hq].
  by apply (Hh 2%nat (Scenario.job_on_pr "ccc")).
Defined.




(** ** Skip keywords *)

Lemma any_line_matches_some (A : Adapters) (pattern : string)
    (before rest : list string) (line : string) (w : World) :
  line ≠ "" → re_match A pattern line = Some true →
  (∀ x, In x before → x = "" ∨ re_match A pattern x = Some false) →
  any_line_matches A pattern (before ++ line :: rest) w = (Ok true, w).
Proof.
  intros Hne Hm Hb. induction before as [|x before IH]; simpl.
  - apply String.eqb_neq in Hne. by rewrite Hne, Hm.
  - destruct (String.eqb_spec x "") as [->|Hx].
    + apply IH. intros y Hy. apply Hb. by right.
    + destruct (Hb x) as [->|Hf]; [by left|done|]. rewrite Hf.
      apply IH. intros y Hy. apply Hb. by right.
Qed.

Lemma handle_skip_job_some (A : Adapters) (job : loc) (j : MurdockJob)
    (w : World) :
  heap w !! job = Some j →
  has_skip_line A (commit j) (config j) →
  handle_skip_job A job w
  = (Ok true,
     set_trace (trace w ++ [SetCommitStatus (sha (commit j)) skipped_status])
       w).
Proof.
  intros Hj (before & line & rest & Hsplit & Hne & Hm & Hb).
  unfold handle_skip_job.
  unfold bind at 1. rewrite (get_job_run job j w Hj).
  unfold bind at 1. rewrite Hsplit.
  by rewrite (any_line_matches_some A _ before rest line w Hne Hm Hb).
Qed.

(** X27: a commit whose message has a line that is one of the skip
    keywords is not built. For a push that the rules accept, and for a
    pull-request event other than "closed", the handler returns after two
    effects only: the candidate job object is added at the end of the
    store, and the one status "The build was skipped." is posted on the
    commit. Every other component of the state is as before and every
    job object that existed is unchanged: nothing is enqueued, canceled
    or stopped, and no reload is broadcast, whatever the labels of the
    pull request. *)
Theorem commit_with_skip_line_is_not_built
    (A : Adapters) (c : CommitModel) (w : World) :
  has_skip_line A c (fetch_murdock_config A (sha c)) →
  let skipped (candidate : MurdockJob) (w' : World) : Prop :=
    w' = set_trace (trace w ++ [SetCommitStatus (sha c) skipped_status])
           (set_heap (heap w ++ [candidate]) w)
    ∧ commit candidate = c ∧ canceled candidate = false
    ∧ result candidate = None
    ∧ (∀ k j, heap w !! k = Some j → heap w' !! k = Some j)
    ∧ queued w' = queued w ∧ queue w' = queue w
    ∧ fasttrack_queue w' = fasttrack_queue w ∧ running w' = running w
    ∧ db w' = db w in
  (∀ event ref_type ref_name,
     Py.last_two (Py.split "/" (push_ref event)) = [ref_type; ref_name] →
     after event ≠ ZERO_SHA →
     fetch_commit_info A (after event) = Some c →
     (ref_type = "heads" →
      handle_ref A ref_name
        (push_branches (fetch_murdock_config A (sha c))) = Ok true) →
     (ref_type = "tags" →
      handle_ref A ref_name
        (push_tags (fetch_murdock_config A (sha c))) = Ok true) →
     eval (handle_push_event A event) w = Ok tt
     ∧ ∃ candidate,
         skipped candidate (exec (handle_push_event A event) w)
         ∧ pr candidate = None ∧ ref candidate = Some (push_ref event))
  ∧ (∀ event act,
       action event = Some act →
       Py.str_in act ALLOWED_ACTIONS = true →
       act ≠ "closed" →
       fetch_commit_info A (pr_head_sha (pull_request event)) = Some c →
       eval (handle_pull_request_event A event) w = Ok None
       ∧ ∃ candidate,
           skipped candidate (exec (handle_pull_request_event A event) w)
           ∧ pr candidate = Some (info_of (pull_request event))
           ∧ ref candidate = None).
Proof.
  intros Hskip skipped. set (cfg := fetch_murdock_config A (sha c)) in *.
  set (new_one := List.length (heap w)).
  split.
  - intros event ref_type ref_name Hsplit Hafter Hc Hheads Htags.
    set (nj := {| uid := new_uid A new_one; commit := c; pr := None;
                  ref := Some (push_ref event); config := cfg;
                  fasttracked := is_fasttracked A None cfg;
                  status := "queued"; result := None; canceled := false;
                  cancelled := None; start_time := 0; stop_time := 0 |}).
    set (wa := set_heap (heap w ++ [nj]) w).
    assert (Hnj : heap wa !! new_one = Some nj).
    { unfold wa. simpl. by apply list_lookup_middle. }
    assert (Hrun : handle_push_event A event w
                   = (Ok tt,
                      set_trace (trace w ++ [SetCommitStatus (sha c)
                                               skipped_status]) wa)).
    { unfold handle_push_event. rewrite Hsplit.
      apply String.eqb_neq in Hafter. rewrite Hafter, Hc. fold cfg.
      assert (Hrules :
        (let* refused_head :=
           if String.eqb ref_type "heads"
           then let* ok := lift (handle_ref A ref_name (push_branches cfg)) in
                ret (negb ok)
           else ret false in
         let* refused :=
           if refused_head then ret true
           else if String.eqb ref_type "tags"
           then let* ok := lift (handle_ref A ref_name (push_tags cfg)) in
                ret (negb ok)
           else ret false in
         ret refused) w = (Ok false, w)).
      { destruct (String.eqb_spec ref_type "heads") as [Ht|Ht].
        - unfold bind, lift, ret. rewrite (Hheads Ht). simpl.
          rewrite Ht. by simpl.
        - destruct (String.eqb_spec ref_type "tags") as [Ht'|Ht'].
          + unfold bind, lift, ret. by rewrite (Htags Ht').
          + done. }
      unfold bind at 1. unfold bind at 1 in Hrules.
      destruct ((if String.eqb ref_type "heads"
                 then let* ok := lift (handle_ref A ref_name
                                         (push_branches cfg)) in
                      ret (negb ok)
                 else ret false) w) as [[rh|e] w0]; [|done].
      unfold bind at 1. unfold bind at 1 in Hrules.
      destruct ((if rh then ret true
                 else if String.eqb ref_type "tags"
                 then let* ok := lift (handle_ref A ref_name
                                         (push_tags cfg)) in
                      ret (negb ok)
                 else ret false) w0) as [[rf|e] w1]; [|done].
      unfold ret in Hrules. injection Hrules as -> ->.
      unfold bind at 1, new_job at 1. fold new_one nj wa.
      unfold bind at 1.
      by rewrite (handle_skip_job_some A new_one nj wa Hnj Hskip). }
    unfold eval, exec. rewrite Hrun. cbn [fst snd]. split; [done|].
    exists nj. unfold skipped, wa. simpl.
    repeat split; try done.
    intros k j Hk. by apply lookup_app_l_Some.
  - intros event act Hact Hallowed Hclosed Hc.
    set (info := info_of (pull_request event)).
    set (nj := {| uid := new_uid A new_one; commit := c; pr := Some info;
                  ref := None; config := cfg;
                  fasttracked := is_fasttracked A (Some info) cfg;
                  status := "queued"; result := None; canceled := false;
                  cancelled := None; start_time := 0; stop_time := 0 |}).
    set (wa := set_heap (heap w ++ [nj]) w).
    assert (Hnj : heap wa !! new_one = Some nj).
    { unfold wa. simpl. by apply list_lookup_middle. }
    assert (Hrun : handle_pull_request_event A event w
                   = (Ok None,
                      set_trace (trace w ++ [SetCommitStatus (sha c)
                                               skipped_status]) wa)).
    { unfold handle_pull_request_event. rewrite Hact, Hallowed.
      change (negb true) with false. cbv iota. rewrite Hc.
      unfold bind at 1, new_job at 1.
      fold cfg. fold (info_of (pull_request event)).
      fold info new_one nj wa.
      apply String.eqb_neq in Hclosed. rewrite Hclosed.
      unfold bind at 1.
      by rewrite (handle_skip_job_some A new_one nj wa Hnj Hskip). }
    unfold eval, exec. rewrite Hrun. cbn [fst snd]. split; [done|].
    exists nj. unfold skipped, wa. simpl.
    repeat split; try done.
    intros k j Hk. by apply lookup_app_l_Some.
Qed.

Lemma commit_with_skip_line_is_not_built_witness :
  let event := {| push_ref := "refs/heads/dev"; after := "abc" |} in
  let w' := exec (handle_push_event Cases.skipping event) Scenario.world in
  eval (handle_push_event Cases.skipping event) Scenario.world = Ok tt
  ∧ ∃ candidate,
      w' = set_trace [SetCommitStatus "abc" skipped_status]
             (set_heap (heap Scenario.world ++ [candidate]) Scenario.world)
      ∧ canceled <$> heap w' !! 2%nat = Some false.
Proof.
  intros event w'.
  assert (Hskip : has_skip_line Cases.skipping
                    {| sha := "abc";
                       message := "Fix the build"
                                  +:+ String Re.newline
                                        (String Re.newline "ci: skip");
                       author := "alice" |} Cases.settings).
  { exists ["Fix the build"; ""], "ci: skip", []. split; [reflexivity|].
    split; [discriminate|]. split; [reflexivity|].
    intros x [<-|[<-|[]]]; [by right | by left]. }
  destruct (commit_with_skip_line_is_not_built Cases.skipping _
              Scenario.world Hskip) as [Hpush _].
  destruct (Hpush event "heads" "dev") as (He & candidate & Hsk & _);
    try reflexivity; try discriminate.
  destruct Hsk as (Hw & _ & _ & _ & Hkeep & _).
  split; [exact He|]. exists candidate. split; [exact Hw|].
  fold w' in Hkeep. by rewrite (Hkeep 2%nat (Scenario.job_on_pr "ccc")).
Defined.

(** ** From scheduling to the build *)

Lemma queued_matches_waiting (j : MurdockJob) (w : World) (k : loc) :
  In k (queued_matches j w) → In k (queued w).
Proof.
  unfold queued_matches, MurdockJobList.search_by_pr_number,
    MurdockJobList.search_by_ref.
  rewrite in_app_iff. intros [H|H].
  - destruct (pr j); [|done]. apply filter_In in H. tauto.
  - destruct (ref j); [|done]. apply filter_In in H. tauto.
Qed.

(** X28: a job that is scheduled is built. After [schedule_job] on a new
    job, a worker left alone with the queues starts the build of that job
    once it has served what was queued before it, and then waits on empty
    queues. (Observers reachable; the queues hold objects of the store,
    each once, and the job is in none of them yet.) *)
Theorem scheduled_job_is_built
    (A : Adapters) (re : Exn → bool) (turns : nat) (job : loc)
    (j : MurdockJob) (w : World) :
  heap w !! job = Some j →
  canceled j = false →
  observers_ok A w →
  ¬ In job (queued w) →
  ¬ In job (fasttrack_queue w ++ queue w) →
  (∀ k, In k (fasttrack_queue w ++ queue w) → is_Some (heap w !! k)) →
  List.NoDup (fasttrack_queue w ++ queue w) →
  (List.length (fasttrack_queue w ++ queue w) + 1 < turns)%nat →
  let w1 := exec (schedule_job A job) w in
  let w2 := exec (job_processing_task A re turns) w1 in
  eval (job_processing_task A re turns) w1 = Ok Waiting
  ∧ (∃ before later,
       executed (trace w2)
       = (executed (trace w1) ++ before ++ job :: later)%list)
  ∧ queue w2 = [] ∧ fasttrack_queue w2 = [].
Proof.
  intros Hj Hc Hok Hnew Hnq Hv Hnd Hlen w1 w2.
  destruct (schedule_job_ok A job j w Hj Hok)
    as (_ & _ & Hh & Hqu & _ & _ & Hcl & _). fold w1 in Hh, Hqu, Hcl.
  assert (Hperm : Permutation (fasttrack_queue w1 ++ queue w1)
                    (job :: fasttrack_queue w ++ queue w)).
  { destruct Hqu as [[-> ->]|[-> ->]].
    - rewrite app_assoc. symmetry. apply Permutation_cons_append.
    - rewrite <- app_assoc. simpl. symmetry. apply Permutation_middle. }
  assert (Hj1 : heap w1 !! job = Some j).
  { rewrite Hh, Hj.
    destruct (existsb (Nat.eqb job) _) eqn:Hex; [|done].
    apply existsb_eqb_spec in Hex.
    destruct (cancel_on_update w); [|done].
    by apply queued_matches_waiting in Hex. }
  destruct (worker_drains A re turns w1) as (w' & Hrun & Hf & Hq & Hex).
  - intros c Hcin. apply Hok. by rewrite <- Hcl.
  - intros k Hk. apply (Permutation_in _ Hperm) in Hk as [<-|Hk].
    + by rewrite Hj1.
    + rewrite Hh. destruct (Hv k Hk) as [jk ->].
      by destruct (existsb (Nat.eqb k) _).
  - apply (Permutation_NoDup (symmetry Hperm)).
    by apply List.NoDup_cons.
  - rewrite (Permutation_length Hperm). simpl. lia.
  - unfold w2, eval, exec. rewrite Hrun. cbn [fst snd].
    split; [done|]. split; [|done].
    assert (Hin : In job (List.filter (runnable (heap w1))
                            (fasttrack_queue w1 ++ queue w1))).
    { apply filter_In. split.
      - apply (Permutation_in _ (symmetry Hperm)). by left.
      - unfold runnable. by rewrite Hj1, Hc. }
    apply in_split in Hin as (before & later & Hsplit).
    exists before, later. by rewrite Hex, Hsplit.
Qed.

Lemma scheduled_job_is_built_witness :
  let w := set_running [None; None] (set_queued [] (set_queue []
             Scenario.world)) in
  let w1 := exec (schedule_job Cases.steady 4%nat) w in
  let w2 := exec (job_processing_task Cases.steady (fun _ => false) 3) w1 in
  eval (job_processing_task Cases.steady (fun _ => false) 3) w1 = Ok Waiting
  ∧ queue w2 = [].
Proof.
  intros w w1 w2.
  assert (Hok : observers_ok Cases.steady w) by done.
  assert (Hnd : List.NoDup (fasttrack_queue w ++ queue w)) by constructor.
  destruct (scheduled_job_is_built Cases.steady (fun _ => false) 3 4%nat
              (Scenario.job_on_pr "eee") w eq_refl eq_refl Hok
              ltac:(by intros []) ltac:(by intros [])
              ltac:(by intros k []) Hnd ltac:(simpl; lia))
    as (He & _ & Hq & _).
  split; [exact He | exact Hq].
Defined.
